(** * Time Manager: scheduling and balance engine

    A shallow embedding of the TypeScript sources [types.ts] (calendar
    geometry and entity definitions) and [state.ts] (the in-memory store, the
    time-block operations, the rolling balance calculation and the template
    engine), together with the properties of the engine stated in the
    specification.

    Conventions of the embedding.
    - JavaScript numbers that hold slot indices, years and day counts are
      integers ([Z]).  Hour quantities are IEEE 754 doubles: a finite double
      is kept as the rational it denotes ([Qc]), and every addition,
      subtraction, multiplication and division of the balance calculation
      returns the exact result rounded to the nearest double, ties to even
      ([roundDouble]).  Only the product of a block count with the slot
      length needs no rounding: the length of an array is an integer below
      2^32, and half of it is a double.  [NaN], the infinities and the
      sign of zero are not represented.
    - Identifiers come from [crypto.randomUUID()].  They are modelled as
      natural numbers drawn from a supply kept in the state: every call of
      [generateId] returns the next unused number, so that two calls never
      return the same identifier, as is expected of random UUIDs.
    - Module-level mutable variables ([appData], [currentMonday]) are the
      fields of an explicit [State]; each exported function of [state.ts]
      becomes a function from states to states (and a result).  The change
      listeners and the debounced persistence calls do not influence the
      store and are left out.
    - A [Date] is represented by its local broken-down time: the year, the
      day within the year and the milliseconds within the day, with the
      day arithmetic of ECMA-262 ([DayFromYear], [WeekDay]).  The offset of
      the local time zone is a parameter. *)

From stdpp Require Import base list strings numbers pretty sorting gmap.
From Stdlib Require Import Ascii QArith Qcanon Qround Qpower Qabs Lqa.

Open Scope Z_scope.

(** ** types.ts: enumerations and constants *)

Inductive Priority := High | Medium | Low.

Inductive DayOfWeek := Monday | Tuesday | Wednesday | Thursday | Friday.

Definition DAYS : list DayOfWeek := [Monday; Tuesday; Wednesday; Thursday; Friday].

#[global] Instance Priority_eq_dec : EqDecision Priority.
Proof. solve_decision. Defined.

#[global] Instance DayOfWeek_eq_dec : EqDecision DayOfWeek.
Proof. solve_decision. Defined.

(** Only the length of [PROJECT_PALETTE] is used by the engine. *)
Definition PROJECT_PALETTE_length : nat := 12.

Definition START_HOUR : Z := 7.
Definition END_HOUR : Z := 19.
Definition SLOT_MINUTES : Z := 30.
Definition SLOTS_PER_DAY : Z := (END_HOUR - START_HOUR) * (60 / SLOT_MINUTES).

(** [SLOT_MINUTES / 60], the length of a slot in hours. *)
Definition SLOT_HOURS : Qc := Q2Qc (SLOT_MINUTES # 60).

(** ** The [Date] objects used by the engine *)

Definition msPerDay : Z := 86400000.

Record Date := mkDate {
  fullYear : Z;    (* getFullYear() *)
  dayInYear : Z;   (* local day within the year, 0 for 1 January *)
  msInDay : Z      (* local milliseconds since midnight *)
}.

#[global] Instance Date_eq_dec : EqDecision Date.
Proof. solve_decision. Defined.

Definition isLeapYear (y : Z) : bool :=
  ((y mod 4 =? 0) && negb (y mod 100 =? 0)) || (y mod 400 =? 0).

Definition DaysInYear (y : Z) : Z := if isLeapYear y then 366 else 365.

(** Day number of 1 January of year [y], counted from 1 January 1970. *)
Definition DayFromYear (y : Z) : Z :=
  365 * (y - 1970) + (y - 1969) / 4 - (y - 1901) / 100 + (y - 1601) / 400.

Definition localDay (d : Date) : Z := DayFromYear (fullYear d) + dayInYear d.

Definition localTime (d : Date) : Z := msPerDay * localDay d + msInDay d.

Definition validDate (d : Date) : Prop :=
  0 <= dayInYear d < DaysInYear (fullYear d) /\ 0 <= msInDay d < msPerDay.

(** [getDay()]: 0 is Sunday; 1 January 1970 was a Thursday. *)
Definition getDay (d : Date) : Z := (localDay d + 4) mod 7.

(** [new Date(year, 0, 1)].  The constructor reads a year from 0 to 99 as
    a year of the twentieth century (ECMA-262, 21.4.2.1: [yr] is
    [1900 + y] when [0 <= y <= 99]). *)
Definition newDateJan1 (year : Z) : Date :=
  mkDate (if (0 <=? year) && (year <=? 99) then 1900 + year else year) 0 0.

(** [setDate(getDate() + k)], renormalised over a year boundary; used with
    offsets of at most a week.  The local time of day is kept; where the
    zone skips that local time on the new day (the start of daylight
    saving), the code lands later on that day, which is not represented. *)
Definition addDays (d : Date) (k : Z) : Date :=
  let n := dayInYear d + k in
  if n <? 0 then
    mkDate (fullYear d - 1) (n + DaysInYear (fullYear d - 1)) (msInDay d)
  else if DaysInYear (fullYear d) <=? n then
    mkDate (fullYear d + 1) (n - DaysInYear (fullYear d)) (msInDay d)
  else mkDate (fullYear d) n (msInDay d).

(** [setHours(0, 0, 0, 0)]: local midnight; where the zone skips local
    midnight on that day, the code lands later on that day, which is not
    represented. *)
Definition setMidnight (d : Date) : Date := mkDate (fullYear d) (dayInYear d) 0.

(** [Math.ceil(x / 7)] and the like, on integers. *)
Definition ceilDiv (x y : Z) : Z := - ((- x) / y).

(** [s.padStart(targetLength, "0")] *)
Fixpoint zeros (n : nat) : string :=
  match n with
  | O => EmptyString
  | S n' => String "0"%char (zeros n')
  end.

Definition padStart0 (targetLength : nat) (s : string) : string :=
  String.app (zeros (targetLength - String.length s)) s.

Definition getMonday (date : Date) : Date :=
  let d := date in
  let day := getDay d in
  let diff := - day + (if day =? 0 then -6 else 1) in
  setMidnight (addDays d diff).

(** Helper to format slot index to time string.  [%] is the remainder of
    the truncated division. *)
Definition slotToTime (slotIndex : Z) : string :=
  let totalMinutes := START_HOUR * 60 + slotIndex * SLOT_MINUTES in
  let hours := totalMinutes / 60 in
  let minutes := Z.rem totalMinutes 60 in
  let ampm := if 12 <=? hours then "PM"%string else "AM"%string in
  let displayHour :=
    if 12 <? hours then hours - 12 else if hours =? 0 then 12 else hours in
  String.app (pretty displayHour)
    (String.app ":" (String.app (padStart0 2 (pretty minutes))
                                (String.app " " ampm))).

Section TimeZone.

(** Offset of local time from UTC in milliseconds, as a function of the
    local time value (it changes with daylight saving). *)
Variable LocalTZA : Z -> Z.

(** [getTime()] *)
Definition getTime (d : Date) : Z := localTime d - LocalTZA (localTime d).

Definition getWeekKey (monday : Date) : string :=
  let year := fullYear monday in
  let jan1 := newDateJan1 year in
  let days := (getTime monday - getTime jan1) / msPerDay in
  let weekNum := ceilDiv (days + getDay jan1 + 1) 7 in
  String.app (pretty year) (String.app "-W" (padStart0 2 (pretty weekNum))).

End TimeZone.

Definition utc : Z -> Z := fun _ => 0.

(** 9 February 2026 is a Monday (day 39 of the year). *)
Example getWeekKey_2026_02_09 : getWeekKey utc (mkDate 2026 39 0) = "2026-W07"%string.
Proof. vm_compute. reflexivity. Qed.

(** ** types.ts: entities *)

Definition Id := nat.

Record Project := mkProject {
  project_id : Id;
  name : string;
  weeklyHourTarget : Qc;
  priority : Priority;
  colorIndex : nat
}.

Record TimeBlock := mkTimeBlock {
  block_id : Id;
  projectId : Id;
  day : DayOfWeek;
  slotIndex : Z
}.

Record WeekData := mkWeekData {
  weekKey : string;
  startDate : string;
  blocks : list TimeBlock
}.

(** [Omit<TimeBlock, "id">] *)
Record TemplateBlock := mkTemplateBlock {
  tb_projectId : Id;
  tb_day : DayOfWeek;
  tb_slotIndex : Z
}.

Record Template := mkTemplate {
  template_id : Id;
  template_name : string;
  template_blocks : list TemplateBlock
}.

Record AppData := mkAppData {
  projects : list Project;
  weeks : list WeekData;
  templates : list Template;
  weeklyHourGoal : Qc
}.

Inductive WeeklyStanding := over | under | on_track.

Record ProjectBalance := mkProjectBalance {
  project : Project;
  weeklyTarget : Qc;
  currentWeekLogged : Qc;
  carryoverBalance : Qc;
  effectiveAvailable : Qc;
  percentComplete : Z;
  standing : WeeklyStanding
}.

(** [Partial<Omit<Project, "id">>] *)
Record ProjectUpdates := mkProjectUpdates {
  upd_name : option string;
  upd_weeklyHourTarget : option Qc;
  upd_priority : option Priority;
  upd_colorIndex : option nat
}.

(** ** state.ts: the application state *)

Record State := mkState {
  appData : AppData;
  currentMonday : Date;
  idSupply : nat
}.

Definition with_blocks (w : WeekData) (bs : list TimeBlock) : WeekData :=
  mkWeekData (weekKey w) (startDate w) bs.

Definition with_projectId (b : TimeBlock) (p : Id) : TimeBlock :=
  mkTimeBlock (block_id b) p (day b) (slotIndex b).

Definition with_projects (s : State) (ps : list Project) : State :=
  mkState (mkAppData ps (weeks (appData s)) (templates (appData s))
                     (weeklyHourGoal (appData s)))
          (currentMonday s) (idSupply s).

Definition with_weeks (s : State) (ws : list WeekData) : State :=
  mkState (mkAppData (projects (appData s)) ws (templates (appData s))
                     (weeklyHourGoal (appData s)))
          (currentMonday s) (idSupply s).

Definition with_templates (s : State) (ts : list Template) : State :=
  mkState (mkAppData (projects (appData s)) (weeks (appData s)) ts
                     (weeklyHourGoal (appData s)))
          (currentMonday s) (idSupply s).

Definition with_weeklyHourGoal (s : State) (g : Qc) : State :=
  mkState (mkAppData (projects (appData s)) (weeks (appData s))
                     (templates (appData s)) g)
          (currentMonday s) (idSupply s).

Definition with_currentMonday (s : State) (d : Date) : State :=
  mkState (appData s) d (idSupply s).

(** [generateId()]: the next identifier of the supply. *)
Definition generateId (s : State) : Id * State :=
  (idSupply s, mkState (appData s) (currentMonday s) (S (idSupply s))).

(** [Array.prototype.sort] with a comparator whose "not after" relation is
    [R]: a stable sort. *)
Section ArraySort.
Context {A : Type} (R : relation A) `{!RelDecision R}.

Fixpoint sort_insert (x : A) (l : list A) : list A :=
  match l with
  | [] => [x]
  | y :: l' => if decide (R x y) then x :: y :: l' else y :: sort_insert x l'
  end.

Fixpoint Array_sort (l : list A) : list A :=
  match l with
  | [] => []
  | x :: l' => sort_insert x (Array_sort l')
  end.
End ArraySort.

(** ** JavaScript numbers: IEEE 754 binary64 arithmetic *)

Definition pow2 (z : Z) : Q := (2 ^ z)%Q.

(** The binary exponent of a positive rational [q]: the integer [e] with
    [2^e <= q < 2^(e+1)]. *)
Definition ilog2 (q : Q) : Z :=
  let k := Z.log2 (Qnum q) - Z.log2 (Zpos (Qden q)) in
  if Qle_bool (pow2 k) q then k else k - 1.

(** The exponent of the unit in the last place of the doubles around [q]:
    53 significant bits, and the uniform spacing [2^-1074] of the
    subnormal numbers below [2^-1022]. *)
Definition ulpExp (q : Q) : Z := Z.max (ilog2 q) (-1022) - 52.

(** Rounding to the nearest integer, ties to the even one. *)
Definition roundEven (x : Q) : Z :=
  let f := Qfloor x in
  match (x - inject_Z f ?= 1 # 2)%Q with
  | Lt => f
  | Gt => f + 1
  | Eq => if Z.even f then f else f + 1
  end.

Definition roundPos (q : Q) : Q :=
  let p := ulpExp q in (inject_Z (roundEven (q / pow2 p)) * pow2 p)%Q.

(** The double nearest to a rational, ties to the even significand (the
    rounding of every arithmetic operation on Numbers, ECMA-262 6.1.6.1).
    Results beyond the largest double, which the code would hold as an
    infinity, are not cut off. *)
Definition roundDoubleQ (q : Q) : Q :=
  match Qnum q with
  | Z0 => 0%Q
  | Zpos _ => roundPos q
  | Zneg _ => (- roundPos (- q))%Q
  end.

Definition roundDouble (x : Qc) : Qc := Q2Qc (roundDoubleQ x).

(** The finite doubles: a significand of at most 53 bits at an exponent
    of at least -1074. *)
Definition isDouble (d : Q) : Prop :=
  exists m e : Z, Z.abs m < 2 ^ 53 /\ -1074 <= e /\ (d == inject_Z m * pow2 e)%Q.

(** [d] is a double nearest to [x]. *)
Definition nearestDouble (x d : Q) : Prop :=
  isDouble d /\ forall d', isDouble d' -> (Qabs (d - x) <= Qabs (d' - x))%Q.

(** [a + b], [a - b], [a * b] and [a / b] on Numbers. *)
Definition Number_add (a b : Qc) : Qc := roundDouble (a + b).
Definition Number_sub (a b : Qc) : Qc := roundDouble (a - b).
Definition Number_mul (a b : Qc) : Qc := roundDouble (a * b).
Definition Number_div (a b : Qc) : Qc := roundDouble (a / b).

(** A decimal literal of the source denotes the double nearest to it. *)
Definition Number_literal (q : Q) : Qc := roundDouble (Q2Qc q).

(** [0.1 + 0.2] is [0.30000000000000004], and [11.5 / 20 * 100] is
    [57.49999999999999]. *)
Example Number_add_tenths :
  Number_add (Number_literal (1 # 10)) (Number_literal (2 # 10))
  = Number_literal (30000000000000004 # 100000000000000000).
Proof. apply Qc_is_canon. by vm_compute. Qed.

Example Number_div_mul_percent :
  Number_mul (Number_div (Q2Qc (23 # 2)) (Q2Qc 20)) (Q2Qc 100)
  = Number_literal (5749999999999999 # 100000000000000).
Proof. apply Qc_is_canon. by vm_compute. Qed.

(** [Math.round], [Math.max] *)
Definition Math_round (x : Qc) : Z := Qfloor (x + Q2Qc (1 # 2))%Qc.

Definition Math_max (a b : Qc) : Qc := if decide (a < b)%Qc then b else a.

Section Engine.

Variable LocalTZA : Z -> Z.

(** [date.toISOString().split("T")[0]] *)
Variable toDateString : Date -> string.

Definition getCurrentWeekKey (s : State) : string :=
  getWeekKey LocalTZA (currentMonday s).

Definition ensureCurrentWeek (s : State) : State :=
  let key := getWeekKey LocalTZA (currentMonday s) in
  match list_find (fun w => weekKey w = key) (weeks (appData s)) with
  | Some _ => s
  | None =>
      with_weeks s (weeks (appData s) ++
                    [mkWeekData key (toDateString (currentMonday s)) []])
  end.

Definition defaultAppData : AppData := mkAppData [] [] [] (Q2Qc 40).

(** The module-level initialisers, with [now] the value of [new Date()]. *)
Definition moduleInit (now : Date) : State :=
  mkState defaultAppData (getMonday now) 0.

(** [initState], with [loaded] the result of [loadAppData()]. *)
Definition initState (loaded : AppData) (now : Date) (s : State) : State :=
  let data :=
    if decide (weeklyHourGoal loaded = Q2Qc 0)
    then mkAppData (projects loaded) (weeks loaded) (templates loaded) (Q2Qc 40)
    else loaded in
  ensureCurrentWeek (mkState data (getMonday now) (idSupply s)).

Definition navigateWeek (direction : Z) (s : State) : State :=
  let newMonday := addDays (currentMonday s) (direction * 7) in
  ensureCurrentWeek (with_currentMonday s newMonday).

Definition goToToday (now : Date) (s : State) : State :=
  ensureCurrentWeek (with_currentMonday s (getMonday now)).

Definition getCurrentWeekData (s : State) : WeekData :=
  let key := getWeekKey LocalTZA (currentMonday s) in
  match list_find (fun w => weekKey w = key) (weeks (appData s)) with
  | Some (_, w) => w
  | None => mkWeekData key (toDateString (currentMonday s)) []
  end.

Definition setWeeklyHourGoal (hours : Qc) (s : State) : State :=
  with_weeklyHourGoal s hours.

(** *** Project CRUD *)

(** The [while] loop of [addProject]; it runs at most
    [PROJECT_PALETTE.length] times. *)
Fixpoint nextColorIndex (fuel : nat) (usedIndices : list nat) (colorIndex : nat) : nat :=
  match fuel with
  | O => colorIndex
  | S fuel' =>
      if decide (colorIndex ∈ usedIndices ∧ (colorIndex < PROJECT_PALETTE_length)%nat)
      then nextColorIndex fuel' usedIndices (S colorIndex)
      else colorIndex
  end.

Definition addProject (name : string) (weeklyHourTarget : Qc) (priority : Priority)
    (s : State) : Project * State :=
  let usedIndices := map colorIndex (projects (appData s)) in
  let colorIndex := nextColorIndex PROJECT_PALETTE_length usedIndices 0 in
  let colorIndex :=
    if decide (PROJECT_PALETTE_length <= colorIndex)%nat
    then (length (projects (appData s)) mod PROJECT_PALETTE_length)%nat
    else colorIndex in
  let '(id, s1) := generateId s in
  let project := mkProject id name weeklyHourTarget priority colorIndex in
  (project, with_projects s1 (projects (appData s1) ++ [project])).

(** [Object.assign(project, updates)] *)
Definition assignProject (p : Project) (u : ProjectUpdates) : Project :=
  mkProject (project_id p)
            (default (name p) (upd_name u))
            (default (weeklyHourTarget p) (upd_weeklyHourTarget u))
            (default (priority p) (upd_priority u))
            (default (colorIndex p) (upd_colorIndex u)).

Definition updateProject (id : Id) (updates : ProjectUpdates) (s : State) : State :=
  match list_find (fun p => project_id p = id) (projects (appData s)) with
  | Some (i, p) =>
      with_projects s (<[i := assignProject p updates]> (projects (appData s)))
  | None => s
  end.

Definition deleteProject (id : Id) (s : State) : State :=
  let s1 := with_projects s (filter (fun p => project_id p ≠ id) (projects (appData s))) in
  with_weeks s1
    (map (fun week => with_blocks week (filter (fun b => projectId b ≠ id) (blocks week)))
         (weeks (appData s1))).

(** *** Time block operations *)

Definition updateWeekInState (week : WeekData) (s : State) : State :=
  match list_find (fun w => weekKey w = weekKey week) (weeks (appData s)) with
  | Some (idx, _) => with_weeks s (<[idx := week]> (weeks (appData s)))
  | None => with_weeks s (weeks (appData s) ++ [week])
  end.

Definition addTimeBlock (projectId : Id) (day0 : DayOfWeek) (slotIndex0 : Z)
    (s : State) : option TimeBlock * State :=
  let week := getCurrentWeekData s in
  match list_find (fun b => day b = day0 ∧ slotIndex b = slotIndex0) (blocks week) with
  | Some _ => (None, s)
  | None =>
      let '(id, s1) := generateId s in
      let block := mkTimeBlock id projectId day0 slotIndex0 in
      let week := with_blocks week (blocks week ++ [block]) in
      (Some block, updateWeekInState week s1)
  end.

(** The [for] loop of [addTimeBlocks]: [n] iterations remain, the loop
    variable is [slot]. *)
Fixpoint addTimeBlocks_loop (n : nat) (slot : Z) (projectId : Id) (day0 : DayOfWeek)
    (week : WeekData) (newBlocks : list TimeBlock) (s : State)
    : WeekData * list TimeBlock * State :=
  match n with
  | O => (week, newBlocks, s)
  | S n' =>
      let week :=
        with_blocks week
          (filter (fun b => ¬ (day b = day0 ∧ slotIndex b = slot)) (blocks week)) in
      let '(id, s1) := generateId s in
      let block := mkTimeBlock id projectId day0 slot in
      let week := with_blocks week (blocks week ++ [block]) in
      addTimeBlocks_loop n' (slot + 1) projectId day0 week (newBlocks ++ [block]) s1
  end.

Definition addTimeBlocks (projectId : Id) (day0 : DayOfWeek) (startSlot endSlot : Z)
    (s : State) : list TimeBlock * State :=
  let week := getCurrentWeekData s in
  let minSlot := Z.min startSlot endSlot in
  let maxSlot := Z.max startSlot endSlot in
  let '(week, newBlocks, s1) :=
    addTimeBlocks_loop (Z.to_nat (maxSlot - minSlot + 1)) minSlot projectId day0
                       week [] s in
  if decide (0 < length newBlocks)%nat
  then (newBlocks, updateWeekInState week s1)
  else (newBlocks, s1).

Definition removeTimeBlocksInRange (day0 : DayOfWeek) (startSlot endSlot : Z)
    (s : State) : State :=
  let week := getCurrentWeekData s in
  let minSlot := Z.min startSlot endSlot in
  let maxSlot := Z.max startSlot endSlot in
  let before := length (blocks week) in
  let week' :=
    with_blocks week
      (filter (fun b => ¬ (day b = day0 ∧ minSlot <= slotIndex b ∧ slotIndex b <= maxSlot))
              (blocks week)) in
  if decide (length (blocks week') ≠ before)
  then updateWeekInState week' s
  else s.

Definition removeTimeBlock (blockId : Id) (s : State) : State :=
  let week := getCurrentWeekData s in
  let week := with_blocks week (filter (fun b => block_id b ≠ blockId) (blocks week)) in
  updateWeekInState week s.

Definition updateTimeBlockProject (blockId newProjectId : Id) (s : State) : State :=
  let week := getCurrentWeekData s in
  match list_find (fun b => block_id b = blockId) (blocks week) with
  | Some (i, block) =>
      let week :=
        with_blocks week (<[i := with_projectId block newProjectId]> (blocks week)) in
      updateWeekInState week s
  | None => s
  end.

(** *** Rolling balance calculation *)

(** [blocks.filter((b) => b.projectId === id).length * (SLOT_MINUTES / 60)].
    Half of an array length is a double, so this product is exact. *)
Definition hoursLogged (id : Id) (bs : list TimeBlock) : Qc :=
  (Q2Qc (inject_Z (Z.of_nat (length (filter (fun b => projectId b = id) bs))))
   * SLOT_HOURS)%Qc.

(** The carry-over loop over the sorted weeks: it stops at the first week
    that is not before the current one, and skips empty weeks. *)
Fixpoint carryoverLoop (project : Project) (currentKey : string)
    (sortedWeeks : list WeekData) (carryover : Qc) : Qc :=
  match sortedWeeks with
  | [] => carryover
  | week :: rest =>
      if decide (String.le currentKey (weekKey week)) then carryover
      else if decide (length (blocks week) = 0%nat)
      then carryoverLoop project currentKey rest carryover
      else
        carryoverLoop project currentKey rest
          (Number_add carryover
             (Number_sub (weeklyHourTarget project)
                         (hoursLogged (project_id project) (blocks week))))
  end.

(** The comparator [a.weekKey.localeCompare(b.weekKey)] and the test
    [week.weekKey >= currentKey] are both read as the order of the strings
    by character code; the two agree on week keys, which consist of
    digits, ['-'] and ['W'] at fixed places. *)
Definition weekKey_le (a b : WeekData) : Prop := String.le (weekKey a) (weekKey b).

#[global] Instance weekKey_le_dec : RelDecision weekKey_le.
Proof. intros a b. unfold weekKey_le. apply _. Defined.

Definition priorityOrder (p : Priority) : Z :=
  match p with High => 0 | Medium => 1 | Low => 2 end.

Definition priority_le (a b : ProjectBalance) : Prop :=
  priorityOrder (priority (project a)) <= priorityOrder (priority (project b)).

#[global] Instance priority_le_dec : RelDecision priority_le.
Proof. intros a b. unfold priority_le. apply _. Defined.

(** The body of the [map] callback of [calculateProjectBalances]. *)
Definition projectBalance (s : State) (sortedWeeks : list WeekData)
    (project : Project) : ProjectBalance :=
  let currentKey := getWeekKey LocalTZA (currentMonday s) in
  let carryover := carryoverLoop project currentKey sortedWeeks (Q2Qc 0) in
  let currentWeek := getCurrentWeekData s in
  let currentHours := hoursLogged (project_id project) (blocks currentWeek) in
  let effectiveAvailable := Number_add (weeklyHourTarget project) carryover in
  let percentComplete :=
    if decide (0 < effectiveAvailable)%Qc
    then Math_round (Number_mul (Number_div currentHours effectiveAvailable) (Q2Qc 100))
    else if decide (0 < currentHours)%Qc then 100 else 0 in
  let tolerance :=
    Math_max (Q2Qc (1 # 2))
             (Number_mul (weeklyHourTarget project) (Number_literal (1 # 10))) in
  let standing :=
    if decide (weeklyHourTarget project = Q2Qc 0) then on_track
    else if decide (Number_add (weeklyHourTarget project) tolerance < currentHours)%Qc
    then over
    else if decide (currentHours < Number_sub (weeklyHourTarget project) tolerance)%Qc
    then under
    else on_track in
  mkProjectBalance project (weeklyHourTarget project) currentHours carryover
                   effectiveAvailable (Z.min percentComplete 100) standing.

Definition calculateProjectBalances (s : State) : list ProjectBalance :=
  let sortedWeeks := Array_sort weekKey_le (weeks (appData s)) in
  let balances := map (projectBalance s sortedWeeks) (projects (appData s)) in
  Array_sort priority_le balances.

(** *** Templates *)

Definition toTemplateBlock (b : TimeBlock) : TemplateBlock :=
  mkTemplateBlock (projectId b) (day b) (slotIndex b).

Definition saveCurrentWeekAsTemplate (name : string) (s : State) : Template * State :=
  let week := getCurrentWeekData s in
  let '(id, s1) := generateId s in
  let template := mkTemplate id name (map toTemplateBlock (blocks week)) in
  (template, with_templates s1 (templates (appData s1) ++ [template])).

(** The [for] loop of [applyTemplate] over the template's blocks. *)
Fixpoint applyTemplate_loop (tbs : list TemplateBlock) (week : WeekData) (s : State)
    : WeekData * State :=
  match tbs with
  | [] => (week, s)
  | tb :: rest =>
      match list_find (fun p => project_id p = tb_projectId tb) (projects (appData s)) with
      | Some _ =>
          let '(id, s1) := generateId s in
          let week :=
            with_blocks week
              (blocks week ++
               [mkTimeBlock id (tb_projectId tb) (tb_day tb) (tb_slotIndex tb)]) in
          applyTemplate_loop rest week s1
      | None => applyTemplate_loop rest week s
      end
  end.

Definition applyTemplate (templateId : Id) (s : State) : State :=
  match list_find (fun t => template_id t = templateId) (templates (appData s)) with
  | None => s
  | Some (_, template) =>
      let week := getCurrentWeekData s in
      let week := with_blocks week [] in
      let '(week, s1) := applyTemplate_loop (template_blocks template) week s in
      updateWeekInState week s1
  end.

Definition deleteTemplate (templateId : Id) (s : State) : State :=
  with_templates s (filter (fun t => template_id t ≠ templateId) (templates (appData s))).

(** ** Vocabulary of the specification *)

(** [weekNum.toString().padStart(2, "0")] *)
Definition weekLabel (w : Z) : string := padStart0 2 (pretty w).

(** The number of days that [getWeekKey] computes for a date of the year. *)
Definition daysSinceJan1 (d : Date) : Z :=
  (getTime LocalTZA d - getTime LocalTZA (newDateJan1 (fullYear d))) / msPerDay.

(** The blocks minted by [n] iterations of the loop of [addTimeBlocks]
    that start at [slot] with the identifier supply at [supply]. *)
Fixpoint rangeBlocks (projectId : Id) (day0 : DayOfWeek) (n : nat) (slot : Z)
    (supply : nat) : list TimeBlock :=
  match n with
  | O => []
  | S n' =>
      mkTimeBlock supply projectId day0 slot
      :: rangeBlocks projectId day0 n' (slot + 1) (S supply)
  end.

Definition inSlotRange (day0 : DayOfWeek) (lo hi : Z) (b : TimeBlock) : Prop :=
  day b = day0 /\ lo <= slotIndex b /\ slotIndex b <= hi.

#[global] Instance inSlotRange_dec day0 lo hi b : Decision (inSlotRange day0 lo hi b).
Proof. unfold inSlotRange. apply _. Defined.

Definition slotOccupied (d : DayOfWeek) (i : Z) (bs : list TimeBlock) : Prop :=
  Exists (fun b => day b = d /\ slotIndex b = i) bs.

(** Every block of every week refers to a project of the registry. *)
Definition noOrphans (s : State) : Prop :=
  Forall (fun w => Forall (fun b => Exists (fun p => project_id p = projectId b)
                                          (projects (appData s)))
                          (blocks w))
         (weeks (appData s)).

Definition projectExists (ps : list Project) (tb : TemplateBlock) : Prop :=
  Exists (fun p => project_id p = tb_projectId tb) ps.

#[global] Instance projectExists_dec ps tb : Decision (projectExists ps tb).
Proof. unfold projectExists. apply _. Defined.

(** The blocks minted for a list of template entries, the identifier supply
    being at [supply]. *)
Fixpoint mintBlocks (tbs : list TemplateBlock) (supply : nat) : list TimeBlock :=
  match tbs with
  | [] => []
  | tb :: rest =>
      mkTimeBlock supply (tb_projectId tb) (tb_day tb) (tb_slotIndex tb)
      :: mintBlocks rest (S supply)
  end.

(** The current week has been emptied between [s1] and [s2]; the projects,
    the templates and the selected week are the same. *)
Definition currentWeekCleared (s1 s2 : State) : Prop :=
  projects (appData s2) = projects (appData s1)
  /\ templates (appData s2) = templates (appData s1)
  /\ currentMonday s2 = currentMonday s1
  /\ blocks (getCurrentWeekData s2) = [].

Definition slotKey (b : TimeBlock) : DayOfWeek * Z := (day b, slotIndex b).

Definition entryKey (tb : TemplateBlock) : DayOfWeek * Z := (tb_day tb, tb_slotIndex tb).

Definition slotsUnique (bs : list TimeBlock) : Prop := NoDup (slotKey <$> bs).

(** The invariant of the store: no two blocks of a week share a slot, and
    no two entries of a template do. *)
Definition storeInv (s : State) : Prop :=
  Forall (fun w => slotsUnique (blocks w)) (weeks (appData s))
  /\ Forall (fun t => NoDup (entryKey <$> template_blocks t)) (templates (appData s)).

(** One call of an exported function of [state.ts].  [initState] loads
    what the persistence gateway holds: the defaults, or the data written
    from the store. *)
Inductive step : State -> State -> Prop :=
  | step_initState_default now s :
      step s (initState defaultAppData now s)
  | step_initState_saved now s :
      step s (initState (appData s) now s)
  | step_navigateWeek direction s :
      direction = 1 \/ direction = -1 ->
      step s (navigateWeek direction s)
  | step_goToToday now s :
      step s (goToToday now s)
  | step_setWeeklyHourGoal hours s :
      step s (setWeeklyHourGoal hours s)
  | step_addProject name0 target prio s :
      step s (addProject name0 target prio s).2
  | step_updateProject id updates s :
      step s (updateProject id updates s)
  | step_deleteProject id s :
      step s (deleteProject id s)
  | step_addTimeBlock p d i s :
      step s (addTimeBlock p d i s).2
  | step_addTimeBlocks p d a b s :
      step s (addTimeBlocks p d a b s).2
  | step_removeTimeBlocksInRange d a b s :
      step s (removeTimeBlocksInRange d a b s)
  | step_removeTimeBlock blockId s :
      step s (removeTimeBlock blockId s)
  | step_updateTimeBlockProject blockId p s :
      step s (updateTimeBlockProject blockId p s)
  | step_saveCurrentWeekAsTemplate name0 s :
      step s (saveCurrentWeekAsTemplate name0 s).2
  | step_applyTemplate templateId s :
      step s (applyTemplate templateId s)
  | step_deleteTemplate templateId s :
      step s (deleteTemplate templateId s).

(** The states of a run: the module is loaded at some time [now], then the
    exported functions are called in any order with any arguments. *)
Inductive reachable : State -> Prop :=
  | reachable_init now : reachable (moduleInit now)
  | reachable_step s s' : reachable s -> step s s' -> reachable s'.

(** Every identifier stored in a week or carried by a template has been
    drawn from the supply. *)
Definition idsBelowSupply (s : State) : Prop :=
  Forall (fun w => Forall (fun b => (block_id b < idSupply s)%nat) (blocks w))
         (weeks (appData s))
  /\ Forall (fun t => (template_id t < idSupply s)%nat) (templates (appData s)).

(** At most one block of each week occupies a given slot. *)
Definition atMostOnePerSlot (s : State) : Prop :=
  forall w, w ∈ weeks (appData s) ->
  forall d i, (length (filter (fun b => day b = d /\ slotIndex b = i) (blocks w)) <= 1)%nat.

Definition sumQc (l : list Qc) : Qc := foldr Qcplus (Q2Qc 0) l.

(** A week that counts for the carry-over: strictly before the current
    week and holding at least one block. *)
Definition priorNonEmpty (currentKey : string) (w : WeekData) : Prop :=
  ~ String.le currentKey (weekKey w) /\ blocks w <> [].

#[global] Instance priorNonEmpty_dec currentKey w : Decision (priorNonEmpty currentKey w).
Proof.
  unfold priorNonEmpty. destruct (blocks w) as [|b bs].
  - right. by intros [_ ?].
  - destruct (decide (String.le currentKey (weekKey w))) as [Hle|Hlt].
    + right. intros [Hn _]. by apply Hn.
    + left. by split.
Defined.

(** What a week that counts adds to the carry-over of a project: the
    target minus the hours logged, in double arithmetic. *)
Definition carryStep (project : Project) (carryover : Qc) (week : WeekData) : Qc :=
  Number_add carryover
    (Number_sub (weeklyHourTarget project)
                (hoursLogged (project_id project) (blocks week))).

(** ** Queries of [state.ts] *)

Definition getWeekDataByKey (key : string) (s : State) : option WeekData :=
  snd <$> list_find (fun w => weekKey w = key) (weeks (appData s)).

Definition getProjectById (id : Id) (s : State) : option Project :=
  snd <$> list_find (fun p => project_id p = id) (projects (appData s)).

(** [appData.weeklyHourGoal || 40] *)
Definition getWeeklyHourGoal (s : State) : Qc :=
  if decide (weeklyHourGoal (appData s) = Q2Qc 0) then Q2Qc 40
  else weeklyHourGoal (appData s).

Definition getCurrentWeekTotalHours (s : State) : Qc :=
  (Q2Qc (inject_Z (Z.of_nat (length (blocks (getCurrentWeekData s))))) * SLOT_HOURS)%Qc.

(** ** More vocabulary *)

(** The calls that edit the blocks of the selected week. *)
Inductive currentWeekOp : State -> State -> Prop :=
  | cwo_addTimeBlock p d i s :
      currentWeekOp s (addTimeBlock p d i s).2
  | cwo_addTimeBlocks p d a b s :
      currentWeekOp s (addTimeBlocks p d a b s).2
  | cwo_removeTimeBlocksInRange d a b s :
      currentWeekOp s (removeTimeBlocksInRange d a b s)
  | cwo_removeTimeBlock blockId s :
      currentWeekOp s (removeTimeBlock blockId s)
  | cwo_updateTimeBlockProject blockId p s :
      currentWeekOp s (updateTimeBlockProject blockId p s)
  | cwo_applyTemplate templateId s :
      currentWeekOp s (applyTemplate templateId s).

(** The stored weeks other than the selected one. *)
Definition otherWeeks (s : State) : list WeekData :=
  filter (fun w => weekKey w <> getCurrentWeekKey s) (weeks (appData s)).

(** The identifiers in use are pairwise distinct: those of the projects
    (all drawn from the supply), those of the templates, and those of the
    blocks of each week. *)
Definition idsUnique (s : State) : Prop :=
  Forall (fun p => (project_id p < idSupply s)%nat) (projects (appData s))
  /\ NoDup (project_id <$> projects (appData s))
  /\ NoDup (template_id <$> templates (appData s))
  /\ Forall (fun w => NoDup (block_id <$> blocks w)) (weeks (appData s)).

(** ** main.ts: contiguous groups of blocks *)

#[global] Instance DayOfWeek_countable : Countable DayOfWeek.
Proof.
  refine (inj_countable'
            (fun d => match d with
                      | Monday => 0 | Tuesday => 1 | Wednesday => 2
                      | Thursday => 3 | Friday => 4
                      end%nat)
            (fun n => match n with
                      | 0 => Monday | 1 => Tuesday | 2 => Wednesday
                      | 3 => Thursday | _ => Friday
                      end%nat) _).
  by intros [].
Defined.

(** The key ["day:projectId:firstSlot"] of a group, kept as its three
    components. *)
Definition GroupKey : Type := DayOfWeek * Id * Z.

(** The comparator [a.slotIndex - b.slotIndex]. *)
Definition slot_le (a b : TimeBlock) : Prop := slotIndex a <= slotIndex b.

#[global] Instance slot_le_dec : RelDecision slot_le.
Proof. intros a b. unfold slot_le. apply _. Defined.

(** The inner [while] loop of [computeBlockGroupSizes]: it counts the
    blocks that continue the group started by [startBlock] at index [i]. *)
Fixpoint groupSizeLoop (fuel : nat) (dayBlocks : list TimeBlock) (i : nat)
    (startBlock : TimeBlock) (groupSize : nat) : nat :=
  match fuel with
  | O => groupSize
  | S fuel' =>
      match dayBlocks !! (i + groupSize)%nat with
      | Some next =>
          if decide (projectId next = projectId startBlock
                     /\ slotIndex next = slotIndex startBlock + Z.of_nat groupSize)
          then groupSizeLoop fuel' dayBlocks i startBlock (S groupSize)
          else groupSize
      | None => groupSize
      end
  end.

(** The outer [while] loop, over the sorted blocks of one day. *)
Fixpoint groupScanLoop (fuel : nat) (day0 : DayOfWeek) (dayBlocks : list TimeBlock)
    (i : nat) (result : gmap GroupKey nat) : gmap GroupKey nat :=
  match fuel with
  | O => result
  | S fuel' =>
      match dayBlocks !! i with
      | None => result
      | Some startBlock =>
          let groupSize :=
            groupSizeLoop (length dayBlocks) dayBlocks i startBlock 1 in
          let result :=
            <[(day0, projectId startBlock, slotIndex startBlock) := groupSize]> result in
          groupScanLoop fuel' day0 dayBlocks (i + groupSize) result
      end
  end.

Definition computeBlockGroupSizes (blocks0 : list TimeBlock) : gmap GroupKey nat :=
  foldl (fun result day0 =>
           let dayBlocks :=
             Array_sort slot_le (filter (fun b => day b = day0) blocks0) in
           groupScanLoop (length dayBlocks) day0 dayBlocks 0 result)
        ∅ DAYS.

(** A block lies in a group stored in the map. *)
Definition inGroup (m : gmap GroupKey nat) (b : TimeBlock) : Prop :=
  exists slot n, m !! (day b, projectId b, slot) = Some n
                 /\ slot <= slotIndex b < slot + Z.of_nat n.

(** The property of [addTimeBlocks] as the specification words it: after
    the call the day holds exactly [|b-a|+1] blocks, all of the new
    project. *)
Definition dayHoldsExactlyRange (p : Id) (d : DayOfWeek) (a b : Z) (s : State) : Prop :=
  let week := getCurrentWeekData
                (addTimeBlocks p d a b s).2 in
  let dayBlocks := filter (fun x => day x = d) (blocks week) in
  Z.of_nat (length dayBlocks) = Z.abs (b - a) + 1
  /\ Forall (fun x => projectId x = p) dayBlocks.

End Engine.

(** ** Concrete runs *)

(** The start-date strings play no role in the properties below; the runs
    leave them empty. *)
Definition noDateString : Date -> string := fun _ => ""%string.

(** A zone with daylight saving: one hour ahead of UTC, two hours between
    29 March 2026 02:00 and 25 October 2026 03:00 local time. *)
Definition dstTZA (t : Z) : Z :=
  if decide (localTime (mkDate 2026 87 7200000) <= t
             /\ t < localTime (mkDate 2026 297 10800000))
  then 7200000 else 3600000.

(** Wednesday 11 February 2026. *)
Definition now0 : Date := mkDate 2026 41 5000.

Definition run0 : State :=
  initState utc noDateString defaultAppData now0 (moduleInit now0).
Definition run1 : State := (addProject "Alpha" (Q2Qc 10) High run0).2.
Definition run2 : State := (addProject "Beta" (Q2Qc 8) Medium run1).2.
Definition run3 : State := (addTimeBlocks utc noDateString 0%nat Monday 0 11 run2).2.
Definition run4 : State := navigateWeek utc noDateString 1 run3.
Definition run5 : State := (addTimeBlocks utc noDateString 0%nat Tuesday 9 0 run4).2.

(** A week in which project 1 holds Monday's slot 5. *)
Definition run2b : State := (addTimeBlock utc noDateString 1%nat Monday 5 run2).2.

(** Both projects hold a slot of the week, the week is saved as a
    template (identifier 4), then project 1 is deleted. *)
Definition runT0 : State := (addTimeBlock utc noDateString 0%nat Monday 0 run2).2.
Definition runT1 : State := (addTimeBlock utc noDateString 1%nat Monday 1 runT0).2.
Definition runT2 : State := (saveCurrentWeekAsTemplate utc noDateString "Both" runT1).2.
Definition runT3 : State := deleteProject 1%nat runT2.

(** Monday's slot 3 is given to project 7, which is not in the registry. *)
Definition runOrphan : State := (addTimeBlock utc noDateString 7%nat Monday 3 run2).2.

(** A third project with a target of 20 hours logs the first 23 slots of
    Monday, that is 11.5 hours. *)
Definition runP0 : State := (addProject "Gamma" (Q2Qc 20) Low run2).2.
Definition runP : State := (addTimeBlocks utc noDateString 2%nat Monday 0 22 runP0).2.

(** A third project with a target of 0.1 hours; project 0 logs one slot
    in each of three successive weeks, and the fourth week is selected. *)
Definition runC0 : State := (addProject "Tenth" (Number_literal (1 # 10)) Low run2).2.
Definition runC1 : State := (addTimeBlock utc noDateString 0%nat Monday 0 runC0).2.
Definition runC2 : State := navigateWeek utc noDateString 1 runC1.
Definition runC3 : State := (addTimeBlock utc noDateString 0%nat Monday 0 runC2).2.
Definition runC4 : State := navigateWeek utc noDateString 1 runC3.
Definition runC5 : State := (addTimeBlock utc noDateString 0%nat Monday 0 runC4).2.
Definition runC6 : State := navigateWeek utc noDateString 1 runC5.

(** * Properties *)

(** ** Calendar geometry *)

Lemma ceilDiv_mono (x y : Z) : x <= y -> ceilDiv x 7 <= ceilDiv y 7.
Proof.
  intros Hxy. unfold ceilDiv.
  assert ((- y) / 7 <= (- x) / 7) by (apply Z.div_le_mono; lia). lia.
Qed.

Lemma ceilDiv_range (x : Z) : 0 <= x <= 378 -> 0 <= ceilDiv x 7 <= 54.
Proof.
  intros Hx. unfold ceilDiv.
  assert (-54 <= (- x) / 7) by (apply Z.div_le_lower_bound; lia).
  assert ((- x) / 7 <= 0) by (apply Z.div_le_upper_bound; lia). lia.
Qed.

Lemma String_compare_refl (s : string) : String.compare s s = Eq.
Proof.
  induction s as [|c s IH]; simpl; [done|].
  unfold Ascii.compare. by rewrite N.compare_refl.
Qed.

Lemma String_compare_app (p a b : string) :
  String.compare (String.app p a) (String.app p b) = String.compare a b.
Proof.
  induction p as [|c p IH]; simpl; [done|].
  unfold Ascii.compare. by rewrite N.compare_refl.
Qed.

Lemma String_le_app (p a b : string) :
  String.le a b -> String.le (String.app p a) (String.app p b).
Proof. unfold String.le, String.leb. by rewrite String_compare_app. Qed.

(** The week numbers that can occur, printed with two digits, are ordered
    as strings the way they are ordered as numbers. *)
Lemma weekLabel_table :
  forallb (fun a => forallb (fun b => implb (a <=? b)
                                        (String.leb (weekLabel a) (weekLabel b)))
                      (seqZ 0 55)) (seqZ 0 55) = true.
Proof. vm_compute. reflexivity. Qed.

Lemma weekLabel_mono (a b : Z) :
  0 <= a -> a <= b -> b <= 54 -> String.le (weekLabel a) (weekLabel b).
Proof.
  intros Ha Hab Hb.
  pose proof weekLabel_table as T. apply Is_true_true_2 in T.
  rewrite forallb_True, Forall_forall in T.
  specialize (T a). rewrite elem_of_seqZ in T.
  specialize (T ltac:(lia)).
  rewrite forallb_True, Forall_forall in T.
  specialize (T b). rewrite elem_of_seqZ in T.
  specialize (T ltac:(lia)).
  unfold String.le. destruct (a <=? b) eqn:E; [exact T | lia].
Qed.

(** ** Rounding to the nearest double *)

Lemma pow2_pos (z : Z) : (0 < pow2 z)%Q.
Proof. apply Qpower_0_lt. reflexivity. Qed.

Lemma pow2_add (a b : Z) : (pow2 (a + b) == pow2 a * pow2 b)%Q.
Proof. apply Qpower_plus. discriminate. Qed.

Lemma pow2_le (a b : Z) : a <= b -> (pow2 a <= pow2 b)%Q.
Proof. intros H. apply Qpower_le_compat_l; [done|]. discriminate. Qed.

Lemma pow2_Z (n : Z) : 0 <= n -> (pow2 n == inject_Z (2 ^ n))%Q.
Proof. intros H. unfold pow2. by rewrite Zpower_Qpower. Qed.

Lemma pow2_succ (a : Z) : (pow2 (a + 1) == 2 * pow2 a)%Q.
Proof. rewrite pow2_add. change (pow2 1) with 2%Q. ring. Qed.

(** [ilog2 q] is the binary exponent of [q]. *)
Lemma ilog2_spec (q : Q) :
  (0 < q)%Q -> (pow2 (ilog2 q) <= q)%Q /\ (q < pow2 (ilog2 q + 1))%Q.
Proof.
  intros Hq. destruct q as [a b]. unfold ilog2. cbn [Qnum Qden].
  assert (0 < a) as Ha.
  { unfold Qlt in Hq. cbn in Hq. lia. }
  set (la := Z.log2 a). set (lb := Z.log2 (Z.pos b)).
  destruct (Z.log2_spec a Ha) as [Ha1 Ha2]. fold la in Ha1, Ha2.
  destruct (Z.log2_spec (Z.pos b) ltac:(done)) as [Hb1 Hb2]. fold lb in Hb1, Hb2.
  assert (0 <= la) as Hla by apply Z.log2_nonneg.
  assert (0 <= lb) as Hlb by apply Z.log2_nonneg.
  assert (inject_Z a <= 2 * inject_Z (2 ^ la))%Q as Qa2.
  { rewrite <- (inject_Z_mult 2). rewrite <- Zle_Qle.
    replace (Z.succ la) with (la + 1) in Ha2 by lia. rewrite Z.pow_add_r in Ha2 by lia. lia. }
  assert (inject_Z (2 ^ la) <= inject_Z a)%Q as Qa1 by by rewrite <- Zle_Qle.
  assert (inject_Z (Z.pos b) <= 2 * inject_Z (2 ^ lb))%Q as Qb2.
  { rewrite <- (inject_Z_mult 2). rewrite <- Zle_Qle.
    replace (Z.succ lb) with (lb + 1) in Hb2 by lia. rewrite Z.pow_add_r in Hb2 by lia. lia. }
  assert (inject_Z (2 ^ lb) <= inject_Z (Z.pos b))%Q as Qb1 by by rewrite <- Zle_Qle.
  assert (inject_Z a < 2 * inject_Z (2 ^ la))%Q as Qa2'.
  { rewrite <- (inject_Z_mult 2). rewrite <- Zlt_Qlt.
    replace (Z.succ la) with (la + 1) in Ha2 by lia. rewrite Z.pow_add_r in Ha2 by lia. lia. }
  assert (0 < inject_Z (2 ^ la))%Q as Pa by (rewrite <- pow2_Z by done; apply pow2_pos).
  assert (0 < inject_Z (2 ^ lb))%Q as Pb by (rewrite <- pow2_Z by done; apply pow2_pos).
  assert (0 < inject_Z (Z.pos b))%Q as Pb' by (by rewrite <- (Zlt_Qlt 0)).
  assert (pow2 (la - lb) == inject_Z (2 ^ la) / inject_Z (2 ^ lb))%Q as Hk.
  { unfold pow2. rewrite Qpower_minus by discriminate.
    fold (pow2 la). fold (pow2 lb). by rewrite !pow2_Z by done. }
  assert (a # b == inject_Z a / inject_Z (Z.pos b))%Q as Hq' by apply Qmake_Qdiv.
  set (x := inject_Z a) in *. set (y := inject_Z (Z.pos b)) in *.
  set (A := inject_Z (2 ^ la)) in *. set (B := inject_Z (2 ^ lb)) in *.
  assert (B * / B == 1)%Q as HB by (apply Qmult_inv_r; lra).
  assert (y * / y == 1)%Q as Hy by (apply Qmult_inv_r; lra).
  assert (0 < / B)%Q as PB by (apply Qinv_lt_0_compat; lra).
  assert (0 < / y)%Q as Py by (apply Qinv_lt_0_compat; lra).
  assert (a # b < pow2 (la - lb + 1))%Q as Hup.
  { rewrite pow2_succ, Hk, Hq'. unfold Qdiv.
    assert (/ y <= / B)%Q by nra.
    nra. }
  assert (pow2 (la - lb - 1) <= a # b)%Q as Hlow.
  { assert (pow2 (la - lb) == 2 * pow2 (la - lb - 1))%Q as Hs.
    { rewrite <- pow2_succ. by replace (la - lb - 1 + 1) with (la - lb) by lia. }
    assert (pow2 (la - lb) <= 2 * (a # b))%Q; [|lra].
    rewrite Hk, Hq'. unfold Qdiv.
    assert (/ B <= 2 * / y)%Q by nra.
    nra. }
  destruct (Qle_bool _ _) eqn:E.
  - apply Qle_bool_iff in E. done.
  - split; [done|]. replace (la - lb - 1 + 1) with (la - lb) by lia.
    apply Qnot_le_lt. intros Hle. apply Qle_bool_iff in Hle. congruence.
Qed.

Lemma ilog2_mono (q1 q2 : Q) : (0 < q1)%Q -> (q1 <= q2)%Q -> ilog2 q1 <= ilog2 q2.
Proof.
  intros H1 H12.
  destruct (ilog2_spec q1 H1) as [L1 _].
  destruct (ilog2_spec q2 ltac:(lra)) as [_ U2].
  destruct (Z.le_gt_cases (ilog2 q1) (ilog2 q2)) as [|Hgt]; [done|].
  pose proof (pow2_le (ilog2 q2 + 1) (ilog2 q1) ltac:(lia)). lra.
Qed.

(** Rounding to an integer, ties to even. *)
Lemma roundEven_floor (x : Q) : Qfloor x <= roundEven x <= Qfloor x + 1.
Proof. unfold roundEven. repeat case_match; lia. Qed.

Lemma roundEven_error (x : Q) :
  (x - (1 # 2) <= inject_Z (roundEven x))%Q /\ (inject_Z (roundEven x) <= x + (1 # 2))%Q.
Proof.
  unfold roundEven. pose proof (Qfloor_le x). pose proof (Qlt_floor x) as Hlt.
  rewrite inject_Z_plus in Hlt. change (inject_Z 1) with 1%Q in Hlt.
  destruct (Qcompare_spec (x - inject_Z (Qfloor x)) (1 # 2)) as [E|E|E].
  - destruct (Z.even _); rewrite ?inject_Z_plus; change (inject_Z 1) with 1%Q; lra.
  - lra.
  - rewrite inject_Z_plus. change (inject_Z 1) with 1%Q. lra.
Qed.

Lemma roundEven_Z (k : Z) : roundEven (inject_Z k) = k.
Proof.
  unfold roundEven. rewrite Qfloor_Z.
  destruct (Qcompare_spec (inject_Z k - inject_Z k) (1 # 2)) as [E|E|E]; [lra|done|lra].
Qed.

Lemma roundEven_ge (x : Q) (k : Z) : (inject_Z k <= x)%Q -> k <= roundEven x.
Proof.
  intros H. apply Qfloor_resp_le in H. rewrite Qfloor_Z in H.
  pose proof (roundEven_floor x). lia.
Qed.

Lemma roundEven_le (x : Q) (k : Z) : (x <= inject_Z k)%Q -> roundEven x <= k.
Proof.
  intros H. pose proof (Qfloor_resp_le _ _ H) as Hf. rewrite Qfloor_Z in Hf.
  destruct (Z.eq_dec (Qfloor x) k) as [Heq|Hne].
  - unfold roundEven. pose proof (Qfloor_le x). rewrite Heq in *.
    destruct (Qcompare_spec (x - inject_Z k) (1 # 2)) as [E|E|E]; [lra|lia|lra].
  - pose proof (roundEven_floor x). lia.
Qed.

Lemma roundEven_mono (x y : Q) : (x <= y)%Q -> roundEven x <= roundEven y.
Proof.
  intros Hxy. pose proof (Qfloor_resp_le _ _ Hxy) as Hf.
  pose proof (roundEven_floor x). pose proof (roundEven_floor y).
  destruct (Z.eq_dec (Qfloor x) (Qfloor y)) as [Heq|Hne]; [|lia].
  unfold roundEven. rewrite Heq.
  destruct (Qcompare_spec (x - inject_Z (Qfloor y)) (1 # 2)) as [E|E|E];
    destruct (Qcompare_spec (y - inject_Z (Qfloor y)) (1 # 2)) as [F|F|F];
    try destruct (Z.even _); try lia; lra.
Qed.

(** Rounding a positive rational to 53 significant bits. *)
Lemma ulpExp_pow2 (q : Q) :
  (0 < q)%Q ->
  let E := Z.max (ilog2 q) (-1022) in
  (q / pow2 (ulpExp q) < inject_Z (2 ^ 53))%Q
  /\ (-1022 <= ilog2 q -> (inject_Z (2 ^ 52) <= q / pow2 (ulpExp q))%Q).
Proof.
  intros Hq E. destruct (ilog2_spec q Hq) as [L U].
  unfold ulpExp. fold E. pose proof (pow2_pos (E - 52)) as Pp.
  split.
  - apply Qlt_shift_div_r; [done|].
    rewrite <- pow2_Z by done. rewrite <- pow2_add.
    pose proof (pow2_le (ilog2 q + 1) (53 + (E - 52)) ltac:(lia)). lra.
  - intros He. apply Qle_shift_div_l; [done|].
    rewrite <- pow2_Z by done. rewrite <- pow2_add.
    pose proof (pow2_le (52 + (E - 52)) (ilog2 q) ltac:(lia)). lra.
Qed.

Lemma roundPos_nonneg (q : Q) : (0 < q)%Q -> (0 <= roundPos q)%Q.
Proof.
  intros Hq. unfold roundPos. pose proof (pow2_pos (ulpExp q)).
  assert (0 <= roundEven (q / pow2 (ulpExp q))) as Hn.
  { apply roundEven_ge. apply Qle_shift_div_l; [done|]. change (inject_Z 0) with 0%Q. lra. }
  rewrite Zle_Qle in Hn. change (inject_Z 0) with 0%Q in Hn. nra.
Qed.

Lemma roundPos_upper (q : Q) :
  (0 < q)%Q -> (roundPos q <= pow2 (Z.max (ilog2 q) (-1022) + 1))%Q.
Proof.
  intros Hq. destruct (ulpExp_pow2 q Hq) as [Hu _].
  unfold roundPos. pose proof (pow2_pos (ulpExp q)) as Pp.
  assert (roundEven (q / pow2 (ulpExp q)) <= 2 ^ 53) as Hn.
  { apply roundEven_le. lra. }
  rewrite Zle_Qle in Hn. change (inject_Z 0) with 0%Q in Hn. rewrite <- pow2_Z in Hn by done.
  replace (Z.max (ilog2 q) (-1022) + 1) with (53 + ulpExp q) by (unfold ulpExp; lia).
  rewrite pow2_add. nra.
Qed.

Lemma roundPos_lower (q : Q) :
  (0 < q)%Q -> -1022 <= ilog2 q -> (pow2 (ilog2 q) <= roundPos q)%Q.
Proof.
  intros Hq He. destruct (ulpExp_pow2 q Hq) as [_ Hl]. specialize (Hl He).
  unfold roundPos. pose proof (pow2_pos (ulpExp q)) as Pp.
  assert (2 ^ 52 <= roundEven (q / pow2 (ulpExp q))) as Hn.
  { by apply roundEven_ge. }
  rewrite Zle_Qle in Hn. change (inject_Z 0) with 0%Q in Hn. rewrite <- pow2_Z in Hn by done.
  replace (ilog2 q) with (52 + ulpExp q) at 1 by (unfold ulpExp; lia).
  rewrite pow2_add. nra.
Qed.

Lemma roundPos_mono (q1 q2 : Q) :
  (0 < q1)%Q -> (q1 <= q2)%Q -> (roundPos q1 <= roundPos q2)%Q.
Proof.
  intros H1 H12. assert (0 < q2)%Q as H2 by lra.
  pose proof (ilog2_mono q1 q2 H1 H12) as He.
  destruct (Z.eq_dec (ulpExp q1) (ulpExp q2)) as [Heq|Hne].
  - unfold roundPos. rewrite Heq. pose proof (pow2_pos (ulpExp q2)) as Pp.
    assert (roundEven (q1 / pow2 (ulpExp q2)) <= roundEven (q2 / pow2 (ulpExp q2))) as Hn.
    { apply roundEven_mono. unfold Qdiv.
      assert (0 < / pow2 (ulpExp q2))%Q by (by apply Qinv_lt_0_compat). nra. }
    rewrite Zle_Qle in Hn. change (inject_Z 0) with 0%Q in Hn. nra.
  - assert (Z.max (ilog2 q1) (-1022) + 1 <= ilog2 q2 /\ -1022 <= ilog2 q2) as [Hlt Hn2].
    { unfold ulpExp in Hne. lia. }
    pose proof (roundPos_upper q1 H1). pose proof (roundPos_lower q2 H2 Hn2).
    pose proof (pow2_le _ _ Hlt). lra.
Qed.

(** The rounding error is at most half a unit in the last place. *)
Lemma roundPos_error (q : Q) :
  (0 < q)%Q ->
  (q - (1 # 2) * pow2 (ulpExp q) <= roundPos q)%Q
  /\ (roundPos q <= q + (1 # 2) * pow2 (ulpExp q))%Q.
Proof.
  intros Hq. unfold roundPos. pose proof (pow2_pos (ulpExp q)) as Pp.
  set (p := pow2 (ulpExp q)) in *.
  destruct (roundEven_error (q / p)) as [L U].
  assert (q / p * p == q)%Q as Hqp by (field; lra).
  set (y := (q / p)%Q) in *. set (n := inject_Z (roundEven y)) in *.
  assert (0 <= (n - (y - (1 # 2))) * p)%Q by (apply Qmult_le_0_compat; lra).
  assert (0 <= (y + (1 # 2) - n) * p)%Q by (apply Qmult_le_0_compat; lra).
  clearbody n y p. split; lra.
Qed.

(** Rounding a rational of any sign. *)
Lemma roundDoubleQ_pos (q : Q) : (0 < q)%Q -> roundDoubleQ q = roundPos q.
Proof.
  intros Hq. unfold roundDoubleQ. destruct q as [[|a|a] b]; [|done|]; by vm_compute in Hq.
Qed.

Lemma roundDoubleQ_neg (q : Q) : (q < 0)%Q -> roundDoubleQ q = (- roundPos (- q))%Q.
Proof.
  intros Hq. unfold roundDoubleQ. destruct q as [[|a|a] b]; [| |done]; by vm_compute in Hq.
Qed.

Lemma roundDoubleQ_zero (q : Q) : (q == 0)%Q -> roundDoubleQ q = 0%Q.
Proof.
  intros Hq. unfold roundDoubleQ. destruct q as [[|a|a] b]; [done| |]; by vm_compute in Hq.
Qed.

Lemma roundDoubleQ_nonneg (q : Q) : (0 <= q)%Q -> (0 <= roundDoubleQ q)%Q.
Proof.
  intros Hq. destruct (Qlt_le_dec 0 q) as [Hpos|Hle].
  - rewrite roundDoubleQ_pos by done. by apply roundPos_nonneg.
  - rewrite roundDoubleQ_zero by lra. lra.
Qed.

Lemma roundDoubleQ_nonpos (q : Q) : (q <= 0)%Q -> (roundDoubleQ q <= 0)%Q.
Proof.
  intros Hq. destruct (Qlt_le_dec q 0) as [Hneg|Hle].
  - rewrite roundDoubleQ_neg by done.
    pose proof (roundPos_nonneg (- q) ltac:(lra)). lra.
  - rewrite roundDoubleQ_zero by lra. lra.
Qed.

Lemma roundDoubleQ_mono (q1 q2 : Q) :
  (q1 <= q2)%Q -> (roundDoubleQ q1 <= roundDoubleQ q2)%Q.
Proof.
  intros H12. destruct (Qlt_le_dec 0 q1) as [P1|N1].
  - rewrite !roundDoubleQ_pos by lra. by apply roundPos_mono.
  - destruct (Qlt_le_dec 0 q2) as [P2|N2].
    + pose proof (roundDoubleQ_nonpos q1 N1). pose proof (roundDoubleQ_nonneg q2 ltac:(lra)). lra.
    + destruct (Qlt_le_dec q2 0) as [N2'|Z2].
      * rewrite !roundDoubleQ_neg by lra.
        pose proof (roundPos_mono (- q2) (- q1) ltac:(lra) ltac:(lra)). lra.
      * rewrite (roundDoubleQ_zero q2) by lra. by apply roundDoubleQ_nonpos.
Qed.

(** A coarse form of the error bound: the relative error of a double is
    below 2^-53 and the absolute error near zero below 2^-1075. *)
Lemma roundPos_coarse (q : Q) :
  (0 < q)%Q ->
  ((63 # 64) * q - (1 # 8) <= roundPos q)%Q /\ (roundPos q <= (65 # 64) * q + (1 # 8))%Q.
Proof.
  intros Hq. destruct (roundPos_error q Hq) as [L U].
  destruct (ilog2_spec q Hq) as [Le _].
  assert ((1 # 2) * pow2 (ulpExp q) <= (1 # 64) * q + (1 # 8))%Q as Hb; [|lra].
  unfold ulpExp. destruct (Z.max_spec (ilog2 q) (-1022)) as [[_ ->]|[_ ->]].
  - assert (pow2 (-1022 - 52) <= 1 # 4)%Q by (by vm_compute). lra.
  - replace (ilog2 q - 52) with (ilog2 q + -52) by lia. rewrite pow2_add.
    assert (pow2 (-52) <= 1 # 32)%Q by (by vm_compute).
    pose proof (pow2_pos (ilog2 q)). nra.
Qed.

Lemma roundEven_nearest (y : Q) :
  let n := inject_Z (roundEven y) in
  let f := inject_Z (Qfloor y) in
  ((n == f \/ n == f + 1) /\ Qabs (n - y) <= y - f /\ Qabs (n - y) <= f + 1 - y)%Q.
Proof.
  cbn zeta. unfold roundEven.
  pose proof (Qfloor_le y) as L. pose proof (Qlt_floor y) as U.
  rewrite inject_Z_plus in U. change (inject_Z 1) with 1%Q in U.
  assert (inject_Z (Qfloor y + 1) == inject_Z (Qfloor y) + 1)%Q as Hf1.
  { rewrite inject_Z_plus. reflexivity. }
  destruct (Qcompare_spec (y - inject_Z (Qfloor y)) (1 # 2)) as [E|E|E];
    [destruct (Z.even _)| |]; rewrite ?Hf1;
    (split; [(left; reflexivity) || (right; reflexivity)|]);
    split; apply Qabs_case; intros; lra.
Qed.

(** No double lies strictly between two neighbours of the grid of [q]. *)
Lemma no_double_between (q d : Q) :
  (0 < q)%Q -> isDouble d ->
  let P := pow2 (ulpExp q) in
  let f := inject_Z (Qfloor (q / P)) in
  (d <= f * P \/ (f + 1) * P <= d)%Q.
Proof.
  intros Hq (m & k & Hm & Hk & Hd) P f.
  destruct (Qlt_le_dec (f * P) d) as [Hlo|]; [|by left].
  destruct (Qlt_le_dec d ((f + 1) * P)) as [Hhi|]; [|by right].
  exfalso.
  pose proof (pow2_pos (ulpExp q)) as PP. fold P in PP.
  assert (0 <= Qfloor (q / P)) as Hf0.
  { change 0 with (Qfloor 0). apply Qfloor_resp_le. apply Qle_shift_div_l; [done|]. lra. }
  assert (0 <= f)%Q as Hf0' by (subst f; by rewrite <- (Zle_Qle 0)).
  destruct (Z.le_gt_cases (ulpExp q) k) as [Hkp|Hkp].
  - (* d is a multiple of P *)
    assert (d == inject_Z (m * 2 ^ (k - ulpExp q)) * P)%Q as HdP.
    { rewrite Hd, inject_Z_mult, <- pow2_Z by lia. subst P.
      rewrite <- Qmult_assoc, <- pow2_add. by replace (k - ulpExp q + ulpExp q) with k by lia. }
    set (M := m * 2 ^ (k - ulpExp q)) in *.
    rewrite HdP in Hlo, Hhi.
    assert (f < inject_Z M)%Q as H1 by nra.
    assert (inject_Z M < f + 1)%Q as H2 by nra.
    subst f. change 1%Q with (inject_Z 1) in H2. rewrite <- inject_Z_plus in H2.
    rewrite <- Zlt_Qlt in H1, H2. lia.
  - (* finer than the grid: the significand would need more than 53 bits *)
    assert (-1022 <= ilog2 q) as He by (unfold ulpExp in Hkp; lia).
    destruct (ulpExp_pow2 q Hq) as [_ Hy]. specialize (Hy He). fold P in Hy.
    assert (inject_Z (2 ^ 52) <= f)%Q as Hf52.
    { subst f. rewrite <- Zle_Qle. apply Qfloor_resp_le in Hy. by rewrite Qfloor_Z in Hy. }
    assert (P == pow2 (ulpExp q - k) * pow2 k)%Q as HP.
    { subst P. rewrite <- pow2_add. by replace (ulpExp q - k + k) with (ulpExp q) by lia. }
    pose proof (pow2_pos k) as Pk.
    pose proof (pow2_le 1 (ulpExp q - k) ltac:(lia)) as H2. change (pow2 1) with 2%Q in H2.
    rewrite Hd, HP in Hlo.
    assert (inject_Z (2 ^ 52) * 2 < inject_Z m)%Q as Hbig.
    { set (A := pow2 (ulpExp q - k)) in *. set (K := pow2 k) in *.
      assert (f * A < inject_Z m)%Q by nra. nra. }
    rewrite <- (inject_Z_mult _ 2), <- Zlt_Qlt in Hbig. lia.
Qed.

Lemma roundPos_nearest (q d : Q) :
  (0 < q)%Q -> isDouble d -> (Qabs (roundPos q - q) <= Qabs (d - q))%Q.
Proof.
  intros Hq Hd. pose proof (no_double_between q d Hq Hd) as Hgrid. cbn zeta in Hgrid.
  unfold roundPos. pose proof (pow2_pos (ulpExp q)) as PP.
  set (P := pow2 (ulpExp q)) in *.
  destruct (roundEven_nearest (q / P)) as (Hn & H1 & H2).
  set (n := inject_Z (roundEven (q / P))) in *.
  set (f := inject_Z (Qfloor (q / P))) in *.
  assert (q / P * P == q)%Q as Hqp by (field; lra).
  set (y := (q / P)%Q) in *.
  assert (Qabs (n * P - q) == Qabs (n - y) * P)%Q as Habs.
  { rewrite <- (Qabs_pos P) at 2 by lra. rewrite <- Qabs_Qmult.
    apply Qabs_wd. rewrite <- Hqp. ring. }
  rewrite Habs.
  assert (Qabs (n - y) * P <= (y - f) * P)%Q as B1 by (apply Qmult_le_compat_r; lra).
  assert (Qabs (n - y) * P <= (f + 1 - y) * P)%Q as B2 by (apply Qmult_le_compat_r; lra).
  clearbody n f y P.
  destruct Hgrid as [Hlo|Hhi]; apply (Qabs_case (d - q)); intros; nra.
Qed.

Lemma isDouble_opp (d : Q) : isDouble d -> isDouble (- d).
Proof.
  intros (m & e & Hm & He & Hd). exists (- m), e. split_and!; [lia|done|].
  rewrite Hd, inject_Z_opp. ring.
Qed.

Lemma roundPos_isDouble (q : Q) : (0 < q)%Q -> isDouble (roundPos q).
Proof.
  intros Hq. unfold roundPos.
  destruct (ulpExp_pow2 q Hq) as [Hu _].
  pose proof (pow2_pos (ulpExp q)) as PP.
  assert (0 <= roundEven (q / pow2 (ulpExp q)) <= 2 ^ 53) as [Hn0 Hn].
  { split.
    - apply roundEven_ge. apply Qle_shift_div_l; [done|]. change (inject_Z 0) with 0%Q. lra.
    - apply roundEven_le. lra. }
  destruct (Z.eq_dec (roundEven (q / pow2 (ulpExp q))) (2 ^ 53)) as [Heq|Hne].
  - exists (2 ^ 52), (ulpExp q + 1). split_and!; [lia|unfold ulpExp; lia|].
    rewrite Heq, pow2_succ. change (2 ^ 53) with (2 ^ 52 * 2). rewrite inject_Z_mult. ring.
  - exists (roundEven (q / pow2 (ulpExp q))), (ulpExp q).
    split_and!; [lia|unfold ulpExp; lia|reflexivity].
Qed.

(** [roundDoubleQ] is the rounding to nearest of IEEE 754: the result is
    a double, and no double is nearer to the exact value. *)
Lemma roundDoubleQ_isDouble (q : Q) : isDouble (roundDoubleQ q).
Proof.
  destruct (Qlt_le_dec 0 q) as [Hpos|Hle].
  - rewrite roundDoubleQ_pos by done. by apply roundPos_isDouble.
  - destruct (Qlt_le_dec q 0) as [Hneg|Hz].
    + rewrite roundDoubleQ_neg by done. apply isDouble_opp, roundPos_isDouble. lra.
    + rewrite roundDoubleQ_zero by lra. exists 0, 0. split_and!; [done|done|reflexivity].
Qed.

Lemma roundDoubleQ_nearest (q d : Q) :
  isDouble d -> (Qabs (roundDoubleQ q - q) <= Qabs (d - q))%Q.
Proof.
  intros Hd. destruct (Qlt_le_dec 0 q) as [Hpos|Hle].
  - rewrite roundDoubleQ_pos by done. by apply roundPos_nearest.
  - destruct (Qlt_le_dec q 0) as [Hneg|Hz].
    + rewrite roundDoubleQ_neg by done.
      pose proof (roundPos_nearest (- q) (- d) ltac:(lra) (isDouble_opp d Hd)) as H.
      assert (Qabs (- roundPos (- q) - q) == Qabs (roundPos (- q) - - q))%Q as ->.
      { rewrite <- Qabs_opp. apply Qabs_wd. ring. }
      assert (Qabs (d - q) == Qabs (- d - - q))%Q as ->.
      { rewrite <- Qabs_opp. apply Qabs_wd. ring. }
      done.
    + rewrite roundDoubleQ_zero by lra.
      assert (Qabs (0 - q) == 0)%Q as -> by (apply Qabs_case; intros; lra).
      apply Qabs_nonneg.
Qed.

(** The same facts for the canonical rationals of the engine. *)
Lemma this_Q2Qc (q : Q) : (Q2Qc q == q)%Q.
Proof. apply Qred_correct. Qed.

Lemma this_Qcplus (a b : Qc) : ((a + b)%Qc == a + b)%Q.
Proof. apply Qred_correct. Qed.

Lemma this_Qcopp (a : Qc) : ((- a)%Qc == - a)%Q.
Proof. apply Qred_correct. Qed.

Lemma this_Qcminus (a b : Qc) : ((a - b)%Qc == a - b)%Q.
Proof. unfold Qcminus. rewrite this_Qcplus, this_Qcopp. reflexivity. Qed.

Lemma this_Qcmult (a b : Qc) : ((a * b)%Qc == a * b)%Q.
Proof. apply Qred_correct. Qed.

Lemma this_roundDouble (x : Qc) : (roundDouble x == roundDoubleQ x)%Q.
Proof. apply Qred_correct. Qed.

Lemma roundDouble_nearest (x : Qc) : nearestDouble x (roundDouble x).
Proof.
  split.
  - destruct (roundDoubleQ_isDouble x) as (m & e & Hm & He & Hd).
    exists m, e. split_and!; [done|done|]. by rewrite this_roundDouble.
  - intros d' Hd'. rewrite this_roundDouble. by apply roundDoubleQ_nearest.
Qed.

Lemma roundDouble_nonneg (x : Qc) : (Q2Qc 0 <= x)%Qc -> (Q2Qc 0 <= roundDouble x)%Qc.
Proof.
  unfold Qcle. rewrite this_roundDouble. cbn [this Q2Qc]. intros H.
  change (this (Q2Qc 0)) with 0%Q in *. by apply roundDoubleQ_nonneg.
Qed.

Lemma roundDouble_nonpos (x : Qc) : (x <= Q2Qc 0)%Qc -> (roundDouble x <= Q2Qc 0)%Qc.
Proof.
  unfold Qcle. rewrite this_roundDouble. intros H.
  change (this (Q2Qc 0)) with 0%Q in *. by apply roundDoubleQ_nonpos.
Qed.

Lemma roundDouble_mono (x y : Qc) : (x <= y)%Qc -> (roundDouble x <= roundDouble y)%Qc.
Proof. unfold Qcle. rewrite !this_roundDouble. apply roundDoubleQ_mono. Qed.

Lemma roundDouble_coarse (x : Qc) :
  (0 < x)%Q ->
  ((63 # 64) * x - (1 # 8) <= roundDouble x)%Q /\ (roundDouble x <= (65 # 64) * x + (1 # 8))%Q.
Proof.
  intros Hx. rewrite this_roundDouble, roundDoubleQ_pos by done. by apply roundPos_coarse.
Qed.

Lemma Math_max_lower (a b : Qc) : (a <= Math_max a b)%Qc.
Proof.
  unfold Math_max. destruct (decide _); [by apply Qclt_le_weak|apply Qcle_refl].
Qed.

Lemma Math_max_upper (a b : Qc) : (b <= Math_max a b)%Qc.
Proof.
  unfold Math_max. destruct (decide _); [apply Qcle_refl|by apply Qcnot_lt_le].
Qed.

(** The tolerance of the standing, [Math.max(0.5, target * 0.10)], is wide
    enough to survive the rounding of [target + tolerance] and of
    [target - tolerance]. *)
Lemma tolerance_around_target (t : Qc) :
  let tol := Math_max (Q2Qc (1 # 2)) (Number_mul t (Number_literal (1 # 10))) in
  (Q2Qc 0 < t)%Qc ->
  (t <= Number_add t tol)%Qc /\ (Number_sub t tol <= t)%Qc.
Proof.
  intros tol Ht.
  pose proof (Math_max_lower (Q2Qc (1 # 2)) (Number_mul t (Number_literal (1 # 10)))) as L1.
  pose proof (Math_max_upper (Q2Qc (1 # 2)) (Number_mul t (Number_literal (1 # 10)))) as L2.
  fold tol in L1, L2. unfold Number_mul in L2.
  set (c := Number_literal (1 # 10)) in *.
  assert ((1 # 11) <= c)%Q as Hc by (by vm_compute).
  unfold Qcle, Qclt in *. change (this (Q2Qc 0)) with 0%Q in Ht.
  change (this (Q2Qc (1 # 2))) with (1 # 2)%Q in L1.
  assert (0 < (t * c)%Qc)%Q as Hp by (rewrite this_Qcmult; nra).
  destruct (roundDouble_coarse (t * c)%Qc Hp) as [Lp _]. rewrite this_Qcmult in Lp.
  assert ((1 # 11) * t <= t * c)%Q as Hprod by nra.
  set (P := (t * c)%Q) in *. clearbody P.
  split.
  - unfold Number_add.
    assert (0 < (t + tol)%Qc)%Q as Hx by (rewrite this_Qcplus; lra).
    destruct (roundDouble_coarse (t + tol)%Qc Hx) as [Lx _]. rewrite this_Qcplus in Lx.
    lra.
  - unfold Number_sub.
    destruct (Qlt_le_dec 0 (t - tol)%Qc) as [Hx|Hx].
    + destruct (roundDouble_coarse (t - tol)%Qc Hx) as [_ Ux]. rewrite this_Qcminus in Ux.
      lra.
    + pose proof (roundDouble_nonpos (t - tol)%Qc Hx) as Hn.
      unfold Qcle in Hn. change (this (Q2Qc 0)) with 0%Q in Hn. lra.
Qed.

(** ** More calendar geometry *)

Lemma DayFromYear_succ (y : Z) : DayFromYear (y + 1) = DayFromYear y + DaysInYear y.
Proof.
  unfold DayFromYear, DaysInYear, isLeapYear.
  destruct (y mod 4 =? 0) eqn:E4, (y mod 100 =? 0) eqn:E100, (y mod 400 =? 0) eqn:E400;
    cbn [andb orb negb]; Z.div_mod_to_equations; lia.
Qed.

Lemma DaysInYear_range (y : Z) : 365 <= DaysInYear y <= 366.
Proof. unfold DaysInYear. destruct (isLeapYear y); lia. Qed.

(** [addDays] moves the local day by the given offset and stays within
    the calendar, for offsets of up to a year. *)
Lemma addDays_spec (d : Date) (k : Z) :
  validDate d -> -365 <= k <= 365 ->
  validDate (addDays d k)
  /\ localDay (addDays d k) = localDay d + k
  /\ msInDay (addDays d k) = msInDay d.
Proof.
  intros [Hd Hms] Hk. unfold addDays, validDate, localDay.
  pose proof (DaysInYear_range (fullYear d)).
  pose proof (DaysInYear_range (fullYear d - 1)).
  pose proof (DaysInYear_range (fullYear d + 1)).
  pose proof (DayFromYear_succ (fullYear d)).
  pose proof (DayFromYear_succ (fullYear d - 1)) as Hprev.
  replace (fullYear d - 1 + 1) with (fullYear d) in Hprev by lia.
  destruct (dayInYear d + k <? 0) eqn:E1; [|destruct (DaysInYear (fullYear d) <=? _) eqn:E2];
    cbn [fullYear dayInYear msInDay]; lia.
Qed.

(** The offset that [getMonday] applies leads back to a Monday within
    the last six days. *)
Lemma getMonday_diff (date : Date) :
  let diff := - getDay date + (if getDay date =? 0 then -6 else 1) in
  -6 <= diff <= 0 /\ (localDay date + diff + 4) mod 7 = 1.
Proof.
  cbn zeta. unfold getDay.
  destruct (_ =? 0) eqn:E; Z.div_mod_to_equations; lia.
Qed.

Lemma getMonday_is_monday (date : Date) :
  validDate date ->
  validDate (getMonday date) /\ getDay (getMonday date) = 1
  /\ msInDay (getMonday date) = 0.
Proof.
  intros Hv. unfold getMonday.
  destruct (getMonday_diff date) as [Hdiff Hmod]. cbn zeta in *.
  set (diff := - getDay date + (if getDay date =? 0 then -6 else 1)) in *.
  destruct (addDays_spec date diff Hv ltac:(lia)) as ([Hd Hms] & Hl & _).
  unfold validDate, getDay, localDay, setMidnight in *.
  cbn [fullYear dayInYear msInDay]. split_and!; try (unfold msPerDay; lia).
  by rewrite Hl.
Qed.

(** [X1] For every date of the calendar, [getMonday] returns a date of the
    calendar that falls on a Monday: the day of the given date or one of
    the six days before it. *)
Theorem getMonday_spec (date : Date) :
  validDate date ->
  let monday := getMonday date in
  validDate monday
  /\ getDay monday = 1
  /\ localDay date - 6 <= localDay monday <= localDay date.
Proof.
  intros Hv monday. subst monday.
  destruct (getMonday_is_monday date Hv) as (Hvm & Hday & Hms).
  split_and!; try done.
  - unfold getMonday. destruct (getMonday_diff date) as [Hdiff _]. cbn zeta in *.
    set (diff := - getDay date + (if getDay date =? 0 then -6 else 1)) in *.
    destruct (addDays_spec date diff Hv ltac:(lia)) as (_ & Hl & _).
    unfold localDay, setMidnight in *. cbn [fullYear dayInYear]. lia.
  - unfold getMonday. destruct (getMonday_diff date) as [Hdiff _]. cbn zeta in *.
    set (diff := - getDay date + (if getDay date =? 0 then -6 else 1)) in *.
    destruct (addDays_spec date diff Hv ltac:(lia)) as (_ & Hl & _).
    unfold localDay, setMidnight in *. cbn [fullYear dayInYear]. lia.
Qed.

Lemma addDays_0 (d : Date) : validDate d -> addDays d 0 = d.
Proof.
  intros [Hd _]. unfold addDays. rewrite Z.add_0_r.
  destruct (dayInYear d <? 0) eqn:E1; [lia|].
  destruct (DaysInYear (fullYear d) <=? dayInYear d) eqn:E2; [lia|]. by destruct d.
Qed.

(** [X2] [getMonday] is idempotent: the Monday of a Monday is that Monday. *)
Theorem getMonday_idempotent (date : Date) :
  validDate date -> getMonday (getMonday date) = getMonday date.
Proof.
  intros Hv. destruct (getMonday_is_monday date Hv) as (Hvm & Hday & Hms).
  set (m := getMonday date) in *. unfold getMonday at 1. rewrite Hday.
  cbn [Z.eqb Z.opp Z.add Pos.eqb]. change (-1 + 1) with 0.
  rewrite addDays_0 by done. unfold setMidnight. destruct m as [y n ms].
  cbn in Hms. by subst ms.
Qed.

(** ** Week keys of Mondays *)

(** Outside the years 0 to 99 the constructor takes the year as it is. *)
Lemma newDateJan1_literal (year : Z) :
  ~ (0 <= year <= 99) -> newDateJan1 year = mkDate year 0 0.
Proof.
  intros Hy. unfold newDateJan1.
  destruct (0 <=? year) eqn:E1, (year <=? 99) eqn:E2; cbn [andb]; try done. lia.
Qed.

Section WeekKeys.

Variable LocalTZA : Z -> Z.

Lemma daysSinceJan1_near (d : Date) :
  (forall t u, Z.abs (LocalTZA t - LocalTZA u) < msPerDay) ->
  ~ (0 <= fullYear d <= 99) ->
  validDate d -> dayInYear d - 1 <= daysSinceJan1 LocalTZA d <= dayInYear d + 1.
Proof.
  intros Htz Hy [Hd Hms]. unfold daysSinceJan1. rewrite newDateJan1_literal by done.
  unfold getTime, localTime, localDay.
  cbn [fullYear dayInYear msInDay].
  set (a := msPerDay * (DayFromYear (fullYear d) + dayInYear d) + msInDay d).
  set (b := msPerDay * (DayFromYear (fullYear d) + 0) + 0).
  pose proof (Htz a b) as Hab.
  assert (a - b = msPerDay * dayInYear d + msInDay d) as Hdiff by (subst a b; lia).
  clearbody a b. unfold msPerDay in *.
  split.
  - apply Z.div_le_lower_bound; lia.
  - apply Z.lt_succ_r, Z.div_lt_upper_bound; lia.
Qed.

(** The week number that [getWeekKey] computes for a Monday, whatever the
    time of day and the daylight saving shift. *)
Lemma weekNum_monday (m : Date) :
  (forall t u, Z.abs (LocalTZA t - LocalTZA u) < msPerDay) ->
  ~ (0 <= fullYear m <= 99) ->
  validDate m -> getDay m = 1 ->
  ceilDiv (daysSinceJan1 LocalTZA m + getDay (newDateJan1 (fullYear m)) + 1) 7
  = (getDay (newDateJan1 (fullYear m)) + dayInYear m + 6) / 7.
Proof.
  intros Htz Hy Hv Hmon. pose proof (daysSinceJan1_near m Htz Hy Hv) as Hnear.
  destruct Hv as [Hd _]. pose proof (DaysInYear_range (fullYear m)).
  rewrite newDateJan1_literal by done.
  unfold getDay, localDay, ceilDiv in *.
  cbn [fullYear dayInYear] in *.
  set (days := daysSinceJan1 LocalTZA m) in *. clearbody days.
  Z.div_mod_to_equations. lia.
Qed.

Lemma weekLabel_table_strict :
  forallb (fun a => forallb (fun b => implb (a <? b)
                                        (String.ltb (weekLabel a) (weekLabel b)))
                      (seqZ 0 55)) (seqZ 0 55) = true.
Proof. vm_compute. reflexivity. Qed.

Lemma weekLabel_strict (a b : Z) :
  0 <= a -> a < b -> b <= 54 -> String.ltb (weekLabel a) (weekLabel b) = true.
Proof.
  intros Ha Hab Hb.
  pose proof weekLabel_table_strict as T. apply Is_true_true_2 in T.
  rewrite forallb_True, Forall_forall in T.
  specialize (T a). rewrite elem_of_seqZ in T.
  specialize (T ltac:(lia)).
  rewrite forallb_True, Forall_forall in T.
  specialize (T b). rewrite elem_of_seqZ in T.
  specialize (T ltac:(lia)).
  destruct (a <? b) eqn:E; [by apply Is_true_true_1|lia].
Qed.

(** [X3] Two different Mondays of the same calendar year have different
    week keys, and the earlier one has the smaller key.  The years 0 to
    99, which [new Date(year, 0, 1)] moves to the twentieth century, are
    excluded. *)
Theorem getWeekKey_distinct_mondays (m1 m2 : Date) :
  (forall t u, Z.abs (LocalTZA t - LocalTZA u) < msPerDay) ->
  ~ (0 <= fullYear m1 <= 99) ->
  validDate m1 -> validDate m2 ->
  getDay m1 = 1 -> getDay m2 = 1 ->
  fullYear m1 = fullYear m2 ->
  dayInYear m1 < dayInYear m2 ->
  String.ltb (getWeekKey LocalTZA m1) (getWeekKey LocalTZA m2) = true
  /\ getWeekKey LocalTZA m1 <> getWeekKey LocalTZA m2.
Proof.
  intros Htz Hc V1 V2 M1 M2 Hy Hlt.
  assert (String.ltb (getWeekKey LocalTZA m1) (getWeekKey LocalTZA m2) = true) as Hltb.
  { unfold getWeekKey.
    pose proof (weekNum_monday m1 Htz Hc V1 M1) as W1.
    pose proof (weekNum_monday m2 Htz ltac:(by rewrite <- Hy) V2 M2) as W2.
    unfold daysSinceJan1 in W1, W2. rewrite W1, W2. rewrite <- Hy in *.
    rewrite newDateJan1_literal by done.
    unfold String.ltb. rewrite !String_compare_app.
    set (jan1 := mkDate (fullYear m1) 0 0).
    fold (String.ltb (weekLabel ((getDay jan1 + dayInYear m1 + 6) / 7))
                     (weekLabel ((getDay jan1 + dayInYear m2 + 6) / 7))).
    assert (0 <= getDay jan1 < 7) as Rj
      by (unfold getDay; apply Z.mod_pos_bound; lia).
    subst jan1.
    destruct V1 as [D1 _], V2 as [D2 _].
    pose proof (DaysInYear_range (fullYear m1)).
    pose proof (DaysInYear_range (fullYear m2)).
    unfold getDay, localDay in M1, M2. rewrite <- Hy in M2.
    unfold getDay, localDay in *. cbn [fullYear dayInYear] in *.
    apply weekLabel_strict; Z.div_mod_to_equations; lia. }
  split; [done|]. intros Heq. unfold String.ltb in Hltb.
  by rewrite Heq, String_compare_refl in Hltb.
Qed.

End WeekKeys.

Section Properties.

Variable LocalTZA : Z -> Z.
Variable toDateString : Date -> string.

Lemma daysSinceJan1_range (d : Date) :
  (forall t u, Z.abs (LocalTZA t - LocalTZA u) < msPerDay) ->
  ~ (0 <= fullYear d <= 99) ->
  validDate d -> -1 <= daysSinceJan1 LocalTZA d <= 366.
Proof.
  intros Htz Hy [Hd Hms]. unfold daysSinceJan1. rewrite newDateJan1_literal by done.
  unfold getTime, localTime, localDay.
  cbn [fullYear dayInYear msInDay].
  set (a := msPerDay * (DayFromYear (fullYear d) + dayInYear d) + msInDay d).
  set (b := msPerDay * (DayFromYear (fullYear d) + 0) + 0).
  pose proof (Htz a b) as Hab.
  assert (a - b = msPerDay * dayInYear d + msInDay d) as Hdiff by (subst a b; lia).
  clearbody a b.
  assert (dayInYear d < 366) by (unfold DaysInYear in Hd; destruct isLeapYear; lia).
  unfold msPerDay in *.
  split.
  - apply Z.div_le_lower_bound; lia.
  - apply Z.lt_succ_r, Z.div_lt_upper_bound; lia.
Qed.

Lemma getDay_range (d : Date) : 0 <= getDay d < 7.
Proof. unfold getDay. apply Z.mod_pos_bound. lia. Qed.

(** [C9, amended] For two Mondays [m1] and [m2] of the same calendar year,
    with [m1] not after [m2], the week key of [m1] is lexicographically
    less than or equal to the week key of [m2], provided the year is not
    one of the years 0 to 99, which [new Date(year, 0, 1)] moves to the
    twentieth century.  The offset of the local time zone may vary over
    the year (daylight saving) by less than a day. *)
Theorem getWeekKey_monotone (m1 m2 : Date) :
  (forall t u, Z.abs (LocalTZA t - LocalTZA u) < msPerDay) ->
  ~ (0 <= fullYear m1 <= 99) ->
  validDate m1 -> validDate m2 ->
  getDay m1 = 1 -> getDay m2 = 1 ->
  fullYear m1 = fullYear m2 ->
  getTime LocalTZA m1 <= getTime LocalTZA m2 ->
  String.le (getWeekKey LocalTZA m1) (getWeekKey LocalTZA m2).
Proof.
  intros Htz Hc V1 V2 _ _ Hy Hle. unfold getWeekKey.
  pose proof (daysSinceJan1_range m1 Htz Hc V1) as R1.
  pose proof (daysSinceJan1_range m2 Htz ltac:(by rewrite <- Hy) V2) as R2.
  unfold daysSinceJan1 in R1, R2. rewrite <- Hy in *.
  pose proof (getDay_range (newDateJan1 (fullYear m1))) as Rj.
  set (jan1 := newDateJan1 (fullYear m1)) in *.
  set (d1 := (getTime LocalTZA m1 - getTime LocalTZA jan1) / msPerDay) in *.
  set (d2 := (getTime LocalTZA m2 - getTime LocalTZA jan1) / msPerDay) in *.
  assert (d1 <= d2) by (apply Z.div_le_mono; unfold msPerDay; lia).
  apply String_le_app, String_le_app.
  apply weekLabel_mono.
  - apply ceilDiv_range. lia.
  - apply ceilDiv_mono. lia.
  - apply ceilDiv_range. lia.
Qed.

(** ** The current week in the store *)

Lemma filter_Forall_nil {A} (P : A -> Prop) `{!forall x, Decision (P x)} (l : list A) :
  Forall (fun x => ~ P x) l -> filter P l = [].
Proof.
  induction 1 as [|x l Hx _ IH]; [done|].
  by rewrite filter_cons_False, IH.
Qed.

Lemma filter_Forall_id {A} (P : A -> Prop) `{!forall x, Decision (P x)} (l : list A) :
  Forall P l -> filter P l = l.
Proof.
  induction 1 as [|x l Hx _ IH]; [done|].
  by rewrite filter_cons_True, IH.
Qed.

Lemma list_find_insert_hit {A} (P : A -> Prop) `{!forall x, Decision (P x)}
    (l : list A) (i : nat) (x w : A) :
  list_find P l = Some (i, x) -> P w -> list_find P (<[i := w]> l) = Some (i, w).
Proof.
  intros (Hi & _ & Hleast)%list_find_Some Hw. apply list_find_Some.
  split_and!; [|done|].
  - apply list_lookup_insert_eq. by eapply lookup_lt_Some.
  - intros j y Hj Hlt. rewrite list_lookup_insert_ne in Hj by lia. eauto.
Qed.

Lemma list_find_snoc_miss {A} (P : A -> Prop) `{!forall x, Decision (P x)}
    (l : list A) (w : A) :
  list_find P l = None -> P w -> list_find P (l ++ [w]) = Some (length l, w).
Proof.
  intros Hnone Hw. rewrite list_find_app_r by done. simpl.
  by rewrite decide_True.
Qed.

Lemma weekKey_getCurrentWeekData (s : State) :
  weekKey (getCurrentWeekData LocalTZA toDateString s) = getCurrentWeekKey LocalTZA s.
Proof.
  unfold getCurrentWeekData, getCurrentWeekKey.
  destruct (list_find _ _) as [[i w]|] eqn:E; [|done].
  by apply list_find_Some in E as (_ & ? & _).
Qed.

Lemma getCurrentWeekData_updateWeekInState (w : WeekData) (s : State) :
  weekKey w = getCurrentWeekKey LocalTZA s ->
  getCurrentWeekData LocalTZA toDateString (updateWeekInState w s) = w.
Proof.
  intros Hk. unfold updateWeekInState, getCurrentWeekData, getCurrentWeekKey in *.
  destruct (list_find (fun w0 => weekKey w0 = weekKey w) _) as [[i x]|] eqn:E;
    cbn [with_weeks appData weeks currentMonday]; rewrite <- Hk.
  - by erewrite list_find_insert_hit.
  - by erewrite list_find_snoc_miss.
Qed.

Lemma updateWeekInState_frame (w : WeekData) (s : State) :
  idSupply (updateWeekInState w s) = idSupply s
  /\ currentMonday (updateWeekInState w s) = currentMonday s
  /\ projects (appData (updateWeekInState w s)) = projects (appData s)
  /\ templates (appData (updateWeekInState w s)) = templates (appData s).
Proof. unfold updateWeekInState. by destruct (list_find _ _) as [[? ?]|]. Qed.

(** [generateId] touches the supply only. *)
Lemma getCurrentWeekData_supply (s : State) (n : nat) :
  getCurrentWeekData LocalTZA toDateString (mkState (appData s) (currentMonday s) n)
  = getCurrentWeekData LocalTZA toDateString s.
Proof. reflexivity. Qed.

(** ** Range insertion *)

Lemma addTimeBlocks_loop_spec (n : nat) (slot : Z) (p : Id) (d : DayOfWeek)
    (week : WeekData) (newBlocks : list TimeBlock) (s : State) :
  addTimeBlocks_loop n slot p d week newBlocks s =
    (with_blocks week
       (filter (fun b => ~ inSlotRange d slot (slot + Z.of_nat n - 1) b) (blocks week)
        ++ rangeBlocks p d n slot (idSupply s)),
     newBlocks ++ rangeBlocks p d n slot (idSupply s),
     mkState (appData s) (currentMonday s) (idSupply s + n)).
Proof.
  revert slot week newBlocks s.
  induction n as [|n IH]; intros slot week newBlocks s.
  - cbn [addTimeBlocks_loop rangeBlocks]. rewrite !app_nil_r, Nat.add_0_r.
    destruct s as [ad cm sup], week as [k sd bs]. cbn. repeat f_equal.
    symmetry. apply filter_Forall_id, Forall_forall. intros b _.
    unfold inSlotRange. lia.
  - cbn [addTimeBlocks_loop rangeBlocks generateId].
    rewrite IH. cbn [with_blocks blocks weekKey startDate appData currentMonday idSupply].
    replace (S (idSupply s) + n)%nat with (idSupply s + S n)%nat by lia.
    f_equal. f_equal.
    + unfold with_blocks. cbn [weekKey startDate blocks]. f_equal.
      rewrite filter_app, list_filter_filter, filter_cons_True, filter_nil
        by (unfold inSlotRange; cbn; intros (_ & ? & _); lia).
      rewrite <- app_assoc. cbn [app]. f_equal.
      apply list_filter_iff. intros b. unfold inSlotRange.
      destruct (decide (day b = d)); [|tauto].
      destruct (decide (slotIndex b = slot)); [|intuition lia].
      split; [tauto|]. intros H; split; intros ?; apply H; intuition lia.
    + by rewrite <- app_assoc.
Qed.

Lemma rangeBlocks_length p d n slot supply :
  length (rangeBlocks p d n slot supply) = n.
Proof. revert slot supply. induction n; intros; cbn; auto. Qed.

Lemma rangeBlocks_slots p d n slot supply :
  map slotIndex (rangeBlocks p d n slot supply) = seqZ slot (Z.of_nat n).
Proof.
  revert slot supply. induction n as [|n IH]; intros; [done|].
  cbn [rangeBlocks map slotIndex]. rewrite IH.
  rewrite (seqZ_cons slot) by lia. f_equal. f_equal; lia.
Qed.

Lemma rangeBlocks_Forall p d n slot supply :
  Forall (fun b => projectId b = p /\ day b = d
                   /\ slot <= slotIndex b < slot + Z.of_nat n
                   /\ (supply <= block_id b < supply + n)%nat)
         (rangeBlocks p d n slot supply).
Proof.
  revert slot supply. induction n as [|n IH]; intros; [constructor|].
  cbn [rangeBlocks]. constructor; [cbn; split_and!; (done || lia)|].
  eapply Forall_impl; [apply IH|]. cbn.
  intros b (? & ? & ? & ?). split_and!; (done || lia).
Qed.

(** The result and the final state of [addTimeBlocks] in closed form. *)
Lemma addTimeBlocks_eq (p : Id) (d : DayOfWeek) (a b : Z) (s : State) :
  let lo := Z.min a b in
  let hi := Z.max a b in
  let n := Z.to_nat (hi - lo + 1) in
  let fresh := rangeBlocks p d n lo (idSupply s) in
  let week := getCurrentWeekData LocalTZA toDateString s in
  addTimeBlocks LocalTZA toDateString p d a b s =
    (fresh,
     updateWeekInState
       (with_blocks week
          (filter (fun x => ~ inSlotRange d lo hi x) (blocks week) ++ fresh))
       (mkState (appData s) (currentMonday s) (idSupply s + n))).
Proof.
  intros lo hi n fresh week. unfold addTimeBlocks.
  fold lo hi n week. rewrite addTimeBlocks_loop_spec. cbn [app].
  fold fresh.
  rewrite decide_True by (unfold fresh; rewrite rangeBlocks_length; lia).
  replace (lo + Z.of_nat n - 1) with hi by lia. reflexivity.
Qed.

Lemma getCurrentWeekData_addTimeBlocks (p : Id) (d : DayOfWeek) (a b : Z) (s : State) :
  blocks (getCurrentWeekData LocalTZA toDateString
            (addTimeBlocks LocalTZA toDateString p d a b s).2)
  = filter (fun x => ~ inSlotRange d (Z.min a b) (Z.max a b) x)
           (blocks (getCurrentWeekData LocalTZA toDateString s))
    ++ rangeBlocks p d (Z.to_nat (Z.max a b - Z.min a b + 1)) (Z.min a b) (idSupply s).
Proof.
  rewrite addTimeBlocks_eq. cbn [snd].
  rewrite getCurrentWeekData_updateWeekInState; [done|].
  cbn [with_blocks weekKey]. by rewrite weekKey_getCurrentWeekData.
Qed.

(** [C10] The list returned by [addTimeBlocks] has
    [max(startSlot,endSlot) - min(startSlot,endSlot) + 1] elements, each
    with the given project and day, and their slot indices are the integers
    from the smaller bound to the larger one in increasing order. *)
Theorem addTimeBlocks_returns_range (p : Id) (d : DayOfWeek) (startSlot endSlot : Z)
    (s : State) :
  let newBlocks := (addTimeBlocks LocalTZA toDateString p d startSlot endSlot s).1 in
  let minSlot := Z.min startSlot endSlot in
  let maxSlot := Z.max startSlot endSlot in
  Z.of_nat (length newBlocks) = maxSlot - minSlot + 1
  /\ Forall (fun x => projectId x = p /\ day x = d) newBlocks
  /\ map slotIndex newBlocks = seqZ minSlot (maxSlot - minSlot + 1).
Proof.
  intros newBlocks minSlot maxSlot. subst newBlocks.
  rewrite addTimeBlocks_eq. cbn [fst]. fold minSlot maxSlot.
  split_and!.
  - rewrite rangeBlocks_length. lia.
  - eapply Forall_impl; [apply rangeBlocks_Forall|]. cbn. tauto.
  - rewrite rangeBlocks_slots. f_equal. lia.
Qed.

(** [C1, amended] After [addTimeBlocks] with slot bounds [a] and [b], the
    current week holds exactly [|b-a|+1] blocks of that day whose slot lies
    between the two bounds, and each of them belongs to the new project,
    whatever the week held before. *)
Theorem addTimeBlocks_range_owned (p : Id) (d : DayOfWeek) (a b : Z) (s : State) :
  let week := getCurrentWeekData LocalTZA toDateString
                (addTimeBlocks LocalTZA toDateString p d a b s).2 in
  let inRange := filter (inSlotRange d (Z.min a b) (Z.max a b)) (blocks week) in
  Z.of_nat (length inRange) = Z.abs (b - a) + 1
  /\ Forall (fun x => projectId x = p) inRange.
Proof.
  intros week inRange. subst week inRange.
  rewrite getCurrentWeekData_addTimeBlocks.
  set (n := Z.to_nat (Z.max a b - Z.min a b + 1)).
  rewrite filter_app, list_filter_filter.
  rewrite filter_Forall_nil; cycle 1.
  { apply Forall_forall. intros x _. tauto. }
  cbn [app]. rewrite filter_Forall_id; cycle 1.
  { eapply Forall_impl; [apply rangeBlocks_Forall|]. cbn.
    unfold inSlotRange. intros x (? & ? & ? & ?). split_and!; (done || lia). }
  split.
  - rewrite rangeBlocks_length. lia.
  - eapply Forall_impl; [apply rangeBlocks_Forall|]. cbn. tauto.
Qed.

(** ** Single-slot insertion *)

Lemma list_find_is_None_iff {A} (P : A -> Prop) `{!forall x, Decision (P x)} (l : list A) :
  list_find P l = None <-> ~ Exists P l.
Proof.
  rewrite list_find_None. split.
  - intros HF HE. apply Exists_exists in HE as (x & Hx & HP).
    rewrite Forall_forall in HF. by eapply HF.
  - intros HE. apply Forall_forall. intros x Hx HP. apply HE.
    apply Exists_exists. eauto.
Qed.

Lemma addTimeBlock_occupied (p : Id) (d : DayOfWeek) (i : Z) (s : State) :
  slotOccupied d i (blocks (getCurrentWeekData LocalTZA toDateString s)) ->
  addTimeBlock LocalTZA toDateString p d i s = (None, s).
Proof.
  intros Hocc. unfold addTimeBlock.
  destruct (list_find _ _) as [[j x]|] eqn:E; [done|].
  unfold slotOccupied in Hocc. by apply list_find_is_None_iff in E.
Qed.

Lemma addTimeBlock_free (p : Id) (d : DayOfWeek) (i : Z) (s : State) :
  ~ slotOccupied d i (blocks (getCurrentWeekData LocalTZA toDateString s)) ->
  let week := getCurrentWeekData LocalTZA toDateString s in
  let block := mkTimeBlock (idSupply s) p d i in
  addTimeBlock LocalTZA toDateString p d i s =
    (Some block,
     updateWeekInState (with_blocks week (blocks week ++ [block]))
       (mkState (appData s) (currentMonday s) (S (idSupply s)))).
Proof.
  intros Hfree week block. unfold addTimeBlock. fold week.
  unfold slotOccupied in Hfree. apply (proj2 (list_find_is_None_iff _ _)) in Hfree.
  unfold week. by rewrite Hfree.
Qed.

(** [C8] [addTimeBlock] returns [null] and leaves the blocks of the current
    week unchanged exactly when some block already occupies the slot;
    otherwise it appends one new block for that slot, whose identifier is
    the next one of the supply (hence different from every identifier
    minted before), and returns it. *)
Theorem addTimeBlock_spec (p : Id) (d : DayOfWeek) (i : Z) (s : State) :
  let week := getCurrentWeekData LocalTZA toDateString s in
  let r := addTimeBlock LocalTZA toDateString p d i s in
  let week' := getCurrentWeekData LocalTZA toDateString r.2 in
  let occupied := slotOccupied d i (blocks week) in
  (r.1 = None /\ blocks week' = blocks week <-> occupied)
  /\ (occupied -> r = (None, s))
  /\ (~ occupied ->
      let block := mkTimeBlock (idSupply s) p d i in
      r.1 = Some block
      /\ blocks week' = blocks week ++ [block]
      /\ idSupply r.2 = S (idSupply s)
      /\ (Forall (fun x => (block_id x < idSupply s)%nat) (blocks week) ->
          Forall (fun x => block_id x <> block_id block) (blocks week))).
Proof.
  intros week r week' occupied.
  assert (Hfree : ~ occupied ->
            r.1 = Some (mkTimeBlock (idSupply s) p d i)
            /\ blocks week' = blocks week ++ [mkTimeBlock (idSupply s) p d i]
            /\ idSupply r.2 = S (idSupply s)).
  { intros Hn. subst week' r. rewrite addTimeBlock_free by done. cbn [fst snd].
    rewrite getCurrentWeekData_updateWeekInState.
    - split_and!; [done..|]. by rewrite (proj1 (updateWeekInState_frame _ _)).
    - cbn [with_blocks weekKey]. by rewrite weekKey_getCurrentWeekData. }
  split_and!.
  - split.
    + intros [Hnone _]. destruct (decide (Exists (fun b => day b = d /\ slotIndex b = i)
                                           (blocks week))) as [|Hn]; [done|].
      apply Hfree in Hn as [Hsome _]. congruence.
    + intros Hocc. subst week' r. by rewrite addTimeBlock_occupied.
  - intros Hocc. subst r. by apply addTimeBlock_occupied.
  - intros Hn block. destruct (Hfree Hn) as (? & ? & ?). split_and!; [done..|].
    intros Hlt. eapply Forall_impl; [exact Hlt|]. cbn. lia.
Qed.

(** ** Cascading deletion of a project *)

(** [C4, amended] After [deleteProject id] no project of the registry has
    that identifier and no block of any week refers to it; if every block
    referred to an existing project before, every block does afterwards. *)
Theorem deleteProject_cascade (id : Id) (s : State) :
  let s' := deleteProject id s in
  Forall (fun p => project_id p <> id) (projects (appData s'))
  /\ Forall (fun w => Forall (fun b => projectId b <> id) (blocks w)) (weeks (appData s'))
  /\ (noOrphans s -> noOrphans s').
Proof.
  cbn zeta. unfold deleteProject, noOrphans.
  cbn [with_weeks with_projects appData projects weeks].
  split_and!.
  - apply Forall_forall. by intros x [? _]%list_elem_of_filter.
  - apply Forall_fmap, Forall_forall. intros w _. cbn [compose with_blocks blocks].
    apply Forall_forall. by intros x [? _]%list_elem_of_filter.
  - intros Hall. apply Forall_fmap. eapply Forall_impl; [exact Hall|].
    intros w Hw. cbn [compose with_blocks blocks].
    apply Forall_forall. intros b [Hb Hin]%list_elem_of_filter.
    rewrite Forall_forall in Hw. specialize (Hw b Hin).
    apply Exists_exists in Hw as (q & Hq & Heq). apply Exists_exists.
    exists q. split; [|done]. apply list_elem_of_filter. split; [congruence|done].
Qed.

(** ** Templates *)

Lemma mintBlocks_entries (tbs : list TemplateBlock) (supply : nat) :
  map toTemplateBlock (mintBlocks tbs supply) = tbs.
Proof.
  revert supply. induction tbs as [|[q d i] tbs IH]; intros; [done|].
  cbn. by rewrite IH.
Qed.

Lemma mintBlocks_ids (tbs : list TemplateBlock) (supply : nat) :
  map block_id (mintBlocks tbs supply) = seq supply (length tbs).
Proof.
  revert supply. induction tbs as [|tb tbs IH]; intros; [done|].
  cbn. by rewrite IH.
Qed.

Lemma applyTemplate_loop_spec (tbs : list TemplateBlock) (week : WeekData) (s : State) :
  let kept := filter (projectExists (projects (appData s))) tbs in
  applyTemplate_loop tbs week s =
    (with_blocks week (blocks week ++ mintBlocks kept (idSupply s)),
     mkState (appData s) (currentMonday s) (idSupply s + length kept)).
Proof.
  revert week s. induction tbs as [|tb tbs IH]; intros week s.
  - cbn. rewrite app_nil_r, Nat.add_0_r. by destruct week, s.
  - cbn [applyTemplate_loop].
    destruct (list_find _ _) as [[j q]|] eqn:E.
    + assert (projectExists (projects (appData s)) tb) as Hex.
      { destruct (decide (projectExists (projects (appData s)) tb)); [done|].
        unfold projectExists in *.
        apply (proj2 (list_find_is_None_iff _ _)) in n. congruence. }
      cbn [generateId]. rewrite IH. cbn zeta.
      cbn [appData currentMonday idSupply with_blocks blocks weekKey startDate].
      rewrite (filter_cons_True _ tb) by done. cbn [mintBlocks length].
      rewrite <- app_assoc. cbn [app]. do 2 f_equal. lia.
    + apply list_find_is_None_iff in E.
      rewrite IH. cbn zeta. by rewrite (filter_cons_False _ tb).
Qed.

Lemma applyTemplate_unknown (templateId : Id) (s : State) :
  Forall (fun t => template_id t <> templateId) (templates (appData s)) ->
  applyTemplate LocalTZA toDateString templateId s = s.
Proof.
  intros Hno. unfold applyTemplate.
  by rewrite (proj2 (list_find_None _ _) Hno).
Qed.

Lemma applyTemplate_found (templateId : Id) (s : State) (i : nat) (t : Template) :
  list_find (fun t => template_id t = templateId) (templates (appData s)) = Some (i, t) ->
  let kept := filter (projectExists (projects (appData s))) (template_blocks t) in
  let s' := applyTemplate LocalTZA toDateString templateId s in
  blocks (getCurrentWeekData LocalTZA toDateString s') = mintBlocks kept (idSupply s)
  /\ idSupply s' = (idSupply s + length kept)%nat.
Proof.
  intros Hfind kept s'. subst s'. unfold applyTemplate. rewrite Hfind.
  rewrite applyTemplate_loop_spec. cbn zeta. fold kept.
  cbn [with_blocks blocks weekKey startDate app].
  rewrite getCurrentWeekData_updateWeekInState.
  - split; [done|]. by rewrite (proj1 (updateWeekInState_frame _ _)).
  - cbn [with_blocks weekKey]. by rewrite weekKey_getCurrentWeekData.
Qed.

(** [C5] [applyTemplate] changes nothing when no template has the given
    identifier.  Otherwise the blocks of the current week are replaced, the
    previous ones being discarded, by blocks built from exactly those
    entries of the template whose project exists, in the template's order,
    with identifiers freshly drawn from the supply. *)
Theorem applyTemplate_spec (templateId : Id) (s : State) :
  let s' := applyTemplate LocalTZA toDateString templateId s in
  let week' := getCurrentWeekData LocalTZA toDateString s' in
  (Forall (fun t => template_id t <> templateId) (templates (appData s)) -> s' = s)
  /\ (forall i t,
        list_find (fun t => template_id t = templateId) (templates (appData s))
          = Some (i, t) ->
        let kept := filter (projectExists (projects (appData s))) (template_blocks t) in
        map toTemplateBlock (blocks week') = kept
        /\ map block_id (blocks week') = seq (idSupply s) (length kept)
        /\ idSupply s' = (idSupply s + length kept)%nat).
Proof.
  intros s' week'. split.
  - apply applyTemplate_unknown.
  - intros i t Hfind kept.
    destruct (applyTemplate_found templateId s i t Hfind) as [Hb Hs].
    subst week' s'. rewrite Hb. fold kept.
    by rewrite mintBlocks_entries, mintBlocks_ids.
Qed.

(** [C6] In a state whose current week refers to existing projects only
    (and whose identifier supply is ahead of the stored templates), saving
    the current week as a template, emptying the week and applying the
    saved template gives a current week with the same (project, day, slot)
    triples as the original one. *)
Theorem save_clear_apply_roundtrip (name0 : string) (s s2 : State) :
  let week := getCurrentWeekData LocalTZA toDateString s in
  let saved := saveCurrentWeekAsTemplate LocalTZA toDateString name0 s in
  Forall (fun b => projectExists (projects (appData s)) (toTemplateBlock b)) (blocks week) ->
  Forall (fun t => (template_id t < idSupply s)%nat) (templates (appData s)) ->
  currentWeekCleared LocalTZA toDateString saved.2 s2 ->
  let week' := getCurrentWeekData LocalTZA toDateString
                 (applyTemplate LocalTZA toDateString (template_id saved.1) s2) in
  map toTemplateBlock (blocks week') = map toTemplateBlock (blocks week)
  /\ (forall x, x ∈ map toTemplateBlock (blocks week')
                <-> x ∈ map toTemplateBlock (blocks week)).
Proof.
  intros week saved Hproj Hids (Hps & Hts & Hcm & _) week'.
  assert (map toTemplateBlock (blocks week') = map toTemplateBlock (blocks week)) as Heq;
    [|split; [done|by rewrite Heq]].
  subst week' saved. unfold saveCurrentWeekAsTemplate in *.
  cbn [generateId fst snd with_templates appData templates projects template_id
       currentMonday idSupply] in *.
  fold week in Hts |- *.
  set (t := mkTemplate (idSupply s) name0 (map toTemplateBlock (blocks week))) in *.
  assert (list_find (fun t0 => template_id t0 = idSupply s) (templates (appData s2))
          = Some (length (templates (appData s)), t)) as Hfind.
  { rewrite Hts. apply list_find_snoc_miss; [|done].
    apply list_find_None. eapply Forall_impl; [exact Hids|]. cbn. lia. }
  destruct (applyTemplate_found _ _ _ _ Hfind) as [Hb _].
  rewrite Hb, mintBlocks_entries, Hps. cbn [template_blocks t].
  apply filter_Forall_id. by apply Forall_fmap.
Qed.

(** ** Slot occupancy invariant *)

Lemma slotsUnique_filter (P : TimeBlock -> Prop) `{!forall x, Decision (P x)}
    (bs : list TimeBlock) :
  slotsUnique bs -> slotsUnique (filter P bs).
Proof.
  unfold slotsUnique. intros Hnd. eapply sublist_NoDup; [exact Hnd|].
  apply fmap_sublist, sublist_filter.
Qed.

Lemma slotsUnique_snoc (bs : list TimeBlock) (b : TimeBlock) :
  slotsUnique bs -> ~ slotOccupied (day b) (slotIndex b) bs -> slotsUnique (bs ++ [b]).
Proof.
  unfold slotsUnique, slotOccupied. intros Hnd Hfree.
  rewrite fmap_app. apply NoDup_app. split_and!; [done| |apply NoDup_singleton].
  intros k Hk Hk'. apply list_elem_of_singleton in Hk'. subst k.
  apply list_elem_of_fmap in Hk as (x & Hx & Hin). apply Hfree.
  apply Exists_exists. exists x. split; [done|].
  unfold slotKey in Hx. by inversion Hx.
Qed.

Lemma slotKey_rangeBlocks p d n slot supply :
  slotKey <$> rangeBlocks p d n slot supply = pair d <$> seqZ slot (Z.of_nat n).
Proof.
  revert slot supply. induction n as [|n IH]; intros; [done|].
  cbn [rangeBlocks]. rewrite (seqZ_cons slot) by lia. rewrite !fmap_cons, IH.
  unfold slotKey at 1. cbn. do 3 f_equal; lia.
Qed.

Lemma slotsUnique_addTimeBlocks (p : Id) (d : DayOfWeek) (lo hi : Z) (supply : nat)
    (bs : list TimeBlock) :
  slotsUnique bs ->
  slotsUnique (filter (fun x => ~ inSlotRange d lo hi x) bs
               ++ rangeBlocks p d (Z.to_nat (hi - lo + 1)) lo supply).
Proof.
  intros Hnd. unfold slotsUnique. rewrite fmap_app. apply NoDup_app. split_and!.
  - by apply slotsUnique_filter.
  - intros k (x & -> & [Hx _]%list_elem_of_filter)%list_elem_of_fmap.
    rewrite slotKey_rangeBlocks.
    intros (j & Hk & Hj%elem_of_seqZ)%list_elem_of_fmap.
    apply Hx. unfold slotKey in Hk. inversion Hk. unfold inSlotRange.
    split; [done|lia].
  - rewrite slotKey_rangeBlocks. apply NoDup_fmap_2; [|apply NoDup_seqZ].
    by intros ? ? [=].
Qed.

Lemma slotKey_mintBlocks (tbs : list TemplateBlock) (supply : nat) :
  slotKey <$> mintBlocks tbs supply = entryKey <$> tbs.
Proof.
  revert supply. induction tbs as [|tb tbs IH]; intros; [done|].
  cbn [mintBlocks]. by rewrite !fmap_cons, IH.
Qed.

Lemma entryKey_toTemplateBlock (bs : list TimeBlock) :
  entryKey <$> map toTemplateBlock bs = slotKey <$> bs.
Proof. induction bs as [|b bs IH]; [done|]. cbn. by rewrite <- IH. Qed.

Lemma storeInv_getCurrentWeekData (s : State) :
  storeInv s -> slotsUnique (blocks (getCurrentWeekData LocalTZA toDateString s)).
Proof.
  intros [Hw _]. unfold getCurrentWeekData.
  destruct (list_find _ _) as [[i w]|] eqn:E; [|apply NoDup_nil_2].
  apply list_find_Some in E as (Hi & _).
  rewrite Forall_forall in Hw. eapply Hw, list_elem_of_lookup_2, Hi.
Qed.

Lemma storeInv_updateWeekInState (w : WeekData) (s : State) :
  storeInv s -> slotsUnique (blocks w) -> storeInv (updateWeekInState w s).
Proof.
  intros [Hw Ht] Hnd. unfold storeInv, updateWeekInState.
  destruct (list_find _ _) as [[i x]|];
    cbn [with_weeks appData weeks templates]; (split; [|done]).
  - by apply Forall_insert.
  - apply Forall_app. split; [done|]. by constructor.
Qed.

Lemma storeInv_supply (s : State) (n : nat) :
  storeInv s -> storeInv (mkState (appData s) (currentMonday s) n).
Proof. done. Qed.

Lemma storeInv_ensureCurrentWeek (s : State) :
  storeInv s -> storeInv (ensureCurrentWeek LocalTZA toDateString s).
Proof.
  intros [Hw Ht]. unfold ensureCurrentWeek.
  destruct (list_find _ _) as [[i x]|]; [done|].
  split; [|done]. cbn [with_weeks appData weeks].
  apply Forall_app. split; [done|]. constructor; [apply NoDup_nil_2|done].
Qed.

Lemma slotsUnique_count (bs : list TimeBlock) (d : DayOfWeek) (i : Z) :
  slotsUnique bs ->
  (length (filter (fun b => day b = d /\ slotIndex b = i) bs) <= 1)%nat.
Proof.
  unfold slotsUnique. induction bs as [|b bs IH]; [cbn; lia|].
  rewrite fmap_cons. intros [Hnotin Hnd]%NoDup_cons.
  rewrite filter_cons. destruct (decide _) as [[Hd Hi]|]; [|by apply IH].
  rewrite filter_Forall_nil; [cbn; lia|].
  apply Forall_forall. intros x Hx [Hd' Hi']. apply Hnotin.
  apply list_elem_of_fmap. exists x. split; [|done].
  unfold slotKey. congruence.
Qed.

Lemma storeInv_atMostOnePerSlot (s : State) : storeInv s -> atMostOnePerSlot s.
Proof.
  intros [Hw _] w Hin d i. rewrite Forall_forall in Hw.
  by apply slotsUnique_count, Hw.
Qed.

Lemma storeInv_initState (loaded : AppData) (now : Date) (s : State) :
  storeInv (mkState loaded (currentMonday s) (idSupply s)) ->
  storeInv (initState LocalTZA toDateString loaded now s).
Proof.
  intros Hinv. unfold initState. apply storeInv_ensureCurrentWeek.
  by destruct (decide _).
Qed.

Lemma storeInv_deleteProject (id : Id) (s : State) :
  storeInv s -> storeInv (deleteProject id s).
Proof.
  intros [Hw Ht]. split; [|done].
  cbn [deleteProject with_weeks with_projects appData weeks].
  apply Forall_fmap. eapply Forall_impl; [exact Hw|].
  intros w Hnd. cbn [compose with_blocks blocks]. by apply slotsUnique_filter.
Qed.

Lemma storeInv_addTimeBlock (p : Id) (d : DayOfWeek) (i : Z) (s : State) :
  storeInv s -> storeInv (addTimeBlock LocalTZA toDateString p d i s).2.
Proof.
  intros Hinv.
  destruct (decide (slotOccupied d i
                      (blocks (getCurrentWeekData LocalTZA toDateString s)))) as [Ho|Hf].
  - by rewrite addTimeBlock_occupied.
  - rewrite addTimeBlock_free by done. cbn [snd].
    apply storeInv_updateWeekInState; [by apply storeInv_supply|].
    cbn [with_blocks blocks].
    apply slotsUnique_snoc; [by apply storeInv_getCurrentWeekData|done].
Qed.

Lemma storeInv_addTimeBlocks (p : Id) (d : DayOfWeek) (a b : Z) (s : State) :
  storeInv s -> storeInv (addTimeBlocks LocalTZA toDateString p d a b s).2.
Proof.
  intros Hinv. rewrite addTimeBlocks_eq. cbn [snd].
  apply storeInv_updateWeekInState; [by apply storeInv_supply|].
  cbn [with_blocks blocks].
  by apply slotsUnique_addTimeBlocks, storeInv_getCurrentWeekData.
Qed.

Lemma storeInv_removeTimeBlocksInRange (d : DayOfWeek) (a b : Z) (s : State) :
  storeInv s -> storeInv (removeTimeBlocksInRange LocalTZA toDateString d a b s).
Proof.
  intros Hinv. unfold removeTimeBlocksInRange.
  destruct (decide _); [|done].
  apply storeInv_updateWeekInState; [done|]. cbn [with_blocks blocks].
  by apply slotsUnique_filter, storeInv_getCurrentWeekData.
Qed.

Lemma storeInv_removeTimeBlock (blockId : Id) (s : State) :
  storeInv s -> storeInv (removeTimeBlock LocalTZA toDateString blockId s).
Proof.
  intros Hinv. unfold removeTimeBlock.
  apply storeInv_updateWeekInState; [done|]. cbn [with_blocks blocks].
  by apply slotsUnique_filter, storeInv_getCurrentWeekData.
Qed.

Lemma storeInv_updateTimeBlockProject (blockId p : Id) (s : State) :
  storeInv s -> storeInv (updateTimeBlockProject LocalTZA toDateString blockId p s).
Proof.
  intros Hinv. unfold updateTimeBlockProject.
  destruct (list_find _ _) as [[i b]|] eqn:E; [|done].
  apply storeInv_updateWeekInState; [done|]. cbn [with_blocks blocks].
  apply list_find_Some in E as (Hi & _).
  unfold slotsUnique. rewrite list_fmap_insert.
  change (slotKey (with_projectId b p)) with (slotKey b).
  rewrite list_insert_id; [by apply storeInv_getCurrentWeekData|].
  by rewrite list_lookup_fmap, Hi.
Qed.

Lemma storeInv_saveCurrentWeekAsTemplate (name0 : string) (s : State) :
  storeInv s -> storeInv (saveCurrentWeekAsTemplate LocalTZA toDateString name0 s).2.
Proof.
  intros Hinv. pose proof (storeInv_getCurrentWeekData s Hinv) as Hcur.
  destruct Hinv as [Hw Ht]. split; [done|].
  cbn [saveCurrentWeekAsTemplate generateId snd with_templates appData templates].
  apply Forall_app. split; [done|]. constructor; [|done].
  cbn [template_blocks]. by rewrite entryKey_toTemplateBlock.
Qed.

Lemma storeInv_applyTemplate (templateId : Id) (s : State) :
  storeInv s -> storeInv (applyTemplate LocalTZA toDateString templateId s).
Proof.
  intros Hinv. unfold applyTemplate.
  destruct (list_find _ _) as [[i t]|] eqn:E; [|done].
  rewrite applyTemplate_loop_spec. cbn zeta.
  apply storeInv_updateWeekInState; [by apply storeInv_supply|].
  cbn [with_blocks blocks app]. unfold slotsUnique.
  rewrite slotKey_mintBlocks.
  apply list_find_Some in E as (Hi%list_elem_of_lookup_2 & _).
  destruct Hinv as [_ Ht]. rewrite Forall_forall in Ht.
  eapply sublist_NoDup; [apply (Ht t Hi)|]. apply fmap_sublist, sublist_filter.
Qed.

Lemma storeInv_deleteTemplate (templateId : Id) (s : State) :
  storeInv s -> storeInv (deleteTemplate templateId s).
Proof.
  intros [Hw Ht]. split; [done|].
  cbn [deleteTemplate with_templates appData templates].
  apply Forall_forall. intros t [_ Hin]%list_elem_of_filter.
  rewrite Forall_forall in Ht. by apply Ht.
Qed.

Lemma storeInv_step (s s' : State) : storeInv s -> step LocalTZA toDateString s s' -> storeInv s'.
Proof.
  intros Hinv Hstep. destruct Hstep.
  - apply storeInv_initState. split; constructor.
  - by apply storeInv_initState.
  - by apply storeInv_ensureCurrentWeek.
  - by apply storeInv_ensureCurrentWeek.
  - done.
  - done.
  - unfold updateProject. by destruct (list_find _ _) as [[? ?]|].
  - by apply storeInv_deleteProject.
  - by apply storeInv_addTimeBlock.
  - by apply storeInv_addTimeBlocks.
  - by apply storeInv_removeTimeBlocksInRange.
  - by apply storeInv_removeTimeBlock.
  - by apply storeInv_updateTimeBlockProject.
  - by apply storeInv_saveCurrentWeekAsTemplate.
  - by apply storeInv_applyTemplate.
  - by apply storeInv_deleteTemplate.
Qed.

Lemma storeInv_reachable (s : State) : reachable LocalTZA toDateString s -> storeInv s.
Proof.
  induction 1 as [now|s s' _ IH Hstep].
  - split; constructor.
  - by eapply storeInv_step.
Qed.

(** *** Freshness of the identifiers along a run *)

Lemma idsBelowSupply_mono (s : State) (n : nat) :
  idsBelowSupply s -> (idSupply s <= n)%nat ->
  idsBelowSupply (mkState (appData s) (currentMonday s) n).
Proof.
  intros [Hw Ht] Hle. split; cbn [appData idSupply].
  - eapply Forall_impl; [exact Hw|]. intros w Hb.
    eapply Forall_impl; [exact Hb|]. cbn. lia.
  - eapply Forall_impl; [exact Ht|]. cbn. lia.
Qed.

Lemma idsBelowSupply_getCurrentWeekData (s : State) :
  idsBelowSupply s ->
  Forall (fun b => (block_id b < idSupply s)%nat)
         (blocks (getCurrentWeekData LocalTZA toDateString s)).
Proof.
  intros [Hw _]. unfold getCurrentWeekData.
  destruct (list_find _ _) as [[i w]|] eqn:E; [|constructor].
  apply list_find_Some in E as (Hi & _).
  rewrite Forall_forall in Hw. eapply Hw, list_elem_of_lookup_2, Hi.
Qed.

Lemma idsBelowSupply_updateWeekInState (w : WeekData) (s : State) :
  idsBelowSupply s ->
  Forall (fun b => (block_id b < idSupply s)%nat) (blocks w) ->
  idsBelowSupply (updateWeekInState w s).
Proof.
  intros [Hw Ht] Hb. unfold idsBelowSupply, updateWeekInState.
  destruct (list_find _ _) as [[i x]|];
    cbn [with_weeks appData weeks templates idSupply]; (split; [|done]).
  - by apply Forall_insert.
  - apply Forall_app. split; [done|]. by constructor.
Qed.

Lemma idsBelowSupply_ensureCurrentWeek (s : State) :
  idsBelowSupply s -> idsBelowSupply (ensureCurrentWeek LocalTZA toDateString s).
Proof.
  intros [Hw Ht]. unfold ensureCurrentWeek.
  destruct (list_find _ _) as [[i x]|]; [done|].
  split; [|done]. cbn [with_weeks appData weeks idSupply].
  apply Forall_app. split; [done|]. by repeat constructor.
Qed.

Lemma mintBlocks_Forall (tbs : list TemplateBlock) (supply : nat) :
  Forall (fun b => (block_id b < supply + length tbs)%nat) (mintBlocks tbs supply).
Proof.
  revert supply. induction tbs as [|tb tbs IH]; intros; [constructor|].
  cbn [mintBlocks length]. constructor; [cbn; lia|].
  eapply Forall_impl; [apply IH|]. cbn. lia.
Qed.

Lemma idsBelowSupply_step (s s' : State) :
  idsBelowSupply s -> step LocalTZA toDateString s s' -> idsBelowSupply s'.
Proof.
  intros Hinv Hstep. pose proof (idsBelowSupply_getCurrentWeekData s Hinv) as Hcur.
  destruct Hstep.
  - unfold initState. apply idsBelowSupply_ensureCurrentWeek.
    split; constructor.
  - unfold initState. apply idsBelowSupply_ensureCurrentWeek.
    by destruct (decide _).
  - by apply idsBelowSupply_ensureCurrentWeek.
  - by apply idsBelowSupply_ensureCurrentWeek.
  - done.
  - cbn [addProject generateId snd].
    apply (idsBelowSupply_mono s (S (idSupply s))) in Hinv; [done|lia].
  - unfold updateProject. by destruct (list_find _ _) as [[? ?]|].
  - destruct Hinv as [Hw Ht]. split; [|done].
    cbn [deleteProject with_weeks with_projects appData weeks idSupply].
    apply Forall_fmap. eapply Forall_impl; [exact Hw|].
    intros w Hb. cbn [compose with_blocks blocks].
    apply Forall_forall. intros x [_ Hx]%list_elem_of_filter.
    rewrite Forall_forall in Hb. by apply Hb.
  - destruct (decide (slotOccupied d i
                        (blocks (getCurrentWeekData LocalTZA toDateString s)))).
    + by rewrite addTimeBlock_occupied.
    + rewrite addTimeBlock_free by done. cbn [snd].
      apply idsBelowSupply_updateWeekInState;
        [apply idsBelowSupply_mono; [done|lia]|].
      cbn [with_blocks blocks idSupply]. apply Forall_app. split.
      * eapply Forall_impl; [exact Hcur|]. cbn. lia.
      * constructor; [cbn; lia|constructor].
  - rewrite addTimeBlocks_eq. cbn [snd].
    apply idsBelowSupply_updateWeekInState;
      [apply idsBelowSupply_mono; [done|lia]|].
    cbn [with_blocks blocks idSupply]. apply Forall_app. split.
    + apply Forall_forall. intros x [_ Hx]%list_elem_of_filter.
      rewrite Forall_forall in Hcur. specialize (Hcur x Hx). lia.
    + eapply Forall_impl; [apply rangeBlocks_Forall|]. cbn. lia.
  - unfold removeTimeBlocksInRange. destruct (decide _); [|done].
    apply idsBelowSupply_updateWeekInState; [done|]. cbn [with_blocks blocks].
    apply Forall_forall. intros x [_ Hx]%list_elem_of_filter.
    rewrite Forall_forall in Hcur. by apply Hcur.
  - unfold removeTimeBlock.
    apply idsBelowSupply_updateWeekInState; [done|]. cbn [with_blocks blocks].
    apply Forall_forall. intros x [_ Hx]%list_elem_of_filter.
    rewrite Forall_forall in Hcur. by apply Hcur.
  - unfold updateTimeBlockProject.
    destruct (list_find _ _) as [[i b]|] eqn:E; [|done].
    apply idsBelowSupply_updateWeekInState; [done|]. cbn [with_blocks blocks].
    apply list_find_Some in E as (Hi%list_elem_of_lookup_2 & _).
    apply Forall_insert; [done|]. rewrite Forall_forall in Hcur.
    cbn [with_projectId block_id]. by apply Hcur.
  - destruct Hinv as [Hw Ht].
    split; cbn [saveCurrentWeekAsTemplate generateId snd with_templates appData
                weeks templates idSupply].
    + eapply Forall_impl; [exact Hw|]. intros w Hb.
      eapply Forall_impl; [exact Hb|]. cbn. lia.
    + apply Forall_app. split.
      * eapply Forall_impl; [exact Ht|]. cbn. lia.
      * constructor; [cbn; lia|constructor].
  - unfold applyTemplate.
    destruct (list_find _ _) as [[i t]|]; [|done].
    rewrite applyTemplate_loop_spec. cbn zeta.
    apply idsBelowSupply_updateWeekInState;
      [apply idsBelowSupply_mono; [done|lia]|].
    cbn [with_blocks blocks app idSupply]. apply mintBlocks_Forall.
  - destruct Hinv as [Hw Ht]. split; [done|].
    cbn [deleteTemplate with_templates appData templates idSupply].
    apply Forall_forall. intros t [_ Hin]%list_elem_of_filter.
    rewrite Forall_forall in Ht. by apply Ht.
Qed.

(** In a reachable state the identifier that [generateId] hands out next
    is not in use: the conditions on the supply that the properties of
    single-slot insertion and of templates rely on hold along every run. *)
Lemma reachable_idsBelowSupply (s : State) :
  reachable LocalTZA toDateString s -> idsBelowSupply s.
Proof.
  induction 1 as [now|s s' _ IH Hstep].
  - split; constructor.
  - by eapply idsBelowSupply_step.
Qed.

(** [C3] In every reachable state, no week has two blocks with the same
    (day, slotIndex) pair, and the same holds after any further call of a
    mutating operation. *)
Theorem slot_occupancy_invariant (s : State) :
  reachable LocalTZA toDateString s ->
  atMostOnePerSlot s /\ (forall s', step LocalTZA toDateString s s' -> atMostOnePerSlot s').
Proof.
  intros Hr. split.
  - by apply storeInv_atMostOnePerSlot, storeInv_reachable.
  - intros s' Hstep. apply storeInv_atMostOnePerSlot.
    eapply storeInv_step; [|exact Hstep]. by apply storeInv_reachable.
Qed.

(** ** Rolling balances *)

Section ArraySortFacts.
Context {A : Type} (R : relation A) `{!RelDecision R}.

Lemma sort_insert_Permutation (x : A) (l : list A) : sort_insert R x l ≡ₚ x :: l.
Proof.
  induction l as [|y l IH]; [done|]. cbn.
  destruct (decide (R x y)); [done|]. by rewrite IH, Permutation_swap.
Qed.

Lemma Array_sort_Permutation (l : list A) : Array_sort R l ≡ₚ l.
Proof.
  induction l as [|x l IH]; [done|]. cbn.
  by rewrite sort_insert_Permutation, IH.
Qed.

Lemma elem_of_Array_sort (x : A) (l : list A) : x ∈ Array_sort R l <-> x ∈ l.
Proof. by rewrite Array_sort_Permutation. Qed.

Context `{!Transitive R, !Total R}.

Lemma sort_insert_StronglySorted (x : A) (l : list A) :
  StronglySorted R l -> StronglySorted R (sort_insert R x l).
Proof.
  induction 1 as [|y l Hl IH Hy]; cbn.
  - repeat constructor.
  - destruct (decide (R x y)) as [Hxy|Hxy].
    + constructor; [by constructor|]. constructor; [done|].
      eapply Forall_impl; [exact Hy|]. intros z Hz. by etrans.
    + constructor; [done|]. rewrite sort_insert_Permutation.
      constructor; [|done]. by destruct (total R x y).
Qed.

Lemma Array_sort_StronglySorted (l : list A) : StronglySorted R (Array_sort R l).
Proof.
  induction l as [|x l IH]; cbn; [constructor|].
  by apply sort_insert_StronglySorted.
Qed.
End ArraySortFacts.

#[local] Instance weekKey_le_trans : Transitive weekKey_le.
Proof. intros a b c. unfold weekKey_le. apply transitivity. Qed.

#[local] Instance weekKey_le_total : Total weekKey_le.
Proof. intros a b. unfold weekKey_le. apply total, _. Qed.

Lemma sumQc_Permutation (l l' : list Qc) : l ≡ₚ l' -> sumQc l = sumQc l'.
Proof.
  unfold sumQc.
  induction 1 as [|x l l' _ IH|x y l|l l' l'' _ IH1 _ IH2]; cbn.
  - done.
  - by rewrite IH.
  - ring.
  - by rewrite IH1.
Qed.

Lemma sumQc_app (l k : list Qc) : sumQc (l ++ k) = (sumQc l + sumQc k)%Qc.
Proof.
  unfold sumQc. induction l as [|x l IH]; cbn; [ring|]. rewrite IH. ring.
Qed.

(** Over weeks sorted by key, the loop with its [break] and [continue]
    accumulates the weeks that count, in their order. *)
Lemma carryoverLoop_sorted (project : Project) (currentKey : string)
    (ws : list WeekData) (acc : Qc) :
  StronglySorted weekKey_le ws ->
  carryoverLoop project currentKey ws acc
  = foldl (carryStep project) acc (filter (priorNonEmpty currentKey) ws).
Proof.
  intros Hs. revert acc. induction Hs as [|w ws _ IH Hw]; intros acc; [done|].
  cbn [carryoverLoop].
  destruct (decide (String.le currentKey (weekKey w))) as [Hle|Hlt].
  - rewrite filter_cons_False by (by intros [? _]).
    rewrite (filter_Forall_nil (priorNonEmpty currentKey) ws); [done|].
    eapply Forall_impl; [exact Hw|]. intros w' Hww' [Hn _]. apply Hn.
    unfold weekKey_le in Hww'. by etrans.
  - destruct (decide (length (blocks w) = 0%nat)) as [Hnil|Hne].
    + rewrite filter_cons_False; [apply IH|].
      intros [_ Hb]. by destruct (blocks w).
    + rewrite filter_cons_True; [apply IH|].
      split; [done|]. intros Hb. by rewrite Hb in Hne.
Qed.

Lemma elem_of_calculateProjectBalances (s : State) (b : ProjectBalance) :
  b ∈ calculateProjectBalances LocalTZA toDateString s <->
  exists p, p ∈ projects (appData s)
    /\ b = projectBalance LocalTZA toDateString s
              (Array_sort weekKey_le (weeks (appData s))) p.
Proof.
  unfold calculateProjectBalances. rewrite elem_of_Array_sort.
  change (map ?f ?l) with (f <$> l). rewrite list_elem_of_fmap.
  split; intros (p & ? & ?); eauto.
Qed.

(** [Math.round] returns the integer nearest to its argument, a half
    being rounded up; no other integer is as near. *)
Lemma Math_round_spec (x : Qc) :
  (Q2Qc (inject_Z (Math_round x)) - Q2Qc (1 # 2) <= x)%Qc
  /\ (x < Q2Qc (inject_Z (Math_round x)) + Q2Qc (1 # 2))%Qc.
Proof.
  unfold Math_round. set (y := (x + Q2Qc (1 # 2))%Qc).
  assert (y == x + (1 # 2))%Q as Hy by (subst y; by rewrite this_Qcplus, this_Q2Qc).
  pose proof (Qfloor_le y) as L. pose proof (Qlt_floor y) as U.
  rewrite inject_Z_plus in U. change (inject_Z 1) with 1%Q in U.
  unfold Qcle, Qclt. rewrite this_Qcminus, this_Qcplus, !this_Q2Qc.
  split; lra.
Qed.

Lemma Math_round_unique (x : Qc) (n : Z) :
  (Q2Qc (inject_Z n) - Q2Qc (1 # 2) <= x)%Qc ->
  (x < Q2Qc (inject_Z n) + Q2Qc (1 # 2))%Qc ->
  n = Math_round x.
Proof.
  destruct (Math_round_spec x) as [L U]. revert L U.
  unfold Qcle, Qclt. rewrite !this_Qcminus, !this_Qcplus, !this_Q2Qc.
  intros L U L' U'.
  assert (inject_Z n < inject_Z (Math_round x) + 1)%Q as H1 by lra.
  assert (inject_Z (Math_round x) < inject_Z n + 1)%Q as H2 by lra.
  change 1%Q with (inject_Z 1) in H1, H2.
  rewrite <- inject_Z_plus, <- Zlt_Qlt in H1.
  rewrite <- inject_Z_plus, <- Zlt_Qlt in H2. lia.
Qed.

(** [C7] For every balance returned by [calculateProjectBalances]: when
    [effectiveAvailable > 0], [percentComplete] is the double
    [currentHours / effectiveAvailable * 100] rounded to the nearest
    integer, a half being rounded up, and capped at 100; it is 100 when
    [effectiveAvailable <= 0] and [currentHours > 0], and 0 when
    [effectiveAvailable <= 0] and [currentHours = 0]; it never exceeds
    100.  The division and the multiplication are those of doubles: each
    returns a double nearest to the exact result. *)
Theorem percentComplete_spec (s : State) (b : ProjectBalance) :
  b ∈ calculateProjectBalances LocalTZA toDateString s ->
  let currentHours := currentWeekLogged b in
  let available := effectiveAvailable b in
  let quotient := Number_mul (Number_div currentHours available) (Q2Qc 100) in
  currentHours = hoursLogged (project_id (project b))
                   (blocks (getCurrentWeekData LocalTZA toDateString s))
  /\ available = Number_add (weeklyHourTarget (project b)) (carryoverBalance b)
  /\ ((Q2Qc 0 < available)%Qc ->
      nearestDouble (currentHours / available)%Qc (Number_div currentHours available)
      /\ nearestDouble (Number_div currentHours available * Q2Qc 100)%Qc quotient
      /\ exists n : Z,
           percentComplete b = Z.min n 100
           /\ (Q2Qc (inject_Z n) - Q2Qc (1 # 2) <= quotient)%Qc
           /\ (quotient < Q2Qc (inject_Z n) + Q2Qc (1 # 2))%Qc)
  /\ ((available <= Q2Qc 0)%Qc -> (Q2Qc 0 < currentHours)%Qc -> percentComplete b = 100)
  /\ ((available <= Q2Qc 0)%Qc -> currentHours = Q2Qc 0 -> percentComplete b = 0)
  /\ percentComplete b <= 100.
Proof.
  intros (p & _ & ->)%elem_of_calculateProjectBalances.
  unfold projectBalance.
  cbn [currentWeekLogged effectiveAvailable percentComplete project carryoverBalance].
  cbn zeta. split_and!; [done|done|..].
  - intros Hpos. rewrite decide_True by done.
    split; [apply roundDouble_nearest|]. split; [apply roundDouble_nearest|].
    eexists. split; [done|]. apply Math_round_spec.
  - intros Hle Hcur. rewrite decide_False by by apply Qcle_not_lt.
    by rewrite decide_True.
  - intros Hle Hcur. rewrite decide_False by by apply Qcle_not_lt.
    rewrite Hcur. by rewrite decide_False.
  - lia.
Qed.

(** [C2] A project with a weekly target of 10 hours, exactly one earlier
    non-empty week, in which it logged 6 hours, and 5 hours logged in the
    current week has carry-over 4, 14 hours effectively available, 36
    percent complete and standing "under". *)
Theorem balance_scenario (s : State) (p : Project) (before after : list WeekData)
    (w : WeekData) :
  let currentKey := getCurrentWeekKey LocalTZA s in
  p ∈ projects (appData s) ->
  weeklyHourTarget p = Q2Qc 10 ->
  weeks (appData s) = before ++ w :: after ->
  priorNonEmpty currentKey w ->
  Forall (fun w' => ~ priorNonEmpty currentKey w') (before ++ after) ->
  hoursLogged (project_id p) (blocks w) = Q2Qc 6 ->
  hoursLogged (project_id p) (blocks (getCurrentWeekData LocalTZA toDateString s))
    = Q2Qc 5 ->
  (exists b, b ∈ calculateProjectBalances LocalTZA toDateString s /\ project b = p)
  /\ (forall b, b ∈ calculateProjectBalances LocalTZA toDateString s ->
        project b = p ->
        carryoverBalance b = Q2Qc 4
        /\ effectiveAvailable b = Q2Qc 14
        /\ percentComplete b = 36
        /\ standing b = under).
Proof.
  intros currentKey Hp Htarget Hweeks Hprior Hothers Hlogged Hcurrent. split.
  - exists (projectBalance LocalTZA toDateString s
              (Array_sort weekKey_le (weeks (appData s))) p).
    split; [|done]. apply elem_of_calculateProjectBalances. eauto.
  - intros b (q & _ & ->)%elem_of_calculateProjectBalances Hq.
    cbn [projectBalance project] in Hq. subst q.
    assert (carryoverLoop p currentKey (Array_sort weekKey_le (weeks (appData s)))
              (Q2Qc 0) = Q2Qc 4) as Hcarry.
    { rewrite carryoverLoop_sorted by (apply Array_sort_StronglySorted; apply _).
      assert (filter (priorNonEmpty currentKey)
                (Array_sort weekKey_le (weeks (appData s))) = [w]) as ->.
      { apply Permutation_singleton_r.
        rewrite Array_sort_Permutation, Hweeks.
        apply Forall_app in Hothers as [Hb Ha].
        rewrite filter_app, filter_cons_True by done.
        by rewrite !filter_Forall_nil by done. }
      cbn [foldl]. unfold carryStep. rewrite Htarget, Hlogged.
      apply Qc_is_canon. by vm_compute. }
    unfold projectBalance.
    cbn [carryoverBalance effectiveAvailable percentComplete standing].
    fold currentKey. unfold getCurrentWeekKey in currentKey. fold currentKey.
    rewrite Hcarry, Hcurrent, Htarget. split_and!.
    + done.
    + apply Qc_is_canon. by vm_compute.
    + by vm_compute.
    + by vm_compute.
Qed.

Lemma slotToTime_table :
  forallb (fun a => forallb (fun b => implb (a <? b)
                                        (negb (String.eqb (slotToTime a) (slotToTime b))))
                      (seqZ 0 25)) (seqZ 0 25) = true.
Proof. vm_compute. reflexivity. Qed.

(** [X4] The time labels of the grid are unambiguous: two different slot
    boundaries of the day, from slot 0 (7:00 AM) to the closing boundary
    [SLOTS_PER_DAY] (7:00 PM), never get the same label. *)
Theorem slotToTime_injective (i j : Z) :
  0 <= i <= SLOTS_PER_DAY -> 0 <= j <= SLOTS_PER_DAY ->
  slotToTime i = slotToTime j -> i = j.
Proof.
  assert (forall a b, 0 <= a -> a < b -> b <= 24 -> slotToTime a <> slotToTime b) as Hne.
  { intros a b Ha Hab Hb.
    pose proof slotToTime_table as T. apply Is_true_true_2 in T.
    rewrite forallb_True, Forall_forall in T.
    specialize (T a). rewrite elem_of_seqZ in T.
    specialize (T ltac:(lia)).
    rewrite forallb_True, Forall_forall in T.
    specialize (T b). rewrite elem_of_seqZ in T.
    specialize (T ltac:(lia)).
    destruct (a <? b) eqn:E; [|lia]. cbn in T.
    intros Heq. rewrite Heq, String.eqb_refl in T. exact T. }
  change SLOTS_PER_DAY with 24. intros Hi Hj Heq.
  destruct (Z.lt_trichotomy i j) as [Hlt|[Heq'|Hgt]]; [|done|].
  - by destruct (Hne i j ltac:(lia) Hlt ltac:(lia)).
  - by destruct (Hne j i ltac:(lia) Hgt ltac:(lia)).
Qed.

(** ** Week navigation *)

Lemma addDays_inverse (d : Date) (k : Z) :
  validDate d -> -365 <= k <= 365 -> addDays (addDays d k) (- k) = d.
Proof.
  intros [Hd _] Hk. destruct d as [y n ms]. cbn [fullYear dayInYear msInDay] in *.
  pose proof (DaysInYear_range y). pose proof (DaysInYear_range (y - 1)).
  unfold addDays at 2. cbn [fullYear dayInYear msInDay].
  destruct (n + k <? 0) eqn:E1; [|destruct (DaysInYear y <=? n + k) eqn:E2];
    unfold addDays; cbn [fullYear dayInYear msInDay];
    try replace (y + 1 - 1) with y by lia;
    repeat case_match; f_equal; lia.
Qed.

Lemma ensureCurrentWeek_frame (s : State) :
  let s' := ensureCurrentWeek LocalTZA toDateString s in
  currentMonday s' = currentMonday s
  /\ projects (appData s') = projects (appData s)
  /\ templates (appData s') = templates (appData s)
  /\ idSupply s' = idSupply s
  /\ weeks (appData s) `prefix_of` weeks (appData s')
  /\ is_Some (list_find (fun w => weekKey w = getCurrentWeekKey LocalTZA s')
                        (weeks (appData s'))).
Proof.
  cbn zeta. unfold ensureCurrentWeek, getCurrentWeekKey.
  destruct (list_find _ _) as [[i w]|] eqn:E.
  - rewrite E. split_and!; eauto.
  - cbn [with_weeks appData weeks currentMonday projects templates idSupply].
    split_and!; try done.
    + by apply prefix_app_r.
    + erewrite list_find_snoc_miss; eauto.
Qed.

Definition isMonday (d : Date) : Prop := validDate d /\ getDay d = 1.

(** [X5] [navigateWeek] moves the selected date by exactly seven days,
    forward or backward, so that a Monday is followed by a Monday; the
    projects and the templates are untouched and no stored week is lost. *)
Theorem navigateWeek_spec (direction : Z) (s : State) :
  isMonday (currentMonday s) ->
  direction = 1 \/ direction = -1 ->
  let s' := navigateWeek LocalTZA toDateString direction s in
  isMonday (currentMonday s')
  /\ localDay (currentMonday s') = localDay (currentMonday s) + 7 * direction
  /\ projects (appData s') = projects (appData s)
  /\ templates (appData s') = templates (appData s)
  /\ weeks (appData s) `prefix_of` weeks (appData s').
Proof.
  intros (Hv & Hmon) Hdir s'. subst s'. unfold navigateWeek.
  destruct (ensureCurrentWeek_frame
              (with_currentMonday s (addDays (currentMonday s) (direction * 7))))
    as (Hcm & Hp & Ht & _ & Hw & _).
  rewrite Hcm, Hp, Ht. cbn [with_currentMonday currentMonday appData] in *.
  destruct (addDays_spec (currentMonday s) (direction * 7) Hv ltac:(lia))
    as (Hv' & Hl & Hms').
  split_and!; try done.
  - split; [done|].
    unfold getDay in *. rewrite Hl. Z.div_mod_to_equations. lia.
  - lia.
Qed.

(** [X6] Going to the next week and back (or to the previous week and
    back) selects the day that was selected before and shows the same week
    data; the weeks created on the way are kept. *)
Theorem navigateWeek_round_trip (direction : Z) (s : State) :
  validDate (currentMonday s) ->
  direction = 1 \/ direction = -1 ->
  is_Some (list_find (fun w => weekKey w = getCurrentWeekKey LocalTZA s)
                     (weeks (appData s))) ->
  let s' := navigateWeek LocalTZA toDateString (- direction)
              (navigateWeek LocalTZA toDateString direction s) in
  localDay (currentMonday s') = localDay (currentMonday s)
  /\ getCurrentWeekData LocalTZA toDateString s' = getCurrentWeekData LocalTZA toDateString s
  /\ weeks (appData s) `prefix_of` weeks (appData s').
Proof.
  intros Hv Hdir [[i w] Hfind] s'. subst s'.
  pose proof (ensureCurrentWeek_frame
                (with_currentMonday s (addDays (currentMonday s) (direction * 7)))) as F1.
  cbn zeta in F1. fold (navigateWeek LocalTZA toDateString direction s) in F1.
  set (s1 := navigateWeek LocalTZA toDateString direction s) in *.
  pose proof (ensureCurrentWeek_frame
                (with_currentMonday s1 (addDays (currentMonday s1) (- direction * 7)))) as F2.
  cbn zeta in F2. fold (navigateWeek LocalTZA toDateString (- direction) s1) in F2.
  set (s2 := navigateWeek LocalTZA toDateString (- direction) s1) in *.
  cbn [with_currentMonday currentMonday appData weeks] in F1, F2.
  destruct F1 as (Hcm1 & _ & _ & _ & Hw1 & _), F2 as (Hcm2 & _ & _ & _ & Hw2 & _).
  assert (currentMonday s2 = currentMonday s) as Hback.
  { rewrite Hcm2, Hcm1. replace (- direction * 7) with (- (direction * 7)) by lia.
    apply addDays_inverse; [done|lia]. }
  assert (weeks (appData s) `prefix_of` weeks (appData s2)) as Hpre by (by etrans).
  split_and!; [by rewrite Hback| |done].
  unfold getCurrentWeekData. rewrite Hback.
  destruct Hpre as [l ->]. unfold getCurrentWeekKey in Hfind.
  by rewrite (list_find_app_l _ _ _ _ _ Hfind), Hfind.
Qed.

(** ** Edits of the selected week *)

Lemma filter_length_eq {A} (P : A -> Prop) `{!forall x, Decision (P x)} (l : list A) :
  length (filter P l) = length l -> filter P l = l.
Proof.
  intros Hlen. apply filter_Forall_id, Forall_forall. intros x Hx.
  destruct (decide (P x)) as [|Hn]; [done|].
  pose proof (length_filter_lt P l x Hx Hn). lia.
Qed.

Lemma filter_insert_same {A} (P : A -> Prop) `{!forall x, Decision (P x)}
    (l : list A) (i : nat) (x y : A) :
  l !! i = Some x -> ~ P x -> ~ P y -> filter P (<[i := y]> l) = filter P l.
Proof.
  intros Hi Hx Hy.
  rewrite insert_take_drop by (by eapply lookup_lt_Some).
  rewrite <- (take_drop_middle l i x Hi) at 3.
  by rewrite !filter_app, !filter_cons_False.
Qed.

Lemma otherWeeks_updateWeekInState (w : WeekData) (s : State) :
  weekKey w = getCurrentWeekKey LocalTZA s ->
  otherWeeks LocalTZA (updateWeekInState w s) = otherWeeks LocalTZA s.
Proof.
  intros Hk. unfold otherWeeks, updateWeekInState, getCurrentWeekKey in *.
  destruct (list_find _ _) as [[i x]|] eqn:E;
    cbn [with_weeks appData weeks currentMonday].
  - apply list_find_Some in E as (Hi & Hx & _).
    eapply filter_insert_same; [exact Hi|..]; intros Hne; apply Hne; congruence.
  - rewrite filter_app, filter_cons_False, filter_nil, app_nil_r; [done|].
    intros Hne. by apply Hne.
Qed.

Lemma otherWeeks_supply (s : State) (n : nat) :
  otherWeeks LocalTZA (mkState (appData s) (currentMonday s) n) = otherWeeks LocalTZA s.
Proof. done. Qed.

(** [X7] The calls that edit time blocks ([addTimeBlock], [addTimeBlocks],
    [removeTimeBlocksInRange], [removeTimeBlock], [updateTimeBlockProject],
    [applyTemplate]) touch the selected week only: every other stored week,
    the projects, the templates and the selected Monday stay as they are. *)
Theorem currentWeekOp_frame (s s' : State) :
  currentWeekOp LocalTZA toDateString s s' ->
  otherWeeks LocalTZA s' = otherWeeks LocalTZA s
  /\ projects (appData s') = projects (appData s)
  /\ templates (appData s') = templates (appData s)
  /\ currentMonday s' = currentMonday s.
Proof.
  assert (forall w s0 n,
            weekKey w = getCurrentWeekKey LocalTZA s0 ->
            let s1 := updateWeekInState w (mkState (appData s0) (currentMonday s0) n) in
            otherWeeks LocalTZA s1 = otherWeeks LocalTZA s0
            /\ projects (appData s1) = projects (appData s0)
            /\ templates (appData s1) = templates (appData s0)
            /\ currentMonday s1 = currentMonday s0) as Hupd.
  { intros w s0 n Hk s1. subst s1.
    destruct (updateWeekInState_frame w (mkState (appData s0) (currentMonday s0) n))
      as (_ & -> & -> & ->).
    by rewrite otherWeeks_updateWeekInState. }
  assert (forall w s0,
            weekKey w = getCurrentWeekKey LocalTZA s0 ->
            let s1 := updateWeekInState w s0 in
            otherWeeks LocalTZA s1 = otherWeeks LocalTZA s0
            /\ projects (appData s1) = projects (appData s0)
            /\ templates (appData s1) = templates (appData s0)
            /\ currentMonday s1 = currentMonday s0) as Hupd0.
  { intros w s0 Hk. specialize (Hupd w s0 (idSupply s0) Hk). by destruct s0. }
  pose proof (weekKey_getCurrentWeekData s) as Hkey.
  intros Hop. destruct Hop.
  - destruct (decide (slotOccupied d i
                        (blocks (getCurrentWeekData LocalTZA toDateString s)))).
    + by rewrite addTimeBlock_occupied.
    + rewrite addTimeBlock_free by done. by apply Hupd.
  - rewrite addTimeBlocks_eq. by apply Hupd.
  - unfold removeTimeBlocksInRange. destruct (decide _); [|done]. by apply Hupd0.
  - by apply Hupd0.
  - unfold updateTimeBlockProject. destruct (list_find _ _) as [[? ?]|]; [|done].
    by apply Hupd0.
  - unfold applyTemplate. destruct (list_find _ _) as [[? ?]|]; [|done].
    rewrite applyTemplate_loop_spec. by apply Hupd.
Qed.

(** ** One stored week per key *)

Lemma weekKeys_updateWeekInState (w : WeekData) (s : State) :
  NoDup (weekKey <$> weeks (appData s)) ->
  NoDup (weekKey <$> weeks (appData (updateWeekInState w s))).
Proof.
  intros Hnd. unfold updateWeekInState.
  destruct (list_find _ _) as [[i x]|] eqn:E; cbn [with_weeks appData weeks].
  - apply list_find_Some in E as (Hi & Hx & _).
    rewrite list_fmap_insert, list_insert_id; [done|].
    by rewrite list_lookup_fmap, Hi, <- Hx.
  - apply list_find_None in E. rewrite fmap_app. apply NoDup_app.
    split_and!; [done| |apply NoDup_singleton].
    intros k (x & -> & Hx)%list_elem_of_fmap Hk.
    apply list_elem_of_singleton in Hk. rewrite Forall_forall in E. by eapply E.
Qed.

Lemma weekKeys_ensureCurrentWeek (s : State) :
  NoDup (weekKey <$> weeks (appData s)) ->
  NoDup (weekKey <$> weeks (appData (ensureCurrentWeek LocalTZA toDateString s))).
Proof.
  intros Hnd. unfold ensureCurrentWeek.
  destruct (list_find _ _) as [[i x]|] eqn:E; [done|].
  cbn [with_weeks appData weeks].
  apply list_find_None in E. rewrite fmap_app. apply NoDup_app.
  split_and!; [done| |apply NoDup_singleton].
  intros k (x & -> & Hx)%list_elem_of_fmap Hk.
  apply list_elem_of_singleton in Hk. rewrite Forall_forall in E. by eapply E.
Qed.

Lemma weekKeys_step (s s' : State) :
  NoDup (weekKey <$> weeks (appData s)) -> step LocalTZA toDateString s s' ->
  NoDup (weekKey <$> weeks (appData s')).
Proof.
  intros Hnd Hstep. destruct Hstep.
  - unfold initState. apply weekKeys_ensureCurrentWeek. constructor.
  - unfold initState. apply weekKeys_ensureCurrentWeek. by destruct (decide _).
  - by apply weekKeys_ensureCurrentWeek.
  - by apply weekKeys_ensureCurrentWeek.
  - done.
  - done.
  - unfold updateProject. by destruct (list_find _ _) as [[? ?]|].
  - cbn [deleteProject with_weeks with_projects appData weeks].
    change (map ?f ?l) with (f <$> l). by rewrite <- list_fmap_compose.
  - destruct (decide (slotOccupied d i
                        (blocks (getCurrentWeekData LocalTZA toDateString s)))).
    + by rewrite addTimeBlock_occupied.
    + rewrite addTimeBlock_free by done. by apply weekKeys_updateWeekInState.
  - rewrite addTimeBlocks_eq. by apply weekKeys_updateWeekInState.
  - unfold removeTimeBlocksInRange. destruct (decide _); [|done].
    by apply weekKeys_updateWeekInState.
  - by apply weekKeys_updateWeekInState.
  - unfold updateTimeBlockProject. destruct (list_find _ _) as [[? ?]|]; [|done].
    by apply weekKeys_updateWeekInState.
  - done.
  - unfold applyTemplate. destruct (list_find _ _) as [[? ?]|]; [|done].
    rewrite applyTemplate_loop_spec. by apply weekKeys_updateWeekInState.
  - done.
Qed.

(** [X8] In every reachable state the store holds at most one week per
    week key, so [getWeekDataByKey] returns the only week with the key:
    any stored week is the one found under its own key. *)
Theorem weekKeys_unique (s : State) :
  reachable LocalTZA toDateString s ->
  NoDup (weekKey <$> weeks (appData s))
  /\ (forall w, w ∈ weeks (appData s) -> getWeekDataByKey (weekKey w) s = Some w).
Proof.
  intros Hr.
  assert (NoDup (weekKey <$> weeks (appData s))) as Hnd.
  { induction Hr as [now|s s' _ IH Hstep]; [constructor|by eapply weekKeys_step]. }
  split; [done|]. intros w Hw. unfold getWeekDataByKey.
  destruct (list_find _ _) as [[i x]|] eqn:E.
  - apply list_find_Some in E as (Hi & Hx & _). cbn. f_equal.
    apply list_elem_of_lookup_1 in Hw as [j Hj].
    assert (i = j); [|congruence].
    eapply NoDup_lookup; [exact Hnd|..]; rewrite list_lookup_fmap.
    + by rewrite Hi.
    + rewrite Hj. cbn. by rewrite Hx.
  - apply list_find_None in E. rewrite Forall_forall in E. by destruct (E w Hw).
Qed.

(** ** Removing blocks *)

Lemma with_blocks_eta (w : WeekData) : with_blocks w (blocks w) = w.
Proof. by destruct w. Qed.

Lemma getCurrentWeekData_removeTimeBlocksInRange (d : DayOfWeek) (a b : Z) (s : State) :
  blocks (getCurrentWeekData LocalTZA toDateString
            (removeTimeBlocksInRange LocalTZA toDateString d a b s))
  = filter (fun x => ~ inSlotRange d (Z.min a b) (Z.max a b) x)
           (blocks (getCurrentWeekData LocalTZA toDateString s)).
Proof.
  unfold removeTimeBlocksInRange.
  set (week := getCurrentWeekData LocalTZA toDateString s).
  destruct (decide _) as [Hne|Heq]; cbn [with_blocks blocks] in *.
  - rewrite getCurrentWeekData_updateWeekInState.
    + cbn [blocks]. by apply list_filter_iff.
    + cbn [weekKey]. apply weekKey_getCurrentWeekData.
  - apply dec_stable in Heq. apply filter_length_eq in Heq. fold week.
    rewrite <- Heq at 1. by apply list_filter_iff.
Qed.

Lemma getCurrentWeekData_removeTimeBlock (blockId : Id) (s : State) :
  blocks (getCurrentWeekData LocalTZA toDateString
            (removeTimeBlock LocalTZA toDateString blockId s))
  = filter (fun x => block_id x <> blockId)
           (blocks (getCurrentWeekData LocalTZA toDateString s)).
Proof.
  unfold removeTimeBlock.
  rewrite getCurrentWeekData_updateWeekInState; [done|].
  cbn [with_blocks weekKey]. apply weekKey_getCurrentWeekData.
Qed.

(** [X9] [removeTimeBlocksInRange] removes from the selected week exactly
    the blocks of the given day whose slot lies between the two bounds, in
    either order of the bounds, and keeps the others in their order; when
    no block lies in the range the state is returned unchanged. *)
Theorem removeTimeBlocksInRange_spec (d : DayOfWeek) (a b : Z) (s : State) :
  let week := getCurrentWeekData LocalTZA toDateString s in
  let s' := removeTimeBlocksInRange LocalTZA toDateString d a b s in
  blocks (getCurrentWeekData LocalTZA toDateString s')
    = filter (fun x => ~ inSlotRange d (Z.min a b) (Z.max a b) x) (blocks week)
  /\ (Forall (fun x => ~ inSlotRange d (Z.min a b) (Z.max a b) x) (blocks week) -> s' = s)
  /\ removeTimeBlocksInRange LocalTZA toDateString d b a s = s'.
Proof.
  intros week s'. subst s' week. split_and!.
  - apply getCurrentWeekData_removeTimeBlocksInRange.
  - intros Hall. unfold removeTimeBlocksInRange.
    rewrite decide_False; [done|]. cbn [with_blocks blocks]. intros Hne. apply Hne.
    f_equal. apply filter_Forall_id. eapply Forall_impl; [exact Hall|]. by intros.
  - unfold removeTimeBlocksInRange. by rewrite (Z.min_comm b a), (Z.max_comm b a).
Qed.

(** ** How the edits of a week compose *)

Lemma rangeBlocks_entries p d n slot supply supply' :
  toTemplateBlock <$> rangeBlocks p d n slot supply
  = toTemplateBlock <$> rangeBlocks p d n slot supply'.
Proof.
  revert slot supply supply'. induction n as [|n IH]; intros; [done|].
  cbn [rangeBlocks]. rewrite !fmap_cons. f_equal. apply IH.
Qed.

Lemma rangeBlocks_inSlotRange p d (lo hi : Z) supply :
  Forall (inSlotRange d lo hi) (rangeBlocks p d (Z.to_nat (hi - lo + 1)) lo supply).
Proof.
  eapply Forall_impl; [apply rangeBlocks_Forall|]. cbn.
  unfold inSlotRange. intros x (? & ? & ? & ?). split_and!; (done || lia).
Qed.

Lemma filter_out_range_app (d : DayOfWeek) (lo hi : Z) (old fresh : list TimeBlock) :
  Forall (inSlotRange d lo hi) fresh ->
  filter (fun x => ~ inSlotRange d lo hi x)
         (filter (fun x => ~ inSlotRange d lo hi x) old ++ fresh)
  = filter (fun x => ~ inSlotRange d lo hi x) old.
Proof.
  intros Hfresh. rewrite filter_app, list_filter_filter.
  rewrite (filter_Forall_nil _ fresh), app_nil_r.
  - apply list_filter_iff. intros x; split; [by intros [? ?] | by intros ?].
  - eapply Forall_impl; [exact Hfresh|]. cbn. intros x Hx Hn. by apply Hn.
Qed.

(** [X10] Filling a range and then clearing the same range leaves the
    selected week as if the range had only been cleared: the blocks
    outside the range survive both calls, in their order. *)
Theorem add_then_remove_range (p : Id) (d : DayOfWeek) (a b : Z) (s : State) :
  let added := (addTimeBlocks LocalTZA toDateString p d a b s).2 in
  blocks (getCurrentWeekData LocalTZA toDateString
            (removeTimeBlocksInRange LocalTZA toDateString d a b added))
  = blocks (getCurrentWeekData LocalTZA toDateString
              (removeTimeBlocksInRange LocalTZA toDateString d a b s)).
Proof.
  intros added. subst added.
  rewrite !getCurrentWeekData_removeTimeBlocksInRange.
  rewrite getCurrentWeekData_addTimeBlocks.
  apply filter_out_range_app, rangeBlocks_inSlotRange.
Qed.

(** [X11] Filling the same range twice for the same project gives the
    same week as filling it once, up to the identifiers of the blocks. *)
Theorem addTimeBlocks_twice (p : Id) (d : DayOfWeek) (a b : Z) (s : State) :
  let once := (addTimeBlocks LocalTZA toDateString p d a b s).2 in
  let twice := (addTimeBlocks LocalTZA toDateString p d a b once).2 in
  toTemplateBlock <$> blocks (getCurrentWeekData LocalTZA toDateString twice)
  = toTemplateBlock <$> blocks (getCurrentWeekData LocalTZA toDateString once).
Proof.
  intros once twice. subst once twice.
  rewrite !getCurrentWeekData_addTimeBlocks.
  rewrite filter_out_range_app by apply rangeBlocks_inSlotRange.
  rewrite !fmap_app. f_equal. apply rangeBlocks_entries.
Qed.

(** [X12] After a range has been filled, the non-destructive
    [addTimeBlock] refuses every slot of the range, for any project: it
    returns [null] and changes nothing. *)
Theorem addTimeBlock_after_range (p q : Id) (d : DayOfWeek) (a b i : Z) (s : State) :
  Z.min a b <= i <= Z.max a b ->
  let filled := (addTimeBlocks LocalTZA toDateString p d a b s).2 in
  addTimeBlock LocalTZA toDateString q d i filled = (None, filled).
Proof.
  intros Hi filled. apply addTimeBlock_occupied. subst filled.
  rewrite getCurrentWeekData_addTimeBlocks. unfold slotOccupied.
  apply Exists_app. right. apply Exists_exists.
  assert (i ∈ slotIndex <$> rangeBlocks p d (Z.to_nat (Z.max a b - Z.min a b + 1))
                              (Z.min a b) (idSupply s)) as Hin.
  { change (?f <$> ?l) with (map f l). rewrite rangeBlocks_slots.
    apply elem_of_seqZ. lia. }
  apply list_elem_of_fmap in Hin as (x & -> & Hx). exists x. split; [done|].
  split; [|done].
  pose proof (rangeBlocks_Forall p d (Z.to_nat (Z.max a b - Z.min a b + 1))
                (Z.min a b) (idSupply s)) as HF.
  rewrite Forall_forall in HF. by destruct (HF x Hx) as (_ & ? & _).
Qed.

(** [X13] [removeTimeBlock] removes from the selected week every block
    with the given identifier and keeps the others in their order; with an
    unknown identifier the blocks of the week stay as they are. *)
Theorem removeTimeBlock_spec (blockId : Id) (s : State) :
  let week := getCurrentWeekData LocalTZA toDateString s in
  let week' := getCurrentWeekData LocalTZA toDateString
                 (removeTimeBlock LocalTZA toDateString blockId s) in
  blocks week' = filter (fun x => block_id x <> blockId) (blocks week)
  /\ Forall (fun x => block_id x <> blockId) (blocks week')
  /\ (Forall (fun x => block_id x <> blockId) (blocks week) -> blocks week' = blocks week).
Proof.
  intros week week'.
  assert (blocks week' = filter (fun x => block_id x <> blockId) (blocks week)) as Heq.
  { apply getCurrentWeekData_removeTimeBlock. }
  split_and!; [done|..].
  - rewrite Heq. apply Forall_forall. by intros x [? _]%list_elem_of_filter.
  - intros Hall. rewrite Heq. by apply filter_Forall_id.
Qed.

(** [X14] Inserting a block with [addTimeBlock] and removing the block it
    returned restores the blocks of the week, provided the identifiers of
    the week were drawn from the supply. *)
Theorem addTimeBlock_removeTimeBlock (p : Id) (d : DayOfWeek) (i : Z) (s : State)
    (block : TimeBlock) (s' : State) :
  Forall (fun x => (block_id x < idSupply s)%nat)
         (blocks (getCurrentWeekData LocalTZA toDateString s)) ->
  addTimeBlock LocalTZA toDateString p d i s = (Some block, s') ->
  blocks (getCurrentWeekData LocalTZA toDateString
            (removeTimeBlock LocalTZA toDateString (block_id block) s'))
  = blocks (getCurrentWeekData LocalTZA toDateString s).
Proof.
  intros Hids Hadd.
  destruct (decide (slotOccupied d i
                      (blocks (getCurrentWeekData LocalTZA toDateString s)))) as [Ho|Hf].
  { by rewrite addTimeBlock_occupied in Hadd. }
  rewrite addTimeBlock_free in Hadd by done. injection Hadd as <- <-.
  rewrite getCurrentWeekData_removeTimeBlock.
  rewrite getCurrentWeekData_updateWeekInState
    by (cbn [with_blocks weekKey]; by rewrite weekKey_getCurrentWeekData).
  cbn [with_blocks blocks block_id].
  rewrite filter_app, filter_cons_False, filter_nil, app_nil_r by (intros Hne; by apply Hne).
  apply filter_Forall_id. eapply Forall_impl; [exact Hids|]. cbn. lia.
Qed.

(** [X15] [updateTimeBlockProject] returns the state unchanged when no
    block of the selected week has the identifier.  Otherwise it changes
    the project of the first such block and nothing else: the identifiers,
    days and slots of all blocks, and every other block, stay as they are. *)
Theorem updateTimeBlockProject_spec (blockId p : Id) (s : State) :
  let week := getCurrentWeekData LocalTZA toDateString s in
  let s' := updateTimeBlockProject LocalTZA toDateString blockId p s in
  let week' := getCurrentWeekData LocalTZA toDateString s' in
  (Forall (fun x => block_id x <> blockId) (blocks week) -> s' = s)
  /\ (forall i b,
        list_find (fun x => block_id x = blockId) (blocks week) = Some (i, b) ->
        blocks week' !! i = Some (mkTimeBlock blockId p (day b) (slotIndex b))
        /\ (forall j, j <> i -> blocks week' !! j = blocks week !! j)
        /\ block_id <$> blocks week' = block_id <$> blocks week
        /\ slotKey <$> blocks week' = slotKey <$> blocks week).
Proof.
  intros week s' week'. split.
  - intros Hall. subst s'. unfold updateTimeBlockProject. fold week.
    by rewrite (proj2 (list_find_None _ _) Hall).
  - intros i b Hfind. subst week' s'. unfold updateTimeBlockProject. fold week.
    rewrite Hfind.
    rewrite getCurrentWeekData_updateWeekInState
      by (cbn [with_blocks weekKey]; apply weekKey_getCurrentWeekData).
    cbn [with_blocks blocks].
    apply list_find_Some in Hfind as (Hi & Hid & _).
    split_and!.
    + rewrite list_lookup_insert_eq by (by eapply lookup_lt_Some).
      unfold with_projectId. by rewrite Hid.
    + intros j Hj. by rewrite list_lookup_insert_ne.
    + rewrite list_fmap_insert. apply list_insert_id.
      by rewrite list_lookup_fmap, Hi.
    + rewrite list_fmap_insert. apply list_insert_id.
      by rewrite list_lookup_fmap, Hi.
Qed.

(** ** The project registry *)

Lemma nextColorIndex_spec (fuel : nat) (used : list nat) (c : nat) :
  let r := nextColorIndex fuel used c in
  (c <= r <= c + fuel)%nat
  /\ (forall j, (c <= j < r)%nat -> j ∈ used /\ (j < PROJECT_PALETTE_length)%nat)
  /\ ((r < c + fuel)%nat -> ~ (r ∈ used /\ (r < PROJECT_PALETTE_length)%nat)).
Proof.
  revert c. induction fuel as [|fuel IH]; intros c; cbn [nextColorIndex].
  - split; [lia|split; [intros; lia|lia]].
  - destruct (decide _) as [Hin|Hout].
    + specialize (IH (S c)). cbn zeta in IH. destruct IH as (Hr & Hbelow & Hstop).
      split; [lia|split; [|intros; apply Hstop; lia]].
      intros j Hj. destruct (decide (j = c)) as [->|]; [done|]. apply Hbelow. lia.
    + split; [lia|split; [intros; lia|done]].
Qed.

(** [X16] [addProject] appends one project whose identifier is the next of
    the supply and whose colour index lies within the palette.  While some
    palette index is unused, the new project gets the lowest unused one,
    hence a colour no existing project has; once all are used, it gets the
    number of existing projects modulo the size of the palette. *)
Theorem addProject_spec (name0 : string) (target : Qc) (prio : Priority) (s : State) :
  let used := colorIndex <$> projects (appData s) in
  let r := addProject name0 target prio s in
  projects (appData r.2) = projects (appData s) ++ [r.1]
  /\ project_id r.1 = idSupply s
  /\ idSupply r.2 = S (idSupply s)
  /\ weeks (appData r.2) = weeks (appData s)
  /\ (colorIndex r.1 < PROJECT_PALETTE_length)%nat
  /\ (forall j, (j < PROJECT_PALETTE_length)%nat -> j ∉ used ->
        (colorIndex r.1 ∉ used) /\ (forall i, (i < colorIndex r.1)%nat -> i ∈ used))
  /\ ((forall j, (j < PROJECT_PALETTE_length)%nat -> j ∈ used) ->
        colorIndex r.1
        = (length (projects (appData s)) mod PROJECT_PALETTE_length)%nat).
Proof.
  intros used r. subst r. unfold addProject.
  change (map colorIndex (projects (appData s))) with used.
  destruct (nextColorIndex_spec PROJECT_PALETTE_length used 0) as (Hr & Hbelow & Hstop).
  cbn zeta in *. set (c := nextColorIndex PROJECT_PALETTE_length used 0) in *.
  cbn [generateId fst snd with_projects appData projects project_id colorIndex
       idSupply weeks].
  split_and!; try done.
  - destruct (decide _); [|lia]. apply Nat.mod_upper_bound. done.
  - intros j Hj Hfree. destruct (decide (PROJECT_PALETTE_length <= c)%nat) as [Hfull|Hok].
    { destruct Hfree. apply Hbelow. lia. }
    split.
    + intros Hin. apply Hstop; [lia|]. split; [done|lia].
    + intros i Hi. apply Hbelow. lia.
  - intros Hall. destruct (decide _) as [|Hok]; [done|].
    destruct Hstop; [lia|]. split; [apply Hall|]; lia.
Qed.

(** [X17] [updateProject] returns the state unchanged when no project has
    the identifier.  Otherwise it merges the given fields into the first
    such project; no identifier of the registry changes, so every block
    keeps referring to the project it referred to, and the weeks and
    templates are untouched. *)
Theorem updateProject_spec (id : Id) (updates : ProjectUpdates) (s : State) :
  let s' := updateProject id updates s in
  (Forall (fun p => project_id p <> id) (projects (appData s)) -> s' = s)
  /\ (forall p, getProjectById id s = Some p ->
        getProjectById id s' = Some (assignProject p updates))
  /\ project_id <$> projects (appData s') = project_id <$> projects (appData s)
  /\ weeks (appData s') = weeks (appData s)
  /\ templates (appData s') = templates (appData s)
  /\ (noOrphans s -> noOrphans s').
Proof.
  intros s'. subst s'. unfold updateProject, getProjectById.
  destruct (list_find _ _) as [[i p]|] eqn:E.
  - assert (project_id <$> <[i:=assignProject p updates]> (projects (appData s))
            = project_id <$> projects (appData s)) as Hids.
    { apply list_find_Some in E as (Hi & _).
      rewrite list_fmap_insert. apply list_insert_id.
      by rewrite list_lookup_fmap, Hi. }
    split_and!; try done.
    + intros Hall. apply (proj2 (list_find_None _ _)) in Hall. congruence.
    + intros p' [= <-]. cbn [with_projects appData projects].
      erewrite list_find_insert_hit; [done|exact E|].
      cbn. by apply list_find_Some in E as (_ & ? & _).
    + unfold noOrphans. cbn [with_projects appData projects weeks].
      intros Hall. eapply Forall_impl; [exact Hall|]. intros w Hw.
      eapply Forall_impl; [exact Hw|]. intros b Hb. cbn in Hb |- *.
      apply Exists_exists in Hb as (q & Hq & Heq).
      assert (projectId b ∈ project_id <$> projects (appData s)) as Hin.
      { apply list_elem_of_fmap. eauto. }
      rewrite <- Hids in Hin. apply list_elem_of_fmap in Hin as (q' & ? & ?).
      apply Exists_exists. eauto.
  - split_and!; try done.
Qed.

Lemma deleteProject_twice (id : Id) (s : State) :
  deleteProject id (deleteProject id s) = deleteProject id s.
Proof.
  destruct s as [[ps ws ts g] cm sup]. unfold deleteProject, with_weeks, with_projects.
  cbn [appData projects weeks templates weeklyHourGoal currentMonday idSupply].
  change (map ?f ?l) with (f <$> l). f_equal. f_equal.
  - rewrite list_filter_filter. apply list_filter_iff. intros x; split; [by intros [? ?] | by intros ?].
  - rewrite <- list_fmap_compose. apply list_fmap_ext. intros i w _.
    cbn [compose with_blocks blocks weekKey startDate]. f_equal.
    rewrite list_filter_filter. apply list_filter_iff. intros x; split; [by intros [? ?] | by intros ?].
Qed.

(** [X18] [deleteProject] keeps everything that does not belong to the
    deleted project: the other projects in their order, the stored weeks
    with their keys, in each week the blocks of the other projects in
    their order, and the templates.  Deleting the same project twice is
    the same as deleting it once. *)
Theorem deleteProject_frame (id : Id) (s : State) :
  let s' := deleteProject id s in
  projects (appData s') = filter (fun p => project_id p <> id) (projects (appData s))
  /\ templates (appData s') = templates (appData s)
  /\ weekKey <$> weeks (appData s') = weekKey <$> weeks (appData s)
  /\ (forall i w, weeks (appData s) !! i = Some w ->
        exists w', weeks (appData s') !! i = Some w'
          /\ blocks w' = filter (fun b => projectId b <> id) (blocks w)
          /\ forall q, q <> id ->
               filter (fun b => projectId b = q) (blocks w')
               = filter (fun b => projectId b = q) (blocks w))
  /\ deleteProject id s' = s'.
Proof.
  intros s'. split_and!; [done|done|..|apply deleteProject_twice].
  - subst s'. unfold deleteProject. cbn [with_weeks with_projects appData weeks].
    change (map ?f ?l) with (f <$> l). by rewrite <- list_fmap_compose.
  - intros i w Hi. subst s'. unfold deleteProject.
    cbn [with_weeks with_projects appData weeks].
    change (map ?f ?l) with (f <$> l).
    eexists. rewrite list_lookup_fmap, Hi. cbn [fmap option_fmap option_map].
    split; [done|]. cbn [with_blocks blocks]. split; [done|].
    intros q Hq. rewrite list_filter_filter. apply list_filter_iff.
    intros b. split; [tauto|]. intros ->. done.
Qed.

(** ** Uniqueness of the identifiers along a run *)

Lemma NoDup_snoc_fresh (ids : list nat) (n : nat) :
  NoDup ids -> Forall (fun i => (i < n)%nat) ids -> NoDup (ids ++ [n]).
Proof.
  intros Hnd Hlt. apply NoDup_app. split_and!; [done| |apply NoDup_singleton].
  intros i Hi Hn. apply list_elem_of_singleton in Hn. subst i.
  rewrite Forall_forall in Hlt. specialize (Hlt n Hi). lia.
Qed.

Lemma NoDup_app_fresh (ids : list nat) (n k : nat) :
  NoDup ids -> Forall (fun i => (i < n)%nat) ids -> NoDup (ids ++ seq n k).
Proof.
  intros Hnd Hlt. apply NoDup_app. split_and!; [done| |apply NoDup_seq].
  intros i Hi Hn. apply elem_of_seq in Hn.
  rewrite Forall_forall in Hlt. specialize (Hlt i Hi). lia.
Qed.

Lemma rangeBlocks_ids p d n slot supply :
  block_id <$> rangeBlocks p d n slot supply = seq supply n.
Proof.
  revert slot supply. induction n as [|n IH]; intros; [done|].
  cbn [rangeBlocks]. by rewrite fmap_cons, IH.
Qed.

Lemma NoDup_fmap_filter {A B} (f : A -> B) (P : A -> Prop) `{!forall x, Decision (P x)}
    (l : list A) :
  NoDup (f <$> l) -> NoDup (f <$> filter P l).
Proof.
  intros Hnd. eapply sublist_NoDup; [exact Hnd|]. apply fmap_sublist, sublist_filter.
Qed.

Lemma idsUnique_supply (s : State) (n : nat) :
  idsUnique s -> (idSupply s <= n)%nat ->
  idsUnique (mkState (appData s) (currentMonday s) n).
Proof.
  intros (Hp & ? & ? & ?) Hle. split_and!; try done. cbn [appData idSupply].
  eapply Forall_impl; [exact Hp|]. cbn. lia.
Qed.

Lemma idsUnique_updateWeekInState (w : WeekData) (s : State) :
  idsUnique s -> NoDup (block_id <$> blocks w) -> idsUnique (updateWeekInState w s).
Proof.
  intros (Hp & Hpn & Ht & Hw) Hnd. unfold idsUnique, updateWeekInState.
  destruct (list_find _ _) as [[i x]|];
    cbn [with_weeks appData weeks templates projects idSupply]; split_and!; try done.
  - by apply Forall_insert.
  - apply Forall_app. split; [done|]. by constructor.
Qed.

Lemma idsUnique_ensureCurrentWeek (s : State) :
  idsUnique s -> idsUnique (ensureCurrentWeek LocalTZA toDateString s).
Proof.
  intros (Hp & Hpn & Ht & Hw). unfold ensureCurrentWeek.
  destruct (list_find _ _) as [[i x]|]; [done|].
  split_and!; try done. cbn [with_weeks appData weeks].
  apply Forall_app. split; [done|]. constructor; [apply NoDup_nil_2|done].
Qed.

Lemma idsUnique_step (s s' : State) :
  idsBelowSupply s -> idsUnique s -> step LocalTZA toDateString s s' -> idsUnique s'.
Proof.
  intros Hbelow Hinv Hstep.
  pose proof (idsBelowSupply_getCurrentWeekData s Hbelow) as Hcur.
  assert (NoDup (block_id <$> blocks (getCurrentWeekData LocalTZA toDateString s)))
    as Hcurnd.
  { destruct Hinv as (_ & _ & _ & Hw). unfold getCurrentWeekData.
    destruct (list_find _ _) as [[i w]|] eqn:E; [|apply NoDup_nil_2].
    apply list_find_Some in E as (Hi & _).
    rewrite Forall_forall in Hw. eapply Hw, list_elem_of_lookup_2, Hi. }
  assert (Forall (fun i => (i < idSupply s)%nat)
            (block_id <$> blocks (getCurrentWeekData LocalTZA toDateString s))) as Hcur'.
  { by apply Forall_fmap. }
  destruct Hstep.
  - unfold initState. apply idsUnique_ensureCurrentWeek.
    split_and!; constructor.
  - unfold initState. apply idsUnique_ensureCurrentWeek. by destruct (decide _).
  - by apply idsUnique_ensureCurrentWeek.
  - by apply idsUnique_ensureCurrentWeek.
  - done.
  - destruct Hinv as (Hp & Hpn & Ht & Hw). unfold idsUnique.
    cbn [addProject generateId snd with_projects appData projects templates weeks
         idSupply].
    split_and!; try done.
    + apply Forall_app. split; [|constructor; [cbn; lia|constructor]].
      eapply Forall_impl; [exact Hp|]. cbn. lia.
    + rewrite fmap_app. apply NoDup_snoc_fresh; [done|]. by apply Forall_fmap.
  - destruct Hinv as (Hp & Hpn & Ht & Hw). unfold updateProject.
    destruct (list_find _ _) as [[i p]|] eqn:E; [|done].
    apply list_find_Some in E as (Hi & _).
    unfold idsUnique. cbn [with_projects appData projects templates weeks idSupply].
    split_and!; try done.
    + apply Forall_insert; [done|]. cbn.
      rewrite Forall_forall in Hp. eapply Hp, list_elem_of_lookup_2, Hi.
    + rewrite list_fmap_insert, list_insert_id; [done|].
      by rewrite list_lookup_fmap, Hi.
  - destruct Hinv as (Hp & Hpn & Ht & Hw).
    unfold idsUnique.
    cbn [deleteProject with_weeks with_projects appData projects templates weeks
         idSupply].
    split_and!; try done.
    + apply Forall_forall. intros x [_ Hx]%list_elem_of_filter.
      rewrite Forall_forall in Hp. by apply Hp.
    + by apply NoDup_fmap_filter.
    + apply Forall_fmap. eapply Forall_impl; [exact Hw|]. intros w Hnd.
      cbn [compose with_blocks blocks]. by apply NoDup_fmap_filter.
  - destruct (decide (slotOccupied d i
                        (blocks (getCurrentWeekData LocalTZA toDateString s)))).
    + by rewrite addTimeBlock_occupied.
    + rewrite addTimeBlock_free by done. cbn [snd].
      apply idsUnique_updateWeekInState; [apply idsUnique_supply; [done|lia]|].
      cbn [with_blocks blocks]. rewrite fmap_app. by apply NoDup_snoc_fresh.
  - rewrite addTimeBlocks_eq. cbn [snd].
    apply idsUnique_updateWeekInState; [apply idsUnique_supply; [done|lia]|].
    cbn [with_blocks blocks]. rewrite fmap_app, rangeBlocks_ids.
    apply NoDup_app_fresh; [by apply NoDup_fmap_filter|].
    apply Forall_fmap, Forall_forall. intros x [_ Hx]%list_elem_of_filter.
    rewrite Forall_forall in Hcur. by apply Hcur.
  - unfold removeTimeBlocksInRange. destruct (decide _); [|done].
    apply idsUnique_updateWeekInState; [done|]. cbn [with_blocks blocks].
    by apply NoDup_fmap_filter.
  - unfold removeTimeBlock.
    apply idsUnique_updateWeekInState; [done|]. cbn [with_blocks blocks].
    by apply NoDup_fmap_filter.
  - unfold updateTimeBlockProject.
    destruct (list_find _ _) as [[i b]|] eqn:E; [|done].
    apply idsUnique_updateWeekInState; [done|]. cbn [with_blocks blocks].
    apply list_find_Some in E as (Hi & _).
    rewrite list_fmap_insert, list_insert_id; [done|].
    by rewrite list_lookup_fmap, Hi.
  - destruct Hinv as (Hp & Hpn & Ht & Hw). destruct Hbelow as [_ Htb].
    unfold idsUnique.
    cbn [saveCurrentWeekAsTemplate generateId snd with_templates appData projects
         templates weeks idSupply].
    split_and!; try done.
    + eapply Forall_impl; [exact Hp|]. cbn. lia.
    + rewrite fmap_app. apply NoDup_snoc_fresh; [done|]. by apply Forall_fmap.
  - unfold applyTemplate.
    destruct (list_find _ _) as [[i t]|]; [|done].
    rewrite applyTemplate_loop_spec. cbn zeta.
    apply idsUnique_updateWeekInState; [apply idsUnique_supply; [done|lia]|].
    cbn [with_blocks blocks app].
    change (?f <$> ?l) with (map f l). rewrite mintBlocks_ids. apply NoDup_seq.
  - destruct Hinv as (Hp & Hpn & Ht & Hw).
    unfold idsUnique. cbn [deleteTemplate with_templates appData projects templates
                           weeks idSupply].
    split_and!; try done. by apply NoDup_fmap_filter.
Qed.

Lemma reachable_idsUnique (s : State) :
  reachable LocalTZA toDateString s -> idsUnique s.
Proof.
  induction 1 as [now|s s' Hr IH Hstep].
  - split_and!; constructor.
  - eapply idsUnique_step; [|exact IH|exact Hstep].
    by apply reachable_idsBelowSupply.
Qed.

(** [X20] In a reachable state, a project added with [addProject] is the
    one that [getProjectById] finds under the identifier it was given, and
    the lookup of every other identifier gives what it gave before. *)
Theorem getProjectById_addProject (name0 : string) (target : Qc) (prio : Priority)
    (s : State) :
  reachable LocalTZA toDateString s ->
  let r := addProject name0 target prio s in
  getProjectById (project_id r.1) r.2 = Some r.1
  /\ (forall id, id <> project_id r.1 -> getProjectById id r.2 = getProjectById id s).
Proof.
  intros Hr r. destruct (reachable_idsUnique s Hr) as (Hp & _).
  subst r. unfold getProjectById, addProject.
  cbn [generateId fst snd with_projects appData projects project_id].
  split.
  - erewrite list_find_snoc_miss; [done| |done].
    apply list_find_None. eapply Forall_impl; [exact Hp|]. cbn. lia.
  - intros id Hid.
    destruct (list_find (fun p => project_id p = id) (projects (appData s)))
      as [[i p]|] eqn:E.
    + by erewrite list_find_app_l.
    + rewrite list_find_app_r by done. cbn. by rewrite decide_False.
Qed.

(** [X21] In a reachable state, removing a block that the selected week
    holds takes exactly one block out of the week. *)
Theorem removeTimeBlock_one (blockId : Id) (s : State) :
  reachable LocalTZA toDateString s ->
  blockId ∈ block_id <$> blocks (getCurrentWeekData LocalTZA toDateString s) ->
  S (length (blocks (getCurrentWeekData LocalTZA toDateString
                       (removeTimeBlock LocalTZA toDateString blockId s))))
  = length (blocks (getCurrentWeekData LocalTZA toDateString s)).
Proof.
  intros Hr Hin. rewrite getCurrentWeekData_removeTimeBlock.
  assert (NoDup (block_id <$> blocks (getCurrentWeekData LocalTZA toDateString s)))
    as Hnd.
  { destruct (reachable_idsUnique s Hr) as (_ & _ & _ & Hw). unfold getCurrentWeekData.
    destruct (list_find _ _) as [[i w]|] eqn:E; [|apply NoDup_nil_2].
    apply list_find_Some in E as (Hi & _).
    rewrite Forall_forall in Hw. eapply Hw, list_elem_of_lookup_2, Hi. }
  induction (blocks (getCurrentWeekData LocalTZA toDateString s)) as [|b bs IH];
    [by apply elem_of_nil in Hin|].
  rewrite fmap_cons in Hin, Hnd. apply NoDup_cons in Hnd as [Hnotin Hnd].
  rewrite filter_cons. destruct (decide (block_id b <> blockId)) as [Hne|Heq].
  - cbn [length]. f_equal. apply IH; [|done].
    apply elem_of_cons in Hin as [Hin|Hin]; [congruence|done].
  - apply dec_stable in Heq. subst blockId. cbn [length]. f_equal.
    f_equal. apply filter_Forall_id, Forall_forall. intros x Hx Hxe.
    apply Hnotin. apply list_elem_of_fmap. eauto.
Qed.

(** ** More on templates *)

Lemma with_templates_eta (s : State) : with_templates s (templates (appData s)) = s.
Proof. by destruct s as [[? ? ? ?] ? ?]. Qed.

(** [X22] [saveCurrentWeekAsTemplate] stores one entry per block of the
    selected week, in the order of the blocks, under an identifier of its
    own, and leaves the weeks alone; deleting the template it returned
    restores the list of templates. *)
Theorem save_then_delete_template (name0 : string) (s : State) :
  Forall (fun t => (template_id t < idSupply s)%nat) (templates (appData s)) ->
  let r := saveCurrentWeekAsTemplate LocalTZA toDateString name0 s in
  template_blocks r.1
    = toTemplateBlock <$> blocks (getCurrentWeekData LocalTZA toDateString s)
  /\ templates (appData r.2) = templates (appData s) ++ [r.1]
  /\ weeks (appData r.2) = weeks (appData s)
  /\ templates (appData (deleteTemplate (template_id r.1) r.2)) = templates (appData s).
Proof.
  intros Hids r. subst r. unfold saveCurrentWeekAsTemplate, deleteTemplate.
  cbn [generateId fst snd with_templates appData templates weeks template_id
       template_blocks].
  split_and!; try done.
  rewrite filter_app, filter_cons_False, filter_nil, app_nil_r
    by (intros Hne; by apply Hne).
  apply filter_Forall_id. eapply Forall_impl; [exact Hids|]. cbn. lia.
Qed.

(** [X23] [deleteTemplate] returns the state unchanged when no template
    has the identifier; in any case no template with the identifier is
    left, and applying the deleted template afterwards changes nothing. *)
Theorem deleteTemplate_spec (templateId : Id) (s : State) :
  let s' := deleteTemplate templateId s in
  (Forall (fun t => template_id t <> templateId) (templates (appData s)) -> s' = s)
  /\ Forall (fun t => template_id t <> templateId) (templates (appData s'))
  /\ applyTemplate LocalTZA toDateString templateId s' = s'.
Proof.
  intros s'.
  assert (Forall (fun t => template_id t <> templateId) (templates (appData s'))) as Hgone.
  { subst s'. cbn [deleteTemplate with_templates appData templates].
    apply Forall_forall. by intros t [? _]%list_elem_of_filter. }
  split_and!; [|done|by apply applyTemplate_unknown].
  intros Hall. subst s'. unfold deleteTemplate.
  rewrite filter_Forall_id by done. apply with_templates_eta.
Qed.

Lemma mintBlocks_projects (ps : list Project) (tbs : list TemplateBlock) (supply : nat) :
  Forall (projectExists ps) tbs ->
  Forall (fun b => Exists (fun p => project_id p = projectId b) ps)
         (mintBlocks tbs supply).
Proof.
  intros Hall. revert supply. induction Hall as [|tb tbs Htb _ IH]; intros supply.
  - constructor.
  - cbn [mintBlocks]. constructor; [exact Htb|apply IH].
Qed.

Lemma noOrphans_updateWeekInState (w : WeekData) (s : State) (n : nat) :
  noOrphans s ->
  Forall (fun b => Exists (fun p => project_id p = projectId b) (projects (appData s)))
         (blocks w) ->
  noOrphans (updateWeekInState w (mkState (appData s) (currentMonday s) n)).
Proof.
  intros Hall Hw. unfold noOrphans, updateWeekInState.
  cbn [appData weeks projects].
  destruct (list_find _ _) as [[i x]|]; cbn [with_weeks appData weeks projects].
  - by apply Forall_insert.
  - apply Forall_app. split; [done|]. by constructor.
Qed.

(** [X24] After [applyTemplate] every block of the selected week refers
    to a project of the registry, whatever the template holds, and the
    week has at most as many blocks as the template has entries; if no
    block of the store was without project before, none is afterwards. *)
Theorem applyTemplate_no_orphans (templateId : Id) (s : State) (i : nat) (t : Template) :
  list_find (fun t => template_id t = templateId) (templates (appData s)) = Some (i, t) ->
  let s' := applyTemplate LocalTZA toDateString templateId s in
  let week' := getCurrentWeekData LocalTZA toDateString s' in
  Forall (fun b => Exists (fun p => project_id p = projectId b) (projects (appData s')))
         (blocks week')
  /\ (length (blocks week') <= length (template_blocks t))%nat
  /\ (noOrphans s -> noOrphans s').
Proof.
  intros Hfind s' week'. subst week' s'.
  destruct (applyTemplate_found templateId s i t Hfind) as [Hb _].
  assert (Forall (fun b => Exists (fun p => project_id p = projectId b)
                             (projects (appData s)))
            (mintBlocks (filter (projectExists (projects (appData s))) (template_blocks t))
                        (idSupply s))) as Hminted.
  { apply mintBlocks_projects, Forall_forall.
    by intros tb [? _]%list_elem_of_filter. }
  assert (projects (appData (applyTemplate LocalTZA toDateString templateId s))
          = projects (appData s)) as Hps.
  { unfold applyTemplate. rewrite Hfind, applyTemplate_loop_spec. cbn zeta.
    match goal with
    | |- projects (appData (updateWeekInState ?w ?st)) = _ =>
        by destruct (updateWeekInState_frame w st) as (_ & _ & -> & _)
    end. }
  split_and!.
  - rewrite Hb, Hps. exact Hminted.
  - rewrite Hb.
    assert (length (mintBlocks (filter (projectExists (projects (appData s)))
                                       (template_blocks t)) (idSupply s))
            = length (filter (projectExists (projects (appData s))) (template_blocks t)))
      as ->.
    { rewrite <- (length_fmap toTemplateBlock).
      change (?f <$> ?l) with (map f l). by rewrite mintBlocks_entries. }
    apply length_filter.
  - intros Hno. unfold applyTemplate. rewrite Hfind, applyTemplate_loop_spec.
    cbn zeta. by apply noOrphans_updateWeekInState.
Qed.

(** ** More on the balances *)

Section ArraySortStable.
Context {A : Type} (R : relation A) `{!RelDecision R} (f : A -> Z).
Hypothesis R_spec : forall a b, R a b <-> f a <= f b.

Lemma sort_insert_filter (k : Z) (x : A) (l : list A) :
  filter (fun a => f a = k) (sort_insert R x l) = filter (fun a => f a = k) (x :: l).
Proof.
  induction l as [|y l IH]; [done|]. cbn [sort_insert].
  destruct (decide (R x y)) as [Hxy|Hxy]; [done|].
  rewrite R_spec in Hxy. rewrite (filter_cons _ y), IH, !(filter_cons _ x), !(filter_cons _ y).
  repeat case_decide; (done || lia).
Qed.

(** The sort is stable: the elements with equal keys keep their order. *)
Lemma Array_sort_filter (k : Z) (l : list A) :
  filter (fun a => f a = k) (Array_sort R l) = filter (fun a => f a = k) l.
Proof.
  induction l as [|x l IH]; [done|]. cbn [Array_sort].
  by rewrite sort_insert_filter, !filter_cons, IH.
Qed.
End ArraySortStable.

#[local] Instance priority_le_trans : Transitive priority_le.
Proof. intros a b c. unfold priority_le. lia. Qed.

#[local] Instance priority_le_total : Total priority_le.
Proof. intros a b. unfold priority_le. lia. Qed.

Lemma filter_fmap_project (s : State) (ws : list WeekData) (pr : Priority)
    (ps : list Project) :
  project <$> filter (fun b => priority (project b) = pr)
                (projectBalance LocalTZA toDateString s ws <$> ps)
  = filter (fun p => priority p = pr) ps.
Proof.
  induction ps as [|p ps IH]; [done|].
  rewrite fmap_cons, !filter_cons. cbn [projectBalance project].
  destruct (decide (priority p = pr)); [rewrite fmap_cons|]; by rewrite IH.
Qed.

(** [X25] [calculateProjectBalances] returns one balance per project,
    ordered by priority (High, then Medium, then Low); among the projects
    of one priority the order of the registry is kept. *)
Theorem calculateProjectBalances_order (s : State) :
  let balances := calculateProjectBalances LocalTZA toDateString s in
  StronglySorted priority_le balances
  /\ length balances = length (projects (appData s))
  /\ project <$> balances ≡ₚ projects (appData s)
  /\ (forall pr, project <$> filter (fun b => priority (project b) = pr) balances
                 = filter (fun p => priority p = pr) (projects (appData s))).
Proof.
  intros balances. subst balances. unfold calculateProjectBalances.
  change (map ?f ?l) with (f <$> l).
  set (ws := Array_sort weekKey_le (weeks (appData s))).
  assert (forall ps : list Project,
            project <$> (projectBalance LocalTZA toDateString s ws <$> ps) = ps)
    as Hproj.
  { intros ps. rewrite <- list_fmap_compose. induction ps as [|p ps IH]; [done|].
    rewrite fmap_cons. cbn [compose projectBalance project]. by rewrite IH. }
  split_and!.
  - apply Array_sort_StronglySorted; apply _.
  - by rewrite Array_sort_Permutation, length_fmap.
  - by rewrite Array_sort_Permutation, Hproj.
  - intros pr. rewrite <- (filter_fmap_project s ws). f_equal.
    rewrite (list_filter_iff _ (fun b => priorityOrder (priority (project b))
                                          = priorityOrder pr)).
    2:{ intros b. split; [by intros ->|]. by destruct (priority (project b)), pr. }
    rewrite (Array_sort_filter priority_le
               (fun b => priorityOrder (priority (project b)))) by done.
    apply list_filter_iff. intros b. split; [|by intros ->].
    by destruct (priority (project b)), pr.
Qed.

Lemma Q2Qc_inject_Z (n : Z) : Q2Qc (inject_Z n) = Qc_of_Z n.
Proof. apply Qc_is_canon. cbn. apply Qred_correct. Qed.

Lemma hoursLogged_nonneg (id : Id) (bs : list TimeBlock) :
  (Q2Qc 0 <= hoursLogged id bs)%Qc.
Proof.
  unfold hoursLogged. apply Qcmult_nonneg_nonneg; [|done].
  rewrite Q2Qc_inject_Z, <- Z2Qc_inj_0. apply (proj1 (Z2Qc_inj_le _ _)). lia.
Qed.

Lemma Math_round_nonneg (x : Qc) : (Q2Qc 0 <= x)%Qc -> 0 <= Math_round x.
Proof.
  intros Hx. unfold Math_round. change 0 with (Qfloor 0). apply Qfloor_resp_le.
  assert (Q2Qc 0 <= x + Q2Qc (1 # 2))%Qc as Hle.
  { apply Qcplus_nonneg_nonneg; done. }
  exact Hle.
Qed.

(** [X26] For every balance returned by [calculateProjectBalances]:
    [percentComplete] lies between 0 and 100; a project with target 0 is
    on track; a project is reported over only if it logged more than its
    target, and under only if it logged less. *)
Theorem balance_sanity (s : State) (b : ProjectBalance) :
  b ∈ calculateProjectBalances LocalTZA toDateString s ->
  0 <= percentComplete b <= 100
  /\ (weeklyTarget b = Q2Qc 0 -> standing b = on_track)
  /\ (standing b = over -> (weeklyTarget b < currentWeekLogged b)%Qc)
  /\ (standing b = under -> (currentWeekLogged b < weeklyTarget b)%Qc).
Proof.
  intros (p & _ & ->)%elem_of_calculateProjectBalances.
  unfold projectBalance.
  cbn [currentWeekLogged effectiveAvailable percentComplete project carryoverBalance
       weeklyTarget standing].
  set (cur := hoursLogged (project_id p)
                (blocks (getCurrentWeekData LocalTZA toDateString s))).
  set (avail := Number_add (weeklyHourTarget p) _).
  set (tol := Math_max (Q2Qc (1 # 2)) _).
  pose proof (hoursLogged_nonneg (project_id p)
                (blocks (getCurrentWeekData LocalTZA toDateString s))) as Hcur.
  fold cur in Hcur.
  assert (forall x : Qc, (x < Q2Qc 0)%Qc \/ x = Q2Qc 0 \/ (Q2Qc 0 < x)%Qc) as Hsign.
  { intros x. destruct (Qc_dec x (Q2Qc 0)) as [[?|?]|?]; auto. }
  split_and!.
  - destruct (decide (Q2Qc 0 < avail)%Qc) as [Hpos|_].
    + assert (0 <= Math_round (Number_mul (Number_div cur avail) (Q2Qc 100))); [|lia].
      apply Math_round_nonneg, roundDouble_nonneg.
      apply Qcmult_nonneg_nonneg; [|done].
      apply roundDouble_nonneg, Qcmult_nonneg_nonneg; [done|].
      by apply Qclt_le_weak, Qcinv_pos.
    + destruct (decide _); lia.
  - lia.
  - intros ->. by rewrite decide_True.
  - destruct (decide (weeklyHourTarget p = Q2Qc 0)) as [|Hnz]; [done|].
    destruct (decide (Number_add (weeklyHourTarget p) tol < cur)%Qc) as [Hover|_];
      [|by destruct (decide _)].
    intros _. destruct (Hsign (weeklyHourTarget p)) as [Hneg|[Hzero|Hpos]]; [|done|].
    + eapply Qclt_le_trans; [exact Hneg|exact Hcur].
    + destruct (tolerance_around_target (weeklyHourTarget p) Hpos) as [Hup _].
      eapply Qcle_lt_trans; [exact Hup|exact Hover].
  - destruct (decide (weeklyHourTarget p = Q2Qc 0)) as [|Hnz]; [done|].
    destruct (decide (Number_add (weeklyHourTarget p) tol < cur)%Qc) as [|_]; [done|].
    destruct (decide (cur < Number_sub (weeklyHourTarget p) tol)%Qc) as [Hunder|]; [|done].
    intros _. destruct (Hsign (weeklyHourTarget p)) as [Hneg|[Hzero|Hpos]]; [|done|].
    + exfalso. eapply (Qclt_not_le _ _ Hunder). etrans; [|exact Hcur].
      apply roundDouble_nonpos.
      pose proof (Math_max_lower (Q2Qc (1 # 2))
                    (Number_mul (weeklyHourTarget p) (Number_literal (1 # 10)))) as L1.
      fold tol in L1. revert Hneg L1. unfold Qcle, Qclt. rewrite this_Qcminus.
      change (this (Q2Qc 0)) with 0%Q. change (this (Q2Qc (1 # 2))) with (1 # 2)%Q. lra.
    + destruct (tolerance_around_target (weeklyHourTarget p) Hpos) as [_ Hdown].
      eapply Qclt_le_trans; [exact Hunder|exact Hdown].
Qed.

(** [X27] The carry-over of every balance is accumulated in the order of
    the week keys, whatever the order in which the weeks are stored:
    starting from 0, each non-empty week before the current one adds the
    target minus the hours logged in it, every sum and difference being
    rounded as a double; the other weeks add nothing. *)
Theorem carryover_in_key_order (s : State) (b : ProjectBalance) :
  b ∈ calculateProjectBalances LocalTZA toDateString s ->
  carryoverBalance b
  = foldl (carryStep (project b)) (Q2Qc 0)
      (filter (priorNonEmpty (getCurrentWeekKey LocalTZA s))
              (Array_sort weekKey_le (weeks (appData s)))).
Proof.
  intros (p & _ & ->)%elem_of_calculateProjectBalances.
  cbn [projectBalance carryoverBalance project].
  apply carryoverLoop_sorted, Array_sort_StronglySorted; apply _.
Qed.

Lemma length_filter_elem_of_cons (i : Id) (ids : list Id) (bs : list TimeBlock) :
  i ∉ ids ->
  length (filter (fun b => projectId b ∈ i :: ids) bs)
  = (length (filter (fun b => projectId b = i) bs)
     + length (filter (fun b => projectId b ∈ ids) bs))%nat.
Proof.
  intros Hi. induction bs as [|b bs IH]; [done|].
  rewrite !filter_cons.
  destruct (decide (projectId b = i)) as [Heq|Hne].
  - rewrite decide_True by (rewrite Heq; left).
    rewrite decide_False by (by rewrite Heq). cbn [length]. lia.
  - destruct (decide (projectId b ∈ ids)) as [Hin|Hout].
    + rewrite decide_True by (by right). cbn [length]. lia.
    + rewrite decide_False; [done|]. by intros [?|?]%elem_of_cons.
Qed.

Lemma count_by_project (ids : list Id) (bs : list TimeBlock) :
  NoDup ids ->
  sum_list ((fun i => length (filter (fun b => projectId b = i) bs)) <$> ids)
  = length (filter (fun b => projectId b ∈ ids) bs).
Proof.
  induction 1 as [|i ids Hi _ IH].
  - cbn. symmetry. apply length_zero_iff_nil, filter_Forall_nil, Forall_forall.
    intros b _ Hb. by apply elem_of_nil in Hb.
  - rewrite fmap_cons. cbn [sum_list sum_list_with]. rewrite IH.
    by rewrite length_filter_elem_of_cons.
Qed.

Lemma sumQc_hours (counts : list nat) :
  sumQc ((fun n => Q2Qc (inject_Z (Z.of_nat n)) * SLOT_HOURS)%Qc <$> counts)
  = (Q2Qc (inject_Z (Z.of_nat (sum_list counts))) * SLOT_HOURS)%Qc.
Proof.
  induction counts as [|n counts IH].
  - apply Qc_is_canon. by vm_compute.
  - rewrite fmap_cons. change (sumQc (?x :: ?l)) with (x + sumQc l)%Qc. rewrite IH.
    cbn [sum_list sum_list_with]. change (id n) with n.
    rewrite !Q2Qc_inject_Z, Nat2Z.inj_add, Z2Qc_inj_add. ring.
Qed.

(** [X28] When the projects have distinct identifiers and every block of
    the selected week belongs to a project of the registry, the total of
    [getCurrentWeekTotalHours] is the sum of the hours that
    [calculateProjectBalances] reports as logged for the projects. *)
Theorem total_hours_by_project (s : State) :
  NoDup (project_id <$> projects (appData s)) ->
  Forall (fun b => Exists (fun p => project_id p = projectId b) (projects (appData s)))
         (blocks (getCurrentWeekData LocalTZA toDateString s)) ->
  getCurrentWeekTotalHours LocalTZA toDateString s
  = sumQc (currentWeekLogged <$> calculateProjectBalances LocalTZA toDateString s).
Proof.
  intros Hnd Hall. unfold calculateProjectBalances, getCurrentWeekTotalHours.
  change (map ?f ?l) with (f <$> l).
  set (bs := blocks (getCurrentWeekData LocalTZA toDateString s)) in *.
  rewrite (sumQc_Permutation _ _
             (fmap_Permutation _ _ _ (Array_sort_Permutation priority_le _))).
  rewrite <- list_fmap_compose.
  rewrite (list_fmap_ext _
             ((fun n => Q2Qc (inject_Z (Z.of_nat n)) * SLOT_HOURS)%Qc
              ∘ (fun i => length (filter (fun b => projectId b = i) bs))
              ∘ project_id) (projects (appData s)))
    by done.
  rewrite !list_fmap_compose, sumQc_hours, count_by_project by done.
  rewrite filter_Forall_id; [done|].
  eapply Forall_impl; [exact Hall|]. intros b Hb. cbn in *.
  apply Exists_exists in Hb as (p & Hp & Heq). apply list_elem_of_fmap. eauto.
Qed.

(** [X29] [getWeeklyHourGoal] never returns 0: after [setWeeklyHourGoal]
    it returns the hours that were set, except that a goal of 0 reads
    back as the default of 40. *)
Theorem weekly_goal_round_trip (hours : Qc) (s : State) :
  getWeeklyHourGoal (setWeeklyHourGoal hours s)
    = (if decide (hours = Q2Qc 0) then Q2Qc 40 else hours)
  /\ getWeeklyHourGoal s <> Q2Qc 0
  /\ weeks (appData (setWeeklyHourGoal hours s)) = weeks (appData s)
  /\ projects (appData (setWeeklyHourGoal hours s)) = projects (appData s).
Proof.
  unfold getWeeklyHourGoal, setWeeklyHourGoal.
  cbn [with_weeklyHourGoal appData weeklyHourGoal weeks projects].
  split_and!; try done. by destruct (decide _).
Qed.

(** ** Contiguous groups of blocks *)

Lemma groupSizeLoop_run (fuel : nat) (l : list TimeBlock) (i : nat) (sb : TimeBlock)
    (g : nat) :
  let n := groupSizeLoop fuel l i sb g in
  (g <= n)%nat
  /\ forall k, (g <= k < n)%nat ->
       exists x, l !! (i + k)%nat = Some x /\ projectId x = projectId sb
                 /\ slotIndex x = slotIndex sb + Z.of_nat k.
Proof.
  revert g. induction fuel as [|fuel IH]; intros g; cbn [groupSizeLoop].
  - split; [lia|]. intros k Hk. lia.
  - destruct (l !! (i + g)%nat) as [next|] eqn:E; [|split; [lia|intros; lia]].
    destruct (decide _) as [[Hp Hs]|_]; [|split; [lia|intros; lia]].
    specialize (IH (S g)). cbn zeta in IH. destruct IH as [Hle Hrun].
    split; [lia|]. intros k Hk.
    destruct (decide (k = g)) as [->|Hne]; [eauto|]. apply Hrun. lia.
Qed.

Lemma groupSizeLoop_from_start (l : list TimeBlock) (i : nat) (sb : TimeBlock) :
  l !! i = Some sb ->
  let n := groupSizeLoop (length l) l i sb 1 in
  (1 <= n)%nat
  /\ forall k, (k < n)%nat ->
       exists x, l !! (i + k)%nat = Some x /\ projectId x = projectId sb
                 /\ slotIndex x = slotIndex sb + Z.of_nat k.
Proof.
  intros Hi n. destruct (groupSizeLoop_run (length l) l i sb 1) as [Hle Hrun].
  fold n in Hle, Hrun. split; [done|]. intros k Hk.
  destruct (decide (k = 0)%nat) as [->|Hne]; [|apply Hrun; lia].
  exists sb. rewrite Nat.add_0_r. split_and!; [done|done|lia].
Qed.

(** What every entry of the map states: a run of blocks of one project
    in consecutive slots of one day. *)
Definition isRun (blocks0 : list TimeBlock) (key : GroupKey) (n : nat) : Prop :=
  (1 <= n)%nat
  /\ forall k, (k < n)%nat ->
       exists x, x ∈ blocks0 /\ day x = key.1.1 /\ projectId x = key.1.2
                 /\ slotIndex x = key.2 + Z.of_nat k.

Lemma groupScanLoop_runs (blocks0 : list TimeBlock) (d : DayOfWeek) (l : list TimeBlock)
    (fuel i : nat) (r : gmap GroupKey nat) :
  Forall (fun x => x ∈ blocks0 /\ day x = d) l ->
  map_Forall (isRun blocks0) r ->
  map_Forall (isRun blocks0) (groupScanLoop fuel d l i r).
Proof.
  intros Hl. revert i r. induction fuel as [|fuel IH]; intros i r Hr; [done|].
  cbn [groupScanLoop]. destruct (l !! i) as [sb|] eqn:E; [|done].
  apply IH. apply map_Forall_insert_2; [|done].
  destruct (groupSizeLoop_from_start l i sb E) as [Hle Hrun]. cbn zeta in *.
  split; [done|]. intros k Hk. destruct (Hrun k Hk) as (x & Hx & Hp & Hs).
  exists x. rewrite Forall_forall in Hl.
  destruct (Hl x (list_elem_of_lookup_2 _ _ _ Hx)) as [Hin Hd]. by cbn.
Qed.

Lemma groupScanLoop_cover (d : DayOfWeek) (l : list TimeBlock) (fuel i : nat)
    (r : gmap GroupKey nat) :
  Forall (fun x => day x = d) l ->
  NoDup (slotIndex <$> l) ->
  (length l <= i + fuel)%nat ->
  let m := groupScanLoop fuel d l i r in
  (forall j x, l !! j = Some x -> (i <= j)%nat -> inGroup m x)
  /\ (forall key n, r !! key = Some n ->
        (forall j x, l !! j = Some x -> (i <= j)%nat ->
           key <> (d, projectId x, slotIndex x)) ->
        m !! key = Some n).
Proof.
  intros Hd Hnd. revert i r. induction fuel as [|fuel IH]; intros i r Hfuel.
  - cbn. split; [|done]. intros j x Hj Hij.
    apply lookup_lt_Some in Hj. lia.
  - cbn [groupScanLoop]. destruct (l !! i) as [sb|] eqn:E.
    2:{ cbn zeta. split; [|done]. intros j x Hj Hij.
        apply lookup_ge_None in E. apply lookup_lt_Some in Hj. lia. }
    destruct (groupSizeLoop_from_start l i sb E) as [Hle Hrun]. cbn zeta in *.
    set (g := groupSizeLoop (length l) l i sb 1) in *.
    set (r' := <[(d, projectId sb, slotIndex sb):=g]> r).
    destruct (IH (i + g)%nat r' ltac:(lia)) as [Hcov Hkeep].
    assert (forall j x, l !! j = Some x -> j <> i -> slotIndex x <> slotIndex sb)
      as Hslots.
    { intros j x Hj Hne Heq. apply Hne.
      eapply NoDup_lookup; [exact Hnd|..]; rewrite list_lookup_fmap.
      - by rewrite Hj.
      - rewrite E. cbn. by rewrite Heq. }
    split.
    + intros j x Hj Hij. destruct (decide (j < i + g)%nat) as [Hlt|Hge];
        [|apply (Hcov j); [done|lia]].
      destruct (Hrun (j - i)%nat ltac:(lia)) as (y & Hy & Hp & Hs).
      replace (i + (j - i))%nat with j in Hy by lia.
      assert (y = x) by congruence. subst y.
      rewrite Forall_forall in Hd.
      exists (slotIndex sb), g. split; [|lia].
      rewrite (Hd x (list_elem_of_lookup_2 _ _ _ Hj)), Hp.
      apply Hkeep; [apply lookup_insert_eq|].
      intros j' x' Hj' Hij' [= _ Hs']. apply (Hslots j' x' Hj'); [lia|done].
    + intros key n Hkey Hfresh. apply Hkeep.
      * unfold r'. rewrite lookup_insert_ne; [done|].
        intros Heq. by apply (Hfresh i sb E (Nat.le_refl i)).
      * intros j x Hj Hij. apply (Hfresh j x Hj). lia.
Qed.

Lemma dayBlocks_facts (blocks0 : list TimeBlock) (d : DayOfWeek) :
  let l := Array_sort slot_le (filter (fun b => day b = d) blocks0) in
  Forall (fun x => x ∈ blocks0 /\ day x = d) l
  /\ (forall x, x ∈ blocks0 -> day x = d -> x ∈ l)
  /\ (slotsUnique blocks0 -> NoDup (slotIndex <$> l)).
Proof.
  intros l. subst l. split_and!.
  - apply Forall_forall. intros x Hx. rewrite elem_of_Array_sort in Hx.
    apply list_elem_of_filter in Hx. tauto.
  - intros x Hx Hd. apply elem_of_Array_sort, list_elem_of_filter. done.
  - intros Hu. rewrite Array_sort_Permutation.
    apply (NoDup_fmap_1 (pair d)). rewrite <- list_fmap_compose.
    eapply (slotsUnique_filter (fun b => day b = d)) in Hu. unfold slotsUnique in Hu.
    erewrite list_fmap_ext; [exact Hu|].
    intros i x Hx. apply list_elem_of_lookup_2, list_elem_of_filter in Hx as [<- _].
    done.
Qed.

Lemma foldl_days_runs (blocks0 : list TimeBlock) (ds : list DayOfWeek)
    (r : gmap GroupKey nat) :
  map_Forall (isRun blocks0) r ->
  map_Forall (isRun blocks0)
    (foldl (fun result day0 =>
              let dayBlocks :=
                Array_sort slot_le (filter (fun b => day b = day0) blocks0) in
              groupScanLoop (length dayBlocks) day0 dayBlocks 0 result) r ds).
Proof.
  revert r. induction ds as [|d ds IH]; intros r Hr; [done|].
  cbn [foldl]. apply IH, groupScanLoop_runs; [|done].
  apply dayBlocks_facts.
Qed.

Lemma foldl_days_cover (blocks0 : list TimeBlock) (ds : list DayOfWeek)
    (r : gmap GroupKey nat) :
  slotsUnique blocks0 -> NoDup ds ->
  let m := foldl (fun result day0 =>
                    let dayBlocks :=
                      Array_sort slot_le (filter (fun b => day b = day0) blocks0) in
                    groupScanLoop (length dayBlocks) day0 dayBlocks 0 result) r ds in
  (forall x, x ∈ blocks0 -> day x ∈ ds -> inGroup m x)
  /\ (forall key n, r !! key = Some n -> key.1.1 ∉ ds -> m !! key = Some n).
Proof.
  intros Hu Hnd. revert r. induction Hnd as [|d ds Hd _ IH]; intros r.
  - cbn. split; [|done]. intros x _ Hx. by apply elem_of_nil in Hx.
  - cbn [foldl]. cbn zeta.
    destruct (dayBlocks_facts blocks0 d) as (Hl & Hin & Hslots). cbn zeta in *.
    set (l := Array_sort slot_le (filter (fun b => day b = d) blocks0)) in *.
    destruct (groupScanLoop_cover d l (length l) 0 r) as [Hcov Hkeep];
      [eapply Forall_impl; [exact Hl|]; by intros ? [_ ?]|by apply Hslots|lia|].
    cbn zeta in *. set (r1 := groupScanLoop (length l) d l 0 r) in *.
    destruct (IH r1) as [Hcov' Hkeep']. cbn zeta in *.
    split.
    + intros x Hx Hday. apply elem_of_cons in Hday as [Hday|Hday]; [|by apply Hcov'].
      destruct (list_elem_of_lookup_1 _ _ (Hin x Hx Hday)) as [j Hj].
      destruct (Hcov j x Hj ltac:(lia)) as (slot & n & Hm & Hrange).
      exists slot, n. split; [|done]. apply Hkeep'; [done|]. cbn. by rewrite Hday.
    + intros key n Hkey Hnotin. apply not_elem_of_cons in Hnotin as [Hne Hnotin].
      apply Hkeep'; [|done]. apply Hkeep; [done|].
      intros j x _ _ ->. by apply Hne.
Qed.

(** [X30] The map of [computeBlockGroupSizes] describes the blocks of the
    week faithfully.  Every entry [(day, project, slot) -> n] stands for
    [n >= 1] blocks of that project in the [n] consecutive slots of that
    day starting at [slot]; and when no two blocks share a slot, every
    block of the week lies in one of the stored groups. *)
Theorem computeBlockGroupSizes_spec (blocks0 : list TimeBlock) :
  let groups := computeBlockGroupSizes blocks0 in
  (forall d p slot n, groups !! (d, p, slot) = Some n ->
     (1 <= n)%nat
     /\ forall k, (k < n)%nat ->
          exists x, x ∈ blocks0 /\ day x = d /\ projectId x = p
                    /\ slotIndex x = slot + Z.of_nat k)
  /\ (slotsUnique blocks0 -> forall x, x ∈ blocks0 -> inGroup groups x).
Proof.
  intros groups. subst groups. unfold computeBlockGroupSizes. split.
  - intros d p slot n Hn.
    pose proof (foldl_days_runs blocks0 DAYS ∅ (map_Forall_empty _)) as Hruns.
    exact (Hruns (d, p, slot) n Hn).
  - intros Hu x Hx.
    destruct (foldl_days_cover blocks0 DAYS ∅ Hu) as [Hcov _].
    { apply (bool_decide_unpack _). by vm_compute. }
    apply Hcov; [done|]. unfold DAYS. destruct (day x); set_solver.
Qed.

End Properties.

(** * The properties on concrete runs *)

(** The runs are reachable states. *)
Lemma reachable_run2 : reachable utc noDateString run2.
Proof.
  eapply reachable_step; [|apply step_addProject].
  eapply reachable_step; [|apply step_addProject].
  eapply reachable_step; [|apply step_initState_default].
  apply reachable_init.
Qed.

Lemma reachable_run5 : reachable utc noDateString run5.
Proof.
  eapply reachable_step; [|apply step_addTimeBlocks].
  eapply reachable_step; [|apply step_navigateWeek; by left].
  eapply reachable_step; [|apply step_addTimeBlocks].
  apply reachable_run2.
Qed.

Lemma reachable_runOrphan : reachable utc noDateString runOrphan.
Proof. eapply reachable_step; [|apply step_addTimeBlock]. apply reachable_run2. Qed.

(** [C4, as stated] fails: [addTimeBlock] stores whatever project
    identifier it is given, so a reachable state can hold a block of
    project 7, which is not in the registry; after [deleteProject 1] that
    block is still there and still refers to no project. *)
Lemma deleteProject_orphan_counterexample :
  reachable utc noDateString runOrphan /\ ~ noOrphans (deleteProject 1%nat runOrphan).
Proof.
  split; [apply reachable_runOrphan|].
  apply (bool_decide_unpack _). by vm_compute.
Qed.

(** [C9, as stated] fails in the years 0 to 99: [new Date(50, 0, 1)] is
    1 January 1950, so the week numbers of the year 50 are negative and
    decrease in absolute value; Monday 3 January 50 gets the key
    ["50-W-99136"] and Monday 10 January 50 the smaller key
    ["50-W-99135"]. *)
Example getWeekKey_year_50 :
  getWeekKey utc (mkDate 50 2 0) = "50-W-99136"%string
  /\ getWeekKey utc (mkDate 50 9 0) = "50-W-99135"%string.
Proof. by vm_compute. Qed.

Lemma getWeekKey_year_50_counterexample :
  validDate (mkDate 50 2 0) /\ validDate (mkDate 50 9 0)
  /\ getDay (mkDate 50 2 0) = 1 /\ getDay (mkDate 50 9 0) = 1
  /\ fullYear (mkDate 50 2 0) = fullYear (mkDate 50 9 0)
  /\ getTime utc (mkDate 50 2 0) <= getTime utc (mkDate 50 9 0)
  /\ ~ String.le (getWeekKey utc (mkDate 50 2 0)) (getWeekKey utc (mkDate 50 9 0)).
Proof.
  split_and!; vm_compute; repeat split; congruence.
Qed.

(** [C1, as stated] fails: with Monday's slot 5 held by project 1, adding
    slots 0 to 1 for project 0 leaves three blocks on Monday, one of which
    is not of project 0. *)
Lemma addTimeBlocks_day_counterexample :
  ~ dayHoldsExactlyRange utc noDateString 0%nat Monday 0 1 run2b.
Proof. intros [Hcount _]. vm_compute in Hcount. discriminate Hcount. Qed.

Lemma addTimeBlocks_foreign_block_remains :
  ~ Forall (fun x => projectId x = 0%nat)
      (filter (fun x => day x = Monday)
         (blocks (getCurrentWeekData utc noDateString
                    (addTimeBlocks utc noDateString 0%nat Monday 0 1 run2b).2))).
Proof.
  intros H. rewrite Forall_forall in H.
  specialize (H (mkTimeBlock 2%nat 1%nat Monday 5)).
  assert (1 = 0)%nat; [|done]. apply H. vm_compute. left.
Qed.

(** In a zone with daylight saving the day count of a summer Monday is
    rounded down by the hour that was skipped; the week key is not
    affected. *)
Example daysSinceJan1_summer :
  localDay (mkDate 2026 186 0) - localDay (newDateJan1 2026) = 186
  /\ daysSinceJan1 dstTZA (mkDate 2026 186 0) = 185
  /\ getWeekKey dstTZA (mkDate 2026 186 0) = "2026-W28"%string.
Proof. by vm_compute. Qed.

(** [C9] at Monday 9 February and Monday 6 July 2026, across the change to
    daylight saving time. *)
Lemma getWeekKey_monotone_witness :
  String.le (getWeekKey dstTZA (mkDate 2026 39 0)) (getWeekKey dstTZA (mkDate 2026 186 0)).
Proof.
  apply getWeekKey_monotone.
  - intros t u. unfold dstTZA, msPerDay. repeat case_decide; lia.
  - cbn [fullYear]. lia.
  - vm_compute. repeat split; congruence.
  - vm_compute. repeat split; congruence.
  - vm_compute; reflexivity.
  - vm_compute; reflexivity.
  - vm_compute; reflexivity.
  - vm_compute. congruence.
Defined.

(** [C3] at the end of a run that fills two weeks. *)
Lemma slot_occupancy_invariant_witness :
  atMostOnePerSlot run5
  /\ (forall s', step utc noDateString run5 s' -> atMostOnePerSlot s').
Proof. apply (slot_occupancy_invariant utc noDateString run5), reachable_run5. Defined.

(** [C7] for a target of 20 hours and 11.5 hours logged: the double
    11.5 / 20 * 100 is 57.49999999999999, so the percentage is 57. *)
Lemma percentComplete_spec_witness :
  percentComplete
    (projectBalance utc noDateString runP
       (Array_sort weekKey_le (weeks (appData runP)))
       (mkProject 2%nat "Gamma" (Q2Qc 20) Low 2%nat)) = 57.
Proof.
  set (b := projectBalance utc noDateString runP
              (Array_sort weekKey_le (weeks (appData runP)))
              (mkProject 2%nat "Gamma" (Q2Qc 20) Low 2%nat)).
  assert (b ∈ calculateProjectBalances utc noDateString runP) as Hb.
  { apply elem_of_calculateProjectBalances. eexists. split; [|reflexivity].
    vm_compute. right. right. left. }
  destruct (percentComplete_spec utc noDateString runP b Hb) as (_ & _ & Hpos & _).
  destruct Hpos as (_ & _ & n & Hn & Hlow & Hhigh); [by vm_compute|].
  rewrite Hn, (Math_round_unique _ n Hlow Hhigh). by vm_compute.
Defined.

(** [C2] on the run: "Alpha" has a target of 10 hours, logged 12 slots in
    week 7 and 10 slots in the current week 8. *)
Lemma balance_scenario_witness :
  let b := projectBalance utc noDateString run5
             (Array_sort weekKey_le (weeks (appData run5)))
             (mkProject 0%nat "Alpha" (Q2Qc 10) High 0%nat) in
  b ∈ calculateProjectBalances utc noDateString run5
  /\ carryoverBalance b = Q2Qc 4 /\ effectiveAvailable b = Q2Qc 14
  /\ percentComplete b = 36 /\ standing b = under.
Proof.
  intros b.
  assert (b ∈ calculateProjectBalances utc noDateString run5) as Hb.
  { apply elem_of_calculateProjectBalances. eexists. split; [|reflexivity].
    vm_compute. left. }
  split; [exact Hb|].
  refine (proj2 (balance_scenario utc noDateString run5
                   (mkProject 0%nat "Alpha" (Q2Qc 10) High 0%nat)
                   [] [getCurrentWeekData utc noDateString run5]
                   (getCurrentWeekData utc noDateString run3) _ _ _ _ _ _ _)
                b Hb eq_refl).
  - vm_compute. left.
  - vm_compute; reflexivity.
  - vm_compute; reflexivity.
  - split; [vm_compute; tauto | by vm_compute].
  - constructor; [|constructor]. intros [Hlt _]. apply Hlt. by vm_compute.
  - apply Qc_is_canon. by vm_compute.
  - apply Qc_is_canon. by vm_compute.
Defined.

(** [C6] on the first week of the run, emptied with
    [removeTimeBlocksInRange]. *)
Lemma save_clear_apply_roundtrip_witness :
  let saved := saveCurrentWeekAsTemplate utc noDateString "Pattern" run3 in
  let cleared := removeTimeBlocksInRange utc noDateString Monday 0 23 saved.2 in
  map toTemplateBlock
    (blocks (getCurrentWeekData utc noDateString
               (applyTemplate utc noDateString (template_id saved.1) cleared)))
  = map toTemplateBlock (blocks (getCurrentWeekData utc noDateString run3)).
Proof.
  intros saved cleared.
  refine (proj1 (save_clear_apply_roundtrip utc noDateString "Pattern" run3 cleared _ _ _)).
  - apply (bool_decide_unpack _). by vm_compute.
  - constructor.
  - by vm_compute.
Defined.

(** [C8] on a free slot and on an occupied one. *)
Lemma addTimeBlock_spec_witness :
  (addTimeBlock utc noDateString 1%nat Monday 5 run2).1
    = Some (mkTimeBlock 2%nat 1%nat Monday 5)
  /\ addTimeBlock utc noDateString 0%nat Monday 5 run2b = (None, run2b).
Proof.
  split.
  - destruct (addTimeBlock_spec utc noDateString 1%nat Monday 5 run2) as (_ & _ & Hfree).
    assert (~ slotOccupied Monday 5
                (blocks (getCurrentWeekData utc noDateString run2))) as Hn.
    { intros Hocc. vm_compute in Hocc. by apply Exists_nil in Hocc. }
    destruct (Hfree Hn) as [Hsome _]. vm_compute in Hsome |- *. exact Hsome.
  - destruct (addTimeBlock_spec utc noDateString 0%nat Monday 5 run2b) as (_ & Hocc & _).
    assert (slotOccupied Monday 5
              (blocks (getCurrentWeekData utc noDateString run2b))) as Ho.
    { vm_compute. left. split; reflexivity. }
    apply Hocc in Ho. vm_compute in Ho |- *. exact Ho.
Defined.

(** [C4] on the run: deleting project 1 leaves no block without project. *)
Lemma deleteProject_cascade_witness : noOrphans runT3.
Proof.
  apply (deleteProject_cascade 1%nat runT2).
  apply (bool_decide_unpack _). by vm_compute.
Defined.

(** [C5] on the run: of the two entries of the template, the one of the
    deleted project is dropped. *)
Lemma applyTemplate_spec_witness :
  map toTemplateBlock
    (blocks (getCurrentWeekData utc noDateString
               (applyTemplate utc noDateString 4%nat runT3)))
  = [mkTemplateBlock 0%nat Monday 0]
  /\ applyTemplate utc noDateString 7%nat runT3 = runT3.
Proof.
  destruct (applyTemplate_spec utc noDateString 4%nat runT3) as [_ Hfound].
  destruct (applyTemplate_spec utc noDateString 7%nat runT3) as [Hunknown _].
  split.
  - etrans; [apply (Hfound 0%nat (mkTemplate 4%nat "Both"
                      [mkTemplateBlock 0%nat Monday 0; mkTemplateBlock 1%nat Monday 1]))|];
      by vm_compute.
  - apply Hunknown. apply (bool_decide_unpack _). by vm_compute.
Defined.

(** [X1] for Wednesday 11 February 2026: its Monday is 9 February. *)
Lemma getMonday_spec_witness :
  validDate (getMonday now0)
  /\ getDay (getMonday now0) = 1
  /\ localDay now0 - 6 <= localDay (getMonday now0) <= localDay now0.
Proof.
  apply (getMonday_spec now0). vm_compute. repeat split; congruence.
Defined.

(** [X2] for the same Wednesday. *)
Lemma getMonday_idempotent_witness : getMonday (getMonday now0) = getMonday now0.
Proof.
  apply (getMonday_idempotent now0). vm_compute. repeat split; congruence.
Defined.

(** [X3] at Monday 9 February and Monday 6 July 2026, across the change to
    daylight saving time. *)
Lemma getWeekKey_distinct_mondays_witness :
  String.ltb (getWeekKey dstTZA (mkDate 2026 39 0)) (getWeekKey dstTZA (mkDate 2026 186 0)) = true
  /\ getWeekKey dstTZA (mkDate 2026 39 0) <> getWeekKey dstTZA (mkDate 2026 186 0).
Proof.
  apply getWeekKey_distinct_mondays.
  - intros t u. unfold dstTZA, msPerDay. repeat case_decide; lia.
  - cbn [fullYear]. lia.
  - vm_compute. repeat split; congruence.
  - vm_compute. repeat split; congruence.
  - vm_compute; reflexivity.
  - vm_compute; reflexivity.
  - vm_compute; reflexivity.
  - vm_compute; reflexivity.
Defined.

(** [X4] at slot 2, which is labelled 8:00 AM. *)
Lemma slotToTime_injective_witness :
  slotToTime 2 = "8:00 AM"%string
  /\ (slotToTime 2 = slotToTime 2 -> 2 = 2).
Proof.
  split; [vm_compute; reflexivity|].
  apply (slotToTime_injective 2 2); vm_compute; split; congruence.
Defined.

(** [X5] one week forward from the first week of the run. *)
Lemma navigateWeek_spec_witness :
  localDay (currentMonday (navigateWeek utc noDateString 1 run3))
  = localDay (currentMonday run3) + 7 * 1.
Proof.
  refine (proj1 (proj2 (navigateWeek_spec utc noDateString 1 run3 _ _))).
  - vm_compute. repeat split; congruence.
  - left; reflexivity.
Defined.

(** [X6] forward and back from the first week of the run, which holds
    twelve blocks. *)
Lemma navigateWeek_round_trip_witness :
  getCurrentWeekData utc noDateString
    (navigateWeek utc noDateString (- 1) (navigateWeek utc noDateString 1 run3))
  = getCurrentWeekData utc noDateString run3.
Proof.
  refine (proj1 (proj2 (navigateWeek_round_trip utc noDateString 1 run3 _ _ _))).
  - vm_compute. repeat split; congruence.
  - left; reflexivity.
  - vm_compute. eexists. reflexivity.
Defined.

(** [X7] for the last call of the run, which fills Tuesday of the second
    week: the first week is untouched. *)
Lemma currentWeekOp_frame_witness :
  otherWeeks utc run5 = otherWeeks utc run4.
Proof.
  refine (proj1 (currentWeekOp_frame utc noDateString run4 run5 _)).
  apply cwo_addTimeBlocks.
Defined.

(** [X8] at the end of the run, with two stored weeks. *)
Lemma weekKeys_unique_witness : NoDup (weekKey <$> weeks (appData run5)).
Proof. apply (weekKeys_unique utc noDateString run5), reachable_run5. Defined.

(** [X12] slot 4 of Monday after slots 0 to 11 were filled. *)
Lemma addTimeBlock_after_range_witness :
  addTimeBlock utc noDateString 1%nat Monday 4 run3 = (None, run3).
Proof.
  apply (addTimeBlock_after_range utc noDateString 0%nat 1%nat Monday 0 11 4 run2).
  vm_compute. split; congruence.
Defined.

(** [X14] for the block that leads from [run2] to [run2b]. *)
Lemma addTimeBlock_removeTimeBlock_witness :
  blocks (getCurrentWeekData utc noDateString
            (removeTimeBlock utc noDateString 2%nat run2b))
  = blocks (getCurrentWeekData utc noDateString run2).
Proof.
  apply (addTimeBlock_removeTimeBlock utc noDateString 1%nat Monday 5 run2
           (mkTimeBlock 2%nat 1%nat Monday 5) run2b).
  - apply (bool_decide_unpack _). vm_compute; reflexivity.
  - vm_compute; reflexivity.
Defined.

(** [X20] for a third project added after the two of the run. *)
Lemma getProjectById_addProject_witness :
  let r := addProject "Gamma" (Q2Qc 5) Low run2 in
  getProjectById (project_id r.1) r.2 = Some r.1.
Proof.
  apply (getProjectById_addProject utc noDateString "Gamma" (Q2Qc 5) Low run2),
    reachable_run2.
Defined.

(** [X21] for the first block of Tuesday in the second week of the run. *)
Lemma removeTimeBlock_one_witness :
  S (length (blocks (getCurrentWeekData utc noDateString
                       (removeTimeBlock utc noDateString 14%nat run5))))
  = length (blocks (getCurrentWeekData utc noDateString run5)).
Proof.
  apply (removeTimeBlock_one utc noDateString 14%nat run5).
  - apply reachable_run5.
  - vm_compute. left.
Defined.

(** [X22] for a template saved from the first week of the run. *)
Lemma save_then_delete_template_witness :
  let r := saveCurrentWeekAsTemplate utc noDateString "Pattern" run3 in
  templates (appData (deleteTemplate (template_id r.1) r.2)) = templates (appData run3).
Proof.
  intros r.
  refine (proj2 (proj2 (proj2
            (save_then_delete_template utc noDateString "Pattern" run3 _)))).
  apply (bool_decide_unpack _). vm_compute; reflexivity.
Defined.

(** [X24] for the template of the run, one project of which was deleted. *)
Lemma applyTemplate_no_orphans_witness :
  (length (blocks (getCurrentWeekData utc noDateString
                     (applyTemplate utc noDateString 4%nat runT3))) <= 2)%nat.
Proof.
  refine (proj1 (proj2
            (applyTemplate_no_orphans utc noDateString 4%nat runT3 0%nat
               (mkTemplate 4%nat "Both"
                  [mkTemplateBlock 0%nat Monday 0; mkTemplateBlock 1%nat Monday 1]) _))).
  vm_compute; reflexivity.
Defined.

(** [X26] for the balance of project "Alpha" at the end of the run. *)
Lemma balance_sanity_witness :
  0 <= percentComplete
         (projectBalance utc noDateString run5
            (Array_sort weekKey_le (weeks (appData run5)))
            (mkProject 0%nat "Alpha" (Q2Qc 10) High 0%nat)) <= 100.
Proof.
  refine (proj1 (balance_sanity utc noDateString run5 _ _)).
  apply elem_of_calculateProjectBalances. eexists. split; [|reflexivity].
  vm_compute. left.
Defined.

(** [X27] for a target of 0.1 hours and three earlier weeks without a
    block of the project: the carry-over is 0.1 + 0.1 + 0.1 in doubles,
    0.30000000000000004. *)
Lemma carryover_in_key_order_witness :
  carryoverBalance
    (projectBalance utc noDateString runC6
       (Array_sort weekKey_le (weeks (appData runC6)))
       (mkProject 2%nat "Tenth" (Number_literal (1 # 10)) Low 2%nat))
  = Q2Qc (5404319552844596 # 18014398509481984).
Proof.
  etrans.
  - apply (carryover_in_key_order utc noDateString runC6).
    apply elem_of_calculateProjectBalances. eexists. split; [|reflexivity].
    vm_compute. right. right. left.
  - apply Qc_is_canon. by vm_compute.
Defined.

(** [X28] at the end of the run. *)
Lemma total_hours_by_project_witness :
  getCurrentWeekTotalHours utc noDateString run5
  = sumQc (currentWeekLogged <$> calculateProjectBalances utc noDateString run5).
Proof.
  apply (total_hours_by_project utc noDateString run5).
  - apply (bool_decide_unpack _). vm_compute; reflexivity.
  - apply (bool_decide_unpack _). vm_compute; reflexivity.
Defined.

(** [X9] clearing the last slots of Tuesday, which hold no block, at the
    end of the run. *)
Lemma removeTimeBlocksInRange_spec_witness :
  removeTimeBlocksInRange utc noDateString Tuesday 20 23 run5 = run5.
Proof.
  destruct (removeTimeBlocksInRange_spec utc noDateString Tuesday 20 23 run5)
    as (_ & Hnone & _).
  apply Hnone. apply (bool_decide_unpack _). vm_compute; reflexivity.
Defined.

(** [X13] with an identifier that no block of the week has. *)
Lemma removeTimeBlock_spec_witness :
  blocks (getCurrentWeekData utc noDateString
            (removeTimeBlock utc noDateString 99%nat run5))
  = blocks (getCurrentWeekData utc noDateString run5).
Proof.
  destruct (removeTimeBlock_spec utc noDateString 99%nat run5) as (_ & _ & Hnone).
  apply Hnone. apply (bool_decide_unpack _). vm_compute; reflexivity.
Defined.

(** [X15] for the first block of Tuesday, moved to project 1, and for an
    identifier that no block has. *)
Lemma updateTimeBlockProject_spec_witness :
  blocks (getCurrentWeekData utc noDateString
            (updateTimeBlockProject utc noDateString 14%nat 1%nat run5)) !! 0%nat
  = Some (mkTimeBlock 14%nat 1%nat Tuesday 0)
  /\ updateTimeBlockProject utc noDateString 99%nat 1%nat run5 = run5.
Proof.
  split.
  - destruct (updateTimeBlockProject_spec utc noDateString 14%nat 1%nat run5)
      as (_ & Hfound).
    apply (Hfound 0%nat (mkTimeBlock 14%nat 0%nat Tuesday 0)).
    vm_compute; reflexivity.
  - destruct (updateTimeBlockProject_spec utc noDateString 99%nat 1%nat run5)
      as (Hnone & _).
    apply Hnone. apply (bool_decide_unpack _). vm_compute; reflexivity.
Defined.

(** [X16] a third project gets a colour that the two of the run do not
    have. *)
Lemma addProject_spec_witness :
  colorIndex (addProject "Gamma" (Q2Qc 5) Low run2).1
    ∉ colorIndex <$> projects (appData run2).
Proof.
  destruct (addProject_spec "Gamma" (Q2Qc 5) Low run2) as (_ & _ & _ & _ & _ & Hfree & _).
  apply (Hfree 2%nat).
  - vm_compute. lia.
  - apply (bool_decide_unpack _). vm_compute; reflexivity.
Defined.

(** [X17] renaming project 1, and an identifier that no project has. *)
Lemma updateProject_spec_witness :
  let updates := mkProjectUpdates (Some "Delta"%string) None None None in
  getProjectById 1%nat (updateProject 1%nat updates run2)
  = Some (mkProject 1%nat "Delta" (Q2Qc 8) Medium 1%nat)
  /\ updateProject 7%nat updates run2 = run2.
Proof.
  intros updates. split.
  - destruct (updateProject_spec 1%nat updates run2) as (_ & Hfound & _).
    apply (Hfound (mkProject 1%nat "Beta" (Q2Qc 8) Medium 1%nat)).
    vm_compute; reflexivity.
  - destruct (updateProject_spec 7%nat updates run2) as (Hnone & _).
    apply Hnone. apply (bool_decide_unpack _). vm_compute; reflexivity.
Defined.

(** [X18] on the run: the week that held one block of each project keeps
    the block of project 0. *)
Lemma deleteProject_frame_witness :
  exists w', weeks (appData runT3) !! 0%nat = Some w'
    /\ blocks w' = filter (fun b => projectId b <> 1%nat)
                     (blocks (getCurrentWeekData utc noDateString runT2)).
Proof.
  destruct (deleteProject_frame 1%nat runT2) as (_ & _ & _ & Hweek & _).
  destruct (Hweek 0%nat (getCurrentWeekData utc noDateString runT2)) as (w' & Hw & Hb & _).
  - vm_compute; reflexivity.
  - exists w'. split; [exact Hw | exact Hb].
Defined.

(** [X23] with an identifier that no template has. *)
Lemma deleteTemplate_spec_witness : deleteTemplate 9%nat runT3 = runT3.
Proof.
  destruct (deleteTemplate_spec utc noDateString 9%nat runT3) as (Hnone & _).
  apply Hnone. apply (bool_decide_unpack _). vm_compute; reflexivity.
Defined.

(** [X30] for the ten blocks of Tuesday at the end of the run: the first
    one lies in a stored group. *)
Lemma computeBlockGroupSizes_spec_witness :
  inGroup (computeBlockGroupSizes (blocks (getCurrentWeekData utc noDateString run5)))
          (mkTimeBlock 14%nat 0%nat Tuesday 0).
Proof.
  destruct (computeBlockGroupSizes_spec
              (blocks (getCurrentWeekData utc noDateString run5))) as (_ & Hcover).
  apply Hcover.
  - apply (bool_decide_unpack _). vm_compute; reflexivity.
  - vm_compute. left.
Defined.
